(** * OpenBrowserClaw: coordinator and agent worker, shallow embedding

    The development follows the TypeScript sources:
    - [config.ts]        constants and [buildTriggerPattern];
    - [types.ts]         messages, envelopes, coordinator state;
    - [agent-worker.ts]  the tool-use loop ([invokeAnthropic], [invokeOllama])
                         and [executeTool];
    - [orchestrator.ts]  the queue, [processQueue], [invokeAgent] and the
                         handlers of the worker's envelopes.

    JavaScript strings are sequences of UTF-16 code units; they are modelled
    as lists of code units so that [length], [slice], [trim] and regular
    expression matching count what the source counts. *)

From Stdlib Require Import List NArith Arith Bool String Ascii Lia DecimalString QArith_base.
Import ListNotations.

Close Scope Q_scope.
Set Implicit Arguments.
Set Warnings "-register-all,-abstract-large-number,-notation-for-abbreviation".

(* ===================================================================== *)
(** * JavaScript strings *)
(* ===================================================================== *)

Module JS.

Local Open Scope N_scope.

Definition jsstring := list N.

(** An ASCII literal of the source. *)
Definition lit (s : string) : jsstring :=
  map N_of_ascii (list_ascii_of_string s).

Definition eqb (a b : jsstring) : bool :=
  if list_eq_dec N.eq_dec a b then true else false.

(** [WhiteSpace] and [LineTerminator] of ECMAScript: what [\s] matches and
    what [String.prototype.trim] removes. *)
Definition isWhiteSpace (c : N) : bool :=
  ((9 <=? c) && (c <=? 13)) || (c =? 32) || (c =? 160) || (c =? 5760)
  || ((8192 <=? c) && (c <=? 8202)) || (c =? 8232) || (c =? 8233)
  || (c =? 8239) || (c =? 8287) || (c =? 12288) || (c =? 65279).

Fixpoint trimStart (s : jsstring) : jsstring :=
  match s with
  | c :: r => if isWhiteSpace c then trimStart r else s
  | [] => []
  end.

Definition trimEnd (s : jsstring) : jsstring := rev (trimStart (rev s)).

Definition trim (s : jsstring) : jsstring := trimEnd (trimStart s).

(** [s.startsWith(p)] *)
Fixpoint startsWith (p s : jsstring) : bool :=
  match p, s with
  | [], _ => true
  | a :: p', b :: s' => (a =? b) && startsWith p' s'
  | _ :: _, [] => false
  end.

(** [s.slice(0, n)] for a non-negative integer [n]. *)
Fixpoint slice0 (n : N) (s : jsstring) : jsstring :=
  match s with
  | [] => []
  | c :: r => if n =? 0 then [] else c :: slice0 (N.pred n) r
  end.

(** [s.length] *)
Definition len (s : jsstring) : N := N.of_nat (List.length s).

(** [String(n)] for a non-negative integer. *)
Definition ofN (n : N) : jsstring :=
  lit (NilZero.string_of_uint (N.to_uint n)).

Definition ofNat (n : nat) : jsstring := ofN (N.of_nat n).

(** [parts.join(sep)] *)
Fixpoint join (sep : jsstring) (parts : list jsstring) : jsstring :=
  match parts with
  | [] => []
  | [p] => p
  | p :: rest => p ++ sep ++ join sep rest
  end.

(** [a || b] on strings: the empty string is falsy. *)
Definition orElse (a b : jsstring) : jsstring :=
  match a with [] => b | _ => a end.

(** Basic word characters [A-Za-z0-9_], the class behind [\b]. *)
Definition isWordChar (c : N) : bool :=
  ((48 <=? c) && (c <=? 57)) || ((65 <=? c) && (c <=? 90))
  || ((97 <=? c) && (c <=? 122)) || (c =? 95).

(** Thrown values: an [Error] with its message, or any other value.
    [String(v)] of a value that is no [Error] runs the conversion of the
    value itself, which gives a string or throws in its turn: the value
    again ([None]) or another one. *)
Inductive Thrown : Type :=
| ErrorObj (message : jsstring)
| NonError (asString : jsstring)
| Unprintable (raises : option Thrown).

Inductive Result (A : Type) : Type :=
| Ok (a : A)
| Throw (e : Thrown).
Arguments Ok {A} a.
Arguments Throw {A} e.

(** [err instanceof Error ? err.message : String(err)], the way the worker
    renders a caught value. *)
Definition errText (e : Thrown) : Result jsstring :=
  match e with
  | ErrorObj m => Ok m
  | NonError s => Ok s
  | Unprintable None => Throw e
  | Unprintable (Some e') => Throw e'
  end.

End JS.

Import JS.

(* ===================================================================== *)
(** * Regular expressions: the fragment [buildTriggerPattern] produces *)
(* ===================================================================== *)

Module RegExp.

(** Pattern terms. [TStart] is [^] (no multiline flag), [TSpace] is [\s],
    [TBoundary] is [\b]. *)
Inductive term : Type :=
| TStart
| TSpace
| TChar (c : N)
| TBoundary
| TAlt (a b : term).

Record regexp : Type := { terms : list term; ignoreCase : bool }.

(** The syntax characters [. * + ? ^ $ { } ( ) | [ ] \ ]: exactly the class
    of [/[.*+?^${}()|[\]\\]/]. *)
Definition isSyntaxChar (c : N) : bool :=
  existsb (N.eqb c) [46; 42; 43; 63; 94; 36; 123; 125; 40; 41; 124; 91; 93; 92]%N.

Definition backslash : N := 92.

(** Pattern text made of plain characters and identity escapes of syntax
    characters. Anything else is outside this fragment ([None]); the
    constructor would either reject it or give it another meaning. *)
Fixpoint parseLiteral (src : jsstring) : option (list term) :=
  match src with
  | [] => Some []
  | c :: rest =>
      if (c =? backslash)%N then
        match rest with
        | d :: rest' =>
            if isSyntaxChar d
            then option_map (cons (TChar d)) (parseLiteral rest')
            else None
        | [] => None
        end
      else if isSyntaxChar c then None
      else option_map (cons (TChar c)) (parseLiteral rest)
  end.

Section Matching.

(** [String.prototype.toUpperCase] of the host on a one-code-unit string;
    only consulted outside ASCII. *)
Variable toUpperCase : N -> jsstring.

Definition asciiUpper (c : N) : N :=
  if ((97 <=? c) && (c <=? 122))%N then (c - 32)%N else c.

(** [Canonicalize] of ECMAScript for a pattern without the [u] flag. *)
Definition canonicalize (ic : bool) (ch : N) : N :=
  if negb ic then ch
  else if (ch <? 128)%N then asciiUpper ch
  else match toUpperCase ch with
       | [cu] => if (cu <? 128)%N then ch else cu
       | _ => ch
       end.

(** A position in the input: the code unit before it, if any, and the rest. *)
Definition pos : Type := (option N * jsstring)%type.

Definition wordBefore (p : pos) : bool :=
  match fst p with Some c => isWordChar c | None => false end.

Definition wordAfter (p : pos) : bool :=
  match snd p with c :: _ => isWordChar c | [] => false end.

(** All positions at which a match of the term starting at [p] can end. *)
Fixpoint matchTerm (ic : bool) (t : term) (p : pos) : list pos :=
  match t with
  | TStart => match fst p with None => [p] | Some _ => [] end
  | TSpace => match snd p with
              | c :: r => if isWhiteSpace c then [(Some c, r)] else []
              | [] => []
              end
  | TChar x => match snd p with
               | c :: r => if (canonicalize ic c =? canonicalize ic x)%N
                           then [(Some c, r)] else []
               | [] => []
               end
  | TBoundary => if xorb (wordBefore p) (wordAfter p) then [p] else []
  | TAlt a b => matchTerm ic a p ++ matchTerm ic b p
  end.

Fixpoint matchSeq (ic : bool) (ts : list term) (p : pos) : bool :=
  match ts with
  | [] => true
  | t :: ts' => existsb (matchSeq ic ts') (matchTerm ic t p)
  end.

(** Try every start position, left to right. *)
Fixpoint searchFrom (ic : bool) (ts : list term) (prev : option N)
         (s : jsstring) : bool :=
  matchSeq ic ts (prev, s)
  || match s with
     | c :: r => searchFrom ic ts (Some c) r
     | [] => false
     end.

(** [re.test(s)] for a pattern without the [g] or [y] flag. *)
Definition test (re : regexp) (s : jsstring) : bool :=
  searchFrom (ignoreCase re) (terms re) None s.

End Matching.

End RegExp.

(* ===================================================================== *)
(** * config.ts *)
(* ===================================================================== *)

Module Config.

Import RegExp.

Definition ASSISTANT_NAME : jsstring := lit "Andy".

(** [name.replace(/[.*+?^${}()|[\]\\]/g, '\\$&')] *)
Fixpoint escapeName (name : jsstring) : jsstring :=
  match name with
  | [] => []
  | c :: r => if isSyntaxChar c then backslash :: c :: escapeName r
              else c :: escapeName r
  end.

(** [new RegExp(`(^|\\s)@${escaped}\\b`, 'i')]; [None] stands for the
    constructor rejecting the pattern text. *)
Definition buildTriggerPattern (name : jsstring) : option regexp :=
  let escaped := escapeName name in
  match parseLiteral escaped with
  | Some body =>
      Some {| terms := [TAlt TStart TSpace; TChar 64] ++ body ++ [TBoundary];
              ignoreCase := true |}
  | None => None
  end.

Definition CONTEXT_WINDOW_SIZE : nat := 50.
Definition DEFAULT_MAX_TOKENS : N := 8096.
Definition DEFAULT_MODEL : jsstring := lit "claude-sonnet-4-6".
Definition FETCH_MAX_RESPONSE : N := 20000.
Definition DEFAULT_GROUP_ID : jsstring := lit "br:main".

End Config.

(* ===================================================================== *)
(** * types.ts *)
(* ===================================================================== *)

Module Types.

Inductive ChannelType : Type := browser | telegram.

Module InboundMessage.
Record t : Type := mk {
    id : jsstring;
    groupId : jsstring;
    sender : jsstring;
    content : jsstring;
    timestamp : N;
    channel : ChannelType
}.
End InboundMessage.

(** [StoredMessage extends InboundMessage]; [inbound] holds the inherited
    fields (the [...msg] of the source). *)
Module StoredMessage.
Record t : Type := mk {
    inbound : InboundMessage.t;
    isFromMe : bool;
    isTrigger : bool
}.
Definition groupId (m : t) : jsstring := InboundMessage.groupId (inbound m).
Definition content (m : t) : jsstring := InboundMessage.content (inbound m).
Definition timestamp (m : t) : N := InboundMessage.timestamp (inbound m).
Definition sender (m : t) : jsstring := InboundMessage.sender (inbound m).
End StoredMessage.

(** JSON values, as [JSON.parse] yields them; [JUndefined] is an absent
    property. A JSON number is a finite double, hence a rational. *)
Inductive JValue : Type :=
| JUndefined
| JNull
| JBool (b : bool)
| JNum (q : QArith_base.Q)
| JStr (s : jsstring)
| JArr (items : list JValue)
| JObj (fields : list (jsstring * JValue)).

(** [obj.key] on a parsed object. *)
Fixpoint lookupField (key : jsstring) (fields : list (jsstring * JValue)) : JValue :=
  match fields with
  | [] => JUndefined
  | (k, v) :: rest => if JS.eqb k key then v else lookupField key rest
  end.

Definition field (key : string) (v : JValue) : JValue :=
  match v with
  | JObj fields => lookupField (lit key) fields
  | _ => JUndefined
  end.

(** Truthiness of a JSON value. *)
Definition truthy (v : JValue) : bool :=
  match v with
  | JUndefined | JNull => false
  | JBool b => b
  | JNum q => negb (QArith_base.Qeq_bool q (QArith_base.Qmake 0 1))
  | JStr s => match s with [] => false | _ => true end
  | JArr _ | JObj _ => true
  end.

(** [a || b] *)
Definition jsOr (a b : JValue) : JValue := if truthy a then a else b.

Inductive Role : Type := user | assistant.

Inductive ContentBlock : Type :=
| BText (text : jsstring)
| BToolUse (id name : jsstring) (input : JValue)
| BToolResult (tool_use_id content : jsstring)
| BOther (type : jsstring).

Inductive Content : Type :=
| CString (s : jsstring)
| CBlocks (blocks : list ContentBlock).

Module ConversationMessage.
Record t : Type := mk { role : Role; content : Content }.
End ConversationMessage.

Module Task.
Record t : Type := mk {
    id : jsstring;
    groupId : jsstring;
    schedule : JValue;
    prompt : JValue;
    enabled : bool;
    lastRun : option N;
    createdAt : N
}.
End Task.

Inductive Provider : Type := anthropic | ollama.

Module InvokePayload.
Record t : Type := mk {
    groupId : jsstring;
    messages : list ConversationMessage.t;
    systemPrompt : jsstring;
    provider : Provider;
    apiKey : jsstring;
    ollamaUrl : jsstring;
    model : jsstring;
    maxTokens : N
}.
End InvokePayload.

Inductive WorkerInbound : Type :=
| Invoke (payload : InvokePayload.t)
| Cancel (groupId : jsstring)
| Compact (payload : InvokePayload.t).

Module TokenUsage.
Record t : Type := mk {
    groupId : jsstring;
    inputTokens : N;
    outputTokens : N;
    cacheReadTokens : N;
    cacheCreationTokens : N;
    contextLimit : N
}.
End TokenUsage.

Inductive LogKind : Type := KApiCall | KToolCall | KToolResult | KText | KInfo.

Module ThinkingLogEntry.
Record t : Type := mk {
    groupId : jsstring;
    kind : LogKind;
    timestamp : N;
    label : jsstring;
    detail : jsstring
}.
End ThinkingLogEntry.

Inductive ToolStatus : Type := running | done.

Inductive WorkerOutbound : Type :=
| Response (groupId text : jsstring)
| Error (groupId error : jsstring)
| Typing (groupId : jsstring)
| ToolActivity (groupId tool : jsstring) (status : ToolStatus)
| ThinkingLog (entry : ThinkingLogEntry.t)
| CompactDone (groupId summary : jsstring)
| TokenUsageMsg (usage : TokenUsage.t)
| TaskCreated (task : Task.t).

Inductive OrchestratorState : Type := idle | thinking | responding.

End Types.

Import Types.

(* ===================================================================== *)
(** * db.ts: the message store *)
(* ===================================================================== *)

Module Db.

(** Modelled from the spec: db.ts ([saveMessage], [clearGroupMessages],
    [getRecentMessages], [buildConversationMessages], [saveTask]) is not
    among the sources. The spec gives an append-only log per group, ordered
    by timestamp; [clearGroupMessages(groupId)] clears that group's history;
    [loadRecentMessages(groupId, limit)] yields an ordered sequence; the
    conversation window is built from the last N stored messages. The store
    is the list of stored messages in insertion order. *)
Definition Store : Type := list StoredMessage.t.

(** Modelled from the spec: [saveMessage(msg)] appends to the log. *)
Definition saveMessage (m : StoredMessage.t) (db : Store) : Store := db ++ [m].

(** Modelled from the spec: [clearGroupMessages(groupId)] removes every
    stored message of the group and no other. *)
Definition clearGroupMessages (g : jsstring) (db : Store) : Store :=
  filter (fun m => negb (JS.eqb (StoredMessage.groupId m) g)) db.

(** Modelled from the spec: the log of one group, the unit by which the
    store is partitioned. *)
Definition ofGroup (g : jsstring) (db : Store) : Store :=
  filter (fun m => JS.eqb (StoredMessage.groupId m) g) db.

(** Modelled from the spec: the log is ordered by timestamp; a message goes
    after those that are not later than it. *)
Fixpoint insertByTime (m : StoredMessage.t) (l : Store) : Store :=
  match l with
  | [] => [m]
  | x :: r => if (StoredMessage.timestamp m <? StoredMessage.timestamp x)%N
              then m :: l else x :: insertByTime m r
  end.

(** Modelled from the spec: stable ordering by timestamp. *)
Definition sortByTime (l : Store) : Store :=
  fold_left (fun acc m => insertByTime m acc) l [].

(** The last [n] elements. *)
Definition lastN (n : nat) (l : Store) : Store := skipn (List.length l - n) l.

(** Modelled from the spec: the last [limit] messages of the group, ordered
    by timestamp. *)
Definition getRecentMessages (g : jsstring) (limit : nat) (db : Store) : Store :=
  lastN limit (sortByTime (ofGroup g db)).

(** Modelled from the spec: a stored message becomes a conversation message
    with a role and its content; the assistant's own messages are those with
    [isFromMe]. *)
Definition toConversation (m : StoredMessage.t) : ConversationMessage.t :=
  ConversationMessage.mk
    (if StoredMessage.isFromMe m then assistant else user)
    (CString (StoredMessage.content m)).

(** Modelled from the spec: the bounded conversation window. *)
Definition buildConversationMessages (g : jsstring) (limit : nat) (db : Store)
  : list ConversationMessage.t :=
  map toConversation (getRecentMessages g limit db).

End Db.

(* ===================================================================== *)
(** * agent-worker.ts *)
(* ===================================================================== *)

Module Worker.

(** ** Wire formats of the two backends *)

Record Usage : Type := {
  input_tokens : option N;
  output_tokens : option N;
  cache_read_input_tokens : option N;
  cache_creation_input_tokens : option N
}.

(** The parsed body of a successful Anthropic reply. *)
Record AnthropicResult : Type := {
  usage : option Usage;
  content : list ContentBlock;
  stop_reason : jsstring
}.

Record AnthropicBody : Type := {
  ab_model : jsstring;
  ab_max_tokens : N;
  ab_system : jsstring;
  ab_messages : list ConversationMessage.t
}.

(** [tc.function.arguments] is empty when absent. *)
Record ToolCall : Type := {
  tc_id : jsstring;
  fn_name : jsstring;
  fn_arguments : jsstring
}.

(** A chat-completion message; [cm_content] is empty for [null] or absent. *)
Record ChatMessage : Type := {
  cm_role : jsstring;
  cm_content : jsstring;
  cm_tool_calls : option (list ToolCall);
  cm_tool_call_id : option jsstring;
  cm_name : option jsstring
}.

Record OllamaUsage : Type := {
  prompt_tokens : option N;
  completion_tokens : option N
}.

(** The parsed body of a successful Ollama reply; [o_message] and
    [finish_reason] are those of [result.choices[0]]. *)
Record OllamaResult : Type := {
  o_usage : option OllamaUsage;
  o_message : ChatMessage;
  finish_reason : jsstring
}.

Record OllamaBody : Type := {
  ob_model : jsstring;
  ob_messages : list ChatMessage;
  ob_max_tokens : N
}.

(** What [fetch] and the reading of the body give: [res.ok] false with the
    status and [res.text()], or [res.ok] true with [res.json()]. *)
Inductive Fetched (R : Type) : Type :=
| NotOk (status : N) (text : Result jsstring)
| IsOk (json : Result R).
Arguments NotOk {R} status text.
Arguments IsOk {R} json.

Record ShellResult : Type := {
  stdout : jsstring;
  stderr : jsstring;
  exitCode : N
}.

Record HttpResponse : Type := {
  h_status : N;
  h_text : Result jsstring;
  h_contentType : jsstring
}.

(** The value of an evaluated script with its two renderings,
    [JSON.stringify(result, null, 2)] and [String(result)]. Either may
    throw; [JSON.stringify] gives [undefined] ([None]) for an object whose
    [toJSON] returns [undefined]. *)
Inductive EvalValue : Type :=
| EvUndefined
| EvNull
| EvObject (json : Result (option jsstring)) (str : Result jsstring)
| EvOther (str : Result jsstring).

(** One backend round trip, as it went. *)
Inductive Trip : Type :=
| TripThrew (e : Thrown)
| TripStatus (status : N) (text : Result jsstring)
| TripBadJson (e : Thrown)
| TripAnthropic (r : AnthropicResult)
| TripOllama (r : OllamaResult).

(** ** The host of the worker: network, storage, shell, clock *)

Record Host (World : Type) : Type := {
  now : World -> N * World;
  ulid : World -> jsstring * World;
  stringify : JValue -> jsstring;
  stringifyBlocks : list ContentBlock -> jsstring;
  parseJSON : jsstring -> Result JValue;
  toNumber : JValue -> option Q;
  stringOf : JValue -> jsstring;
  nullDeref : jsstring -> jsstring;
  fetchAnthropic : jsstring -> AnthropicBody -> World
                   -> Result (Fetched AnthropicResult) * World;
  fetchOllama : jsstring -> OllamaBody -> World
                -> Result (Fetched OllamaResult) * World;
  executeShell : JValue -> jsstring -> option Q -> World
                 -> Result ShellResult * World;
  readGroupFile : jsstring -> JValue -> World -> Result jsstring * World;
  writeGroupFile : jsstring -> JValue -> JValue -> World -> Result unit * World;
  listGroupFiles : jsstring -> JValue -> World
                   -> Result (list jsstring) * World;
  httpFetch : JValue -> JValue -> JValue -> JValue -> World
              -> Result HttpResponse * World;
  stripHtml : jsstring -> jsstring;
  evalScript : JValue -> World -> Result EvalValue * World
}.

(** ** The worker's computations: world, outbox and exceptions *)

Record WState (World : Type) : Type := {
  world : World;
  outbox : list WorkerOutbound;
  backendLog : list Trip
}.

Definition W (World A : Type) : Type :=
  WState World -> Result A * WState World.

Section Monad.

Context {World : Type}.

Definition ret {A} (a : A) : W World A := fun st => (Ok a, st).

Definition bind {A B} (m : W World A) (k : A -> W World B) : W World B :=
  fun st => match m st with
            | (Ok a, st') => k a st'
            | (Throw e, st') => (Throw e, st')
            end.

Definition throw {A} (e : Thrown) : W World A := fun st => (Throw e, st).

(** [try { body } catch (err) { handler(err) }] *)
Definition tryCatch {A} (body : W World A) (handler : Thrown -> W World A)
  : W World A :=
  fun st => match body st with
            | (Ok a, st') => (Ok a, st')
            | (Throw e, st') => handler e st'
            end.

(** [await p] for a result the code already holds. *)
Definition await {A} (r : Result A) : W World A :=
  match r with Ok a => ret a | Throw e => throw e end.

(** A call to the host. *)
Definition call {A} (op : World -> Result A * World) : W World A :=
  fun st => let (r, w) := op (world st) in
            (r, {| world := w; outbox := outbox st; backendLog := backendLog st |}).

Definition callTotal {A} (op : World -> A * World) : W World A :=
  fun st => let (a, w) := op (world st) in
            (Ok a, {| world := w; outbox := outbox st; backendLog := backendLog st |}).

(** [post(message)] *)
Definition post (m : WorkerOutbound) : W World unit :=
  fun st => (Ok tt, {| world := world st; outbox := outbox st ++ [m];
                       backendLog := backendLog st |}).

Definition record (t : Trip) : W World unit :=
  fun st => (Ok tt, {| world := world st; outbox := outbox st;
                       backendLog := backendLog st ++ [t] |}).

End Monad.

Declare Scope worker_scope.
Delimit Scope worker_scope with worker.
Notation "x <- m ;; k" := (bind m (fun x => k))
  (at level 61, m at next level, right associativity) : worker_scope.
Notation "m ;; k" := (bind m (fun _ => k))
  (at level 61, right associativity) : worker_scope.

(** [for (const x of xs) { f(x) }], collecting what each step pushes. *)
Fixpoint forEach {World A B} (f : A -> W World (list B)) (xs : list A)
  : W World (list B) :=
  match xs with
  | [] => ret []
  | x :: rest =>
      bind (f x) (fun ys => bind (forEach f rest) (fun zs => ret (ys ++ zs)))
  end.

(** ** Text helpers *)

Definition ellipsis : jsstring := [8230%N].

(** [s.length > n ? s.slice(0, n) + '…' : s] *)
Definition preview (n : N) (s : jsstring) : jsstring :=
  if (n <? len s)%N then slice0 n s ++ ellipsis else s.

Definition openTag : jsstring := lit "<internal>".
Definition closeTag : jsstring := lit "</internal>".

(** Offset of the first [</internal>] in [s]. *)
Fixpoint closeOffset (s : jsstring) : option nat :=
  if startsWith closeTag s then Some 0
  else match s with
       | [] => None
       | _ :: r => option_map S (closeOffset r)
       end.

(** [skip] code units of a match are still to be dropped. *)
Fixpoint stripFrom (skip : nat) (s : jsstring) : jsstring :=
  match s with
  | [] => []
  | c :: r =>
      match skip with
      | S k => stripFrom k r
      | O =>
          if startsWith openTag s then
            match closeOffset (skipn (List.length openTag) s) with
            | Some off =>
                stripFrom (List.length openTag + off + List.length closeTag - 1) r
            | None => c :: stripFrom 0 r
            end
          else c :: stripFrom 0 r
      end
  end.

(** [text.replace(/<internal>[\s\S]*?<\/internal>/g, '')] *)
Definition stripInternal (text : jsstring) : jsstring := stripFrom 0 text.

Definition noResponse : jsstring := lit "(no response)".

(** [s.includes(needle)] *)
Fixpoint includes (needle s : jsstring) : bool :=
  startsWith needle s
  || match s with
     | [] => false
     | _ :: r => includes needle r
     end.

Definition warningSign : jsstring := [9888%N; 65039%N].

Definition anthropicLimitText : jsstring :=
  warningSign ++ lit " Reached maximum tool-use iterations (25). Stopping to avoid excessive API usage.".

Definition ollamaLimitText : jsstring :=
  warningSign ++ lit " Reached maximum tool-use iterations. Stopping to avoid infinite loops.".

Definition orZero (n : option N) : N :=
  match n with Some (Npos p) => Npos p | _ => 0%N end.

Definition roleName (r : Role) : jsstring :=
  match r with user => lit "user" | assistant => lit "assistant" end.

(** ** Tool execution *)

Definition nl : jsstring := [10%N].

Definition nonEmpty (s : jsstring) : bool :=
  match s with [] => false | _ => true end.

Section Tools.

Context {World : Type}.
Variable host : Host World.

Local Open Scope worker_scope.

(** The [TypeError] of reading the property [key] of [null] or of
    [undefined]; [nullDeref] is its message. *)
Definition typeError (key : string) : Thrown :=
  ErrorObj (nullDeref host (lit key)).

(** [input.key]; reading a property of [null] or [undefined] throws. *)
Definition prop (key : string) (input : JValue) : W World JValue :=
  match input with
  | JNull | JUndefined => throw (typeError key)
  | _ => ret (field key input)
  end.

(** [JSON.stringify(v)] of a parsed value: there is no text for
    [undefined]. *)
Definition jsonText (v : JValue) : option jsstring :=
  match v with
  | JUndefined => None
  | _ => Some (stringify host v)
  end.

(** [typeof output === 'string' ? output : JSON.stringify(output)] for what
    [executeTool] resolved to, a string or [undefined]. *)
Definition outputText (output : option jsstring) : option jsstring :=
  match output with
  | Some s => Some s
  | None => None
  end.

(** The receiver of [.length] or [.slice]: on [undefined] the read throws. *)
Definition defined (key : string) (s : option jsstring) : W World jsstring :=
  match s with
  | Some s => ret s
  | None => throw (typeError key)
  end.

(** A tool that returns a string. *)
Definition stringOut (m : W World jsstring) : W World (option jsstring) :=
  s <- m ;; ret (Some s).

Definition numberOf (v : JValue) : option Q :=
  match v with JNum q => Some q | _ => toNumber host v end.

(** [Math.min((input.timeout as number) || 30, 120)]; [None] is NaN. *)
Definition shellTimeout (v : JValue) : option Q :=
  match numberOf (jsOr v (JNum (Qmake 30 1))) with
  | Some q => Some (if Qle_bool q (Qmake 120 1) then q else Qmake 120 1)
  | None => None
  end.

(** A value inside a template literal. *)
Definition toStr (v : JValue) : jsstring :=
  match v with
  | JStr s => s
  | JUndefined => lit "undefined"
  | JNull => lit "null"
  | JBool true => lit "true"
  | JBool false => lit "false"
  | _ => stringOf host v
  end.

(** [(v as string).length] inside a template literal. *)
Definition lengthText (v : JValue) : W World jsstring :=
  match v with
  | JStr s => ret (ofN (len s))
  | JArr items => ret (ofNat (List.length items))
  | JObj fields => ret (toStr (lookupField (lit "length") fields))
  | JUndefined | JNull => throw (typeError "length")
  | JBool _ | JNum _ => ret (lit "undefined")
  end.

Definition toolBash (input : JValue) (groupId : jsstring) : W World jsstring :=
  command <- prop "command" input ;;
  timeout <- prop "timeout" input ;;
  result <- call (executeShell host command groupId (shellTimeout timeout)) ;;
  let output := stdout result in
  let output :=
    if nonEmpty (stderr result)
    then output ++ (if nonEmpty output then nl else []) ++ stderr result
    else output in
  let output :=
    if negb (exitCode result =? 0)%N && negb (nonEmpty (stderr result))
    then output ++ nl ++ lit "[exit code: " ++ ofN (exitCode result) ++ lit "]"
    else output in
  ret (orElse output (lit "(no output)")).

Definition toolReadFile (input : JValue) (groupId : jsstring) : W World jsstring :=
  path <- prop "path" input ;;
  call (readGroupFile host groupId path).

Definition toolWriteFile (input : JValue) (groupId : jsstring) : W World jsstring :=
  path <- prop "path" input ;;
  content <- prop "content" input ;;
  call (writeGroupFile host groupId path content) ;;
  n <- lengthText content ;;
  ret (lit "Written " ++ n ++ lit " bytes to " ++ toStr path).

Definition toolListFiles (input : JValue) (groupId : jsstring) : W World jsstring :=
  path <- prop "path" input ;;
  entries <- call (listGroupFiles host groupId (jsOr path (JStr (lit ".")))) ;;
  ret (match entries with
       | [] => lit "(empty directory)"
       | _ => join nl entries
       end).

Definition toolFetchUrl (input : JValue) : W World jsstring :=
  url <- prop "url" input ;;
  method <- prop "method" input ;;
  headers <- prop "headers" input ;;
  body <- prop "body" input ;;
  fetchRes <- call (httpFetch host url (jsOr method (JStr (lit "GET"))) headers body) ;;
  rawText <- await (h_text fetchRes) ;;
  let contentType := h_contentType fetchRes in
  let status := lit "[HTTP " ++ ofN (h_status fetchRes) ++ lit "]" ++ nl in
  let body :=
    if includes (lit "html") contentType
       || startsWith (lit "<") (trimStart rawText)
    then stripHtml host rawText else rawText in
  ret (status ++ slice0 Config.FETCH_MAX_RESPONSE body).

Definition toolUpdateMemory (input : JValue) (groupId : jsstring) : W World jsstring :=
  content <- prop "content" input ;;
  call (writeGroupFile host groupId (JStr (lit "CLAUDE.md")) content) ;;
  ret (lit "Memory updated successfully.").

Definition toolCreateTask (input : JValue) (groupId : jsstring) : W World jsstring :=
  id <- callTotal (ulid host) ;;
  schedule <- prop "schedule" input ;;
  prompt <- prop "prompt" input ;;
  createdAt <- callTotal (now host) ;;
  post (TaskCreated (Task.mk id groupId schedule prompt true None createdAt)) ;;
  ret (lit "Task created successfully." ++ nl ++ lit "Schedule: " ++ toStr schedule
       ++ nl ++ lit "Prompt: " ++ toStr prompt).

(** The [javascript] case has a handler of its own. What it returns is
    the text of [JSON.stringify] for an object, which is [undefined] when
    there is none; the rendering of a caught value can throw out of the
    handler. *)
Definition toolJavascript (input : JValue) : W World (option jsstring) :=
  tryCatch
    (code <- prop "code" input ;;
     result <- call (evalScript host code) ;;
     match result with
     | EvUndefined => ret (Some (lit "(no return value)"))
     | EvNull => ret (Some (lit "null"))
     | EvObject json str => tryCatch (await json) (fun _ => stringOut (await str))
     | EvOther str => stringOut (await str)
     end)
    (fun err =>
       message <- await (errText err) ;;
       ret (Some (lit "JavaScript error: " ++ message))).

(** The [switch (name)] inside the [try] of [executeTool]. *)
Definition toolSwitch (name : jsstring) (input : JValue) (groupId : jsstring)
  : W World (option jsstring) :=
  if JS.eqb name (lit "bash") then stringOut (toolBash input groupId)
  else if JS.eqb name (lit "read_file") then stringOut (toolReadFile input groupId)
  else if JS.eqb name (lit "write_file") then stringOut (toolWriteFile input groupId)
  else if JS.eqb name (lit "list_files") then stringOut (toolListFiles input groupId)
  else if JS.eqb name (lit "fetch_url") then stringOut (toolFetchUrl input)
  else if JS.eqb name (lit "update_memory") then stringOut (toolUpdateMemory input groupId)
  else if JS.eqb name (lit "create_task") then stringOut (toolCreateTask input groupId)
  else if JS.eqb name (lit "javascript") then toolJavascript input
  else ret (Some (lit "Unknown tool: " ++ name)).

Definition toolErrorText (name message : jsstring) : jsstring :=
  lit "Tool error (" ++ name ++ lit "): " ++ message.

(** What the promise of [executeTool] resolves to: a string, or [undefined]
    ([None]); it rejects when the rendering of the caught value throws. *)
Definition executeTool (name : jsstring) (input : JValue) (groupId : jsstring)
  : W World (option jsstring) :=
  tryCatch (toolSwitch name input groupId)
           (fun err =>
              message <- await (errText err) ;;
              ret (Some (toolErrorText name message))).

End Tools.

(** ** The tool-use loop *)

Inductive Round (M : Type) : Type :=
| Continue (currentMessages : M)
| Return.
Arguments Continue {M} currentMessages.
Arguments Return {M}.

Section Loops.

Context {World : Type}.
Variable host : Host World.

Local Open Scope worker_scope.

Definition maxIterations : nat := 25.

(** [log(groupId, kind, label, detail)] *)
Definition log (groupId : jsstring) (kind : LogKind) (label detail : jsstring)
  : W World unit :=
  t <- callTotal (now host) ;;
  post (ThinkingLog (ThinkingLogEntry.mk groupId kind t label detail)).

(** Runs [m] and hands its outcome over as a value. *)
Definition attempt {A} (m : W World A) : W World (Result A) :=
  fun st => let (r, st') := m st in (Ok r, st').

(** How a round trip went, for the history. *)
Definition tripOfAnthropic (r : Result (Fetched AnthropicResult)) : Trip :=
  match r with
  | Throw e => TripThrew e
  | Ok (NotOk status text) => TripStatus status text
  | Ok (IsOk (Throw e)) => TripBadJson e
  | Ok (IsOk (Ok result)) => TripAnthropic result
  end.

Definition tripOfOllama (r : Result (Fetched OllamaResult)) : Trip :=
  match r with
  | Throw e => TripThrew e
  | Ok (NotOk status text) => TripStatus status text
  | Ok (IsOk (Throw e)) => TripBadJson e
  | Ok (IsOk (Ok result)) => TripOllama result
  end.

(** [fetch(ANTHROPIC_API_URL, ...)], the test of [res.ok] and [res.json()].
    [record] keeps the history of round trips; it is not part of the
    program's data. *)
Definition roundTripAnthropic (apiKey : jsstring) (body : AnthropicBody)
  : W World AnthropicResult :=
  r <- attempt (call (fetchAnthropic host apiKey body)) ;;
  record (tripOfAnthropic r) ;;
  match r with
  | Throw e => throw e
  | Ok (NotOk status text) =>
      errBody <- await text ;;
      throw (ErrorObj (lit "Anthropic API error " ++ ofN status ++ lit ": " ++ errBody))
  | Ok (IsOk json) => await json
  end.

(** [fetch(`${ollamaUrl}/v1/chat/completions`, ...)] likewise. *)
Definition roundTripOllama (url : jsstring) (body : OllamaBody)
  : W World OllamaResult :=
  r <- attempt (call (fetchOllama host url body)) ;;
  record (tripOfOllama r) ;;
  match r with
  | Throw e => throw e
  | Ok (NotOk status text) =>
      errBody <- await text ;;
      throw (ErrorObj (lit "Ollama API error " ++ ofN status ++ lit ": " ++ errBody))
  | Ok (IsOk json) => await json
  end.

(** The context window of the session: 200k tokens. *)
Definition getContextLimit (_model : jsstring) : N := 200000.

Definition logTextBlock (groupId : jsstring) (block : ContentBlock)
  : W World (list unit) :=
  match block with
  | BText text =>
      if nonEmpty text
      then log groupId KText (lit "Response text") (preview 200 text) ;; ret []
      else ret []
  | _ => ret []
  end.

(** The body of [for (const block of result.content)] under
    [stop_reason === 'tool_use']. *)
Definition runToolUse (groupId : jsstring) (block : ContentBlock)
  : W World (list ContentBlock) :=
  match block with
  | BToolUse id name input =>
      inputPreview <- defined host "length" (jsonText host input) ;;
      log groupId KToolCall (lit "Tool: " ++ name) (preview 300 inputPreview) ;;
      post (ToolActivity groupId name running) ;;
      output <- executeTool host name input groupId ;;
      outputStr <- defined host "length" (outputText output) ;;
      log groupId KToolResult (lit "Result: " ++ name) (preview 500 outputStr) ;;
      post (ToolActivity groupId name done) ;;
      content <- match output with
                 | Some s => ret (slice0 100000 s)
                 | None => s <- defined host "slice" (outputText output) ;;
                           ret (slice0 100000 s)
                 end ;;
      ret [BToolResult id content]
  | _ => ret []
  end.

Definition textOf (block : ContentBlock) : jsstring :=
  match block with BText text => text | _ => [] end.

(** [content.filter(b => b.type === 'text').map(b => b.text).join('')] *)
Definition joinText (content : list ContentBlock) : jsstring :=
  List.concat (map textOf content).

(** What the worker answers with for a final text. *)
Definition finalText (text : jsstring) : jsstring :=
  orElse (trim (stripInternal text)) noResponse.

(** One pass through the body of the [while] of [invokeAnthropic];
    [iterations] is the counter after [iterations++]. *)
Definition anthropicRound (p : InvokePayload.t)
           (currentMessages : list ConversationMessage.t) (iterations : nat)
  : W World (Round (list ConversationMessage.t)) :=
  let groupId := InvokePayload.groupId p in
  log groupId KApiCall (lit "API call #" ++ ofNat iterations)
      (ofNat (List.length currentMessages) ++ lit " messages in context") ;;
  result <- roundTripAnthropic (InvokePayload.apiKey p)
              {| ab_model := InvokePayload.model p;
                 ab_max_tokens := InvokePayload.maxTokens p;
                 ab_system := InvokePayload.systemPrompt p;
                 ab_messages := currentMessages |} ;;
  match usage result with
  | Some u =>
      post (TokenUsageMsg
              (TokenUsage.mk groupId (orZero (input_tokens u))
                 (orZero (output_tokens u))
                 (orZero (cache_read_input_tokens u))
                 (orZero (cache_creation_input_tokens u))
                 (getContextLimit (InvokePayload.model p))))
  | None => ret tt
  end ;;
  forEach (logTextBlock groupId) (content result) ;;
  if JS.eqb (stop_reason result) (lit "tool_use") then
    toolResults <- forEach (runToolUse groupId) (content result) ;;
    post (Typing groupId) ;;
    ret (Continue (currentMessages
                   ++ [ConversationMessage.mk assistant (CBlocks (content result));
                       ConversationMessage.mk user (CBlocks toolResults)]))
  else
    post (Response groupId (finalText (joinText (content result)))) ;;
    ret Return.

(** [while (iterations < maxIterations) { iterations++; ... }] followed by
    the message for the exhausted budget. The result is [false] only when
    [fuel] runs out, an artefact of the recursion. *)
Fixpoint anthropicLoop (fuel : nat) (p : InvokePayload.t)
         (currentMessages : list ConversationMessage.t) (iterations : nat)
  : W World bool :=
  match fuel with
  | O => ret false
  | S fuel' =>
      if iterations <? maxIterations then
        r <- anthropicRound p currentMessages (S iterations) ;;
        match r with
        | Continue currentMessages' =>
            anthropicLoop fuel' p currentMessages' (S iterations)
        | Return => ret true
        end
      else
        post (Response (InvokePayload.groupId p) anthropicLimitText) ;;
        ret true
  end.

Definition middleDot : jsstring := [32%N; 183%N; 32%N].

Definition invokeAnthropic (p : InvokePayload.t) : W World bool :=
  let groupId := InvokePayload.groupId p in
  post (Typing groupId) ;;
  log groupId KInfo (lit "Starting")
      (lit "Model: " ++ InvokePayload.model p ++ middleDot
       ++ lit "Max tokens: " ++ ofN (InvokePayload.maxTokens p)) ;;
  tryCatch
    (anthropicLoop (S maxIterations) p (InvokePayload.messages p) 0)
    (fun err =>
       message <- await (errText err) ;;
       post (Error groupId message) ;; ret true).

(** A conversation message in the chat-completion format. *)
Definition toChat (m : ConversationMessage.t) : ChatMessage :=
  {| cm_role := roleName (ConversationMessage.role m);
     cm_content := match ConversationMessage.content m with
                   | CString s => s
                   | CBlocks blocks => stringifyBlocks host blocks
                   end;
     cm_tool_calls := None; cm_tool_call_id := None; cm_name := None |}.

(** The body of [for (const tc of message.tool_calls)]. *)
Definition runToolCall (groupId : jsstring) (tc : ToolCall)
  : W World (list ChatMessage) :=
  let inputStr := orElse (fn_arguments tc) (lit "{}") in
  log groupId KToolCall (lit "Tool: " ++ fn_name tc) inputStr ;;
  post (ToolActivity groupId (fn_name tc) running) ;;
  let inputCode := match parseJSON host inputStr with
                   | Ok v => v
                   | Throw _ => JObj []
                   end in
  output <- executeTool host (fn_name tc) inputCode groupId ;;
  outputStr <- defined host "length" (outputText output) ;;
  log groupId KToolResult (lit "Result: " ++ fn_name tc) (preview 500 outputStr) ;;
  post (ToolActivity groupId (fn_name tc) done) ;;
  ret [{| cm_role := lit "tool"; cm_content := slice0 100000 outputStr;
          cm_tool_calls := None; cm_tool_call_id := Some (tc_id tc);
          cm_name := Some (fn_name tc) |}].

(** One pass through the body of the [while] of [invokeOllama]. *)
Definition ollamaRound (p : InvokePayload.t) (currentMessages : list ChatMessage)
           (iterations : nat) : W World (Round (list ChatMessage)) :=
  let groupId := InvokePayload.groupId p in
  log groupId KApiCall (lit "Ollama API call #" ++ ofNat iterations)
      (ofNat (List.length currentMessages) ++ lit " messages in context") ;;
  result <- roundTripOllama (InvokePayload.ollamaUrl p ++ lit "/v1/chat/completions")
              {| ob_model := InvokePayload.model p;
                 ob_messages := currentMessages;
                 ob_max_tokens := InvokePayload.maxTokens p |} ;;
  let message := o_message result in
  match o_usage result with
  | Some u =>
      post (TokenUsageMsg
              (TokenUsage.mk groupId (orZero (prompt_tokens u))
                 (orZero (completion_tokens u)) 0 0 8192))
  | None => ret tt
  end ;;
  (if nonEmpty (cm_content message)
   then log groupId KText (lit "Response text") (preview 200 (cm_content message))
   else ret tt) ;;
  let currentMessages := currentMessages ++ [message] in
  match JS.eqb (finish_reason result) (lit "tool_calls"), cm_tool_calls message with
  | true, Some calls =>
      toolMessages <- forEach (runToolCall groupId) calls ;;
      post (Typing groupId) ;;
      ret (Continue (currentMessages ++ toolMessages))
  | _, _ =>
      let text := orElse (cm_content message) noResponse in
      post (Response groupId (finalText text)) ;;
      ret Return
  end.

Fixpoint ollamaLoop (fuel : nat) (p : InvokePayload.t)
         (currentMessages : list ChatMessage) (iterations : nat)
  : W World bool :=
  match fuel with
  | O => ret false
  | S fuel' =>
      if iterations <? maxIterations then
        r <- ollamaRound p currentMessages (S iterations) ;;
        match r with
        | Continue currentMessages' =>
            ollamaLoop fuel' p currentMessages' (S iterations)
        | Return => ret true
        end
      else
        post (Response (InvokePayload.groupId p) ollamaLimitText) ;;
        ret true
  end.

Definition invokeOllama (p : InvokePayload.t) : W World bool :=
  let groupId := InvokePayload.groupId p in
  post (Typing groupId) ;;
  log groupId KInfo (lit "Starting (Ollama)") (lit "Model: " ++ InvokePayload.model p) ;;
  tryCatch
    (let systemMessages :=
       if nonEmpty (InvokePayload.systemPrompt p)
       then [{| cm_role := lit "system";
                cm_content := InvokePayload.systemPrompt p;
                cm_tool_calls := None; cm_tool_call_id := None;
                cm_name := None |}]
       else [] in
     ollamaLoop (S maxIterations) p
                (systemMessages ++ map toChat (InvokePayload.messages p)) 0)
    (fun err =>
       message <- await (errText err) ;;
       post (Error groupId message) ;; ret true).

Definition handleInvoke (p : InvokePayload.t) : W World bool :=
  match InvokePayload.provider p with
  | ollama => invokeOllama p
  | anthropic => invokeAnthropic p
  end.

(** The worker started on a payload in a world, with an empty outbox. *)
Definition start (w : World) : WState World :=
  {| world := w; outbox := []; backendLog := [] |}.

End Loops.

End Worker.

(* ===================================================================== *)
(** * orchestrator.ts *)
(* ===================================================================== *)

Module Orchestrator.

Import RegExp.

(** Events of the [EventBus]. *)
Inductive Event : Type :=
| EvStateChange (s : OrchestratorState)
| EvMessage (m : StoredMessage.t)
| EvTyping (groupId : jsstring) (typing : bool)
| EvToolActivity (groupId tool : jsstring) (status : ToolStatus)
| EvThinkingLog (entry : ThinkingLogEntry.t)
| EvError (groupId error : jsstring)
| EvSessionReset (groupId : jsstring)
| EvContextCompacted (groupId summary : jsstring)
| EvTokenUsage (usage : TokenUsage.t).

(** What the coordinator does to its collaborators, in order. *)
Inductive Effect : Type :=
| Emit (e : Event)
| RouterSend (groupId text : jsstring)
| RouterSetTyping (groupId : jsstring) (typing : bool)
| PostMessage (m : WorkerInbound)
| Chime.

(** The private fields of the [Orchestrator] object. *)
Record Fields : Type := {
  state : OrchestratorState;
  triggerPattern : regexp;
  assistantName : jsstring;
  provider : Provider;
  ollamaUrl : jsstring;
  apiKey : jsstring;
  model : jsstring;
  maxTokens : N;
  messageQueue : list InboundMessage.t;
  processing : bool;
  pendingScheduledTasks : list jsstring
}.

Inductive Caller : Type := FromQueue | FromScheduler.

(** An asynchronous call suspended at an [await]. [QueueAwait r] is
    [processQueue] at [await this.invokeAgent(...)] once that promise is
    settled with [r]; before, the call it waits for is one of the [Invoke*]
    continuations with [FromQueue]. *)
Inductive Cont : Type :=
| EnqueueSave (stored : StoredMessage.t)
| InvokeSave (c : Caller) (groupId : jsstring) (stored : StoredMessage.t)
| InvokeMemory (c : Caller) (groupId : jsstring)
| InvokeBuild (c : Caller) (groupId memory : jsstring)
| QueueAwait (r : Result unit).

(** History of the run, kept for the statements only: the messages pushed on
    the queue, those taken from it (with [true] when [invokeAgent] was called
    for them), the groups whose [invoke] envelope the queue path posted, and
    the envelopes received from the worker. *)
Record History : Type := {
  pushed : list InboundMessage.t;
  shifted : list (InboundMessage.t * bool);
  queueDispatches : list jsstring;
  handled : list WorkerOutbound
}.

Record Sys : Type := {
  this : Fields;
  db : Db.Store;
  tasks : list Task.t;
  effects : list Effect;
  nextId : N;
  clock : N;
  pending : list Cont;
  history : History
}.

(** ** Field updates *)

Definition updThis (f : Fields -> Fields) (s : Sys) : Sys :=
  {| this := f (this s); db := db s; tasks := tasks s; effects := effects s;
     nextId := nextId s; clock := clock s; pending := pending s;
     history := history s |}.

Definition withState (v : OrchestratorState) (t : Fields) : Fields :=
  {| state := v; triggerPattern := triggerPattern t;
     assistantName := assistantName t; provider := provider t;
     ollamaUrl := ollamaUrl t; apiKey := apiKey t; model := model t;
     maxTokens := maxTokens t; messageQueue := messageQueue t;
     processing := processing t;
     pendingScheduledTasks := pendingScheduledTasks t |}.

Definition withQueue (v : list InboundMessage.t) (t : Fields) : Fields :=
  {| state := state t; triggerPattern := triggerPattern t;
     assistantName := assistantName t; provider := provider t;
     ollamaUrl := ollamaUrl t; apiKey := apiKey t; model := model t;
     maxTokens := maxTokens t; messageQueue := v;
     processing := processing t;
     pendingScheduledTasks := pendingScheduledTasks t |}.

Definition withProcessing (v : bool) (t : Fields) : Fields :=
  {| state := state t; triggerPattern := triggerPattern t;
     assistantName := assistantName t; provider := provider t;
     ollamaUrl := ollamaUrl t; apiKey := apiKey t; model := model t;
     maxTokens := maxTokens t; messageQueue := messageQueue t;
     processing := v;
     pendingScheduledTasks := pendingScheduledTasks t |}.

Definition withPendingTasks (v : list jsstring) (t : Fields) : Fields :=
  {| state := state t; triggerPattern := triggerPattern t;
     assistantName := assistantName t; provider := provider t;
     ollamaUrl := ollamaUrl t; apiKey := apiKey t; model := model t;
     maxTokens := maxTokens t; messageQueue := messageQueue t;
     processing := processing t;
     pendingScheduledTasks := v |}.

Definition withProvider (v : Provider) (t : Fields) : Fields :=
  {| state := state t; triggerPattern := triggerPattern t;
     assistantName := assistantName t; provider := v;
     ollamaUrl := ollamaUrl t; apiKey := apiKey t; model := model t;
     maxTokens := maxTokens t; messageQueue := messageQueue t;
     processing := processing t;
     pendingScheduledTasks := pendingScheduledTasks t |}.

Definition withOllamaUrl (v : jsstring) (t : Fields) : Fields :=
  {| state := state t; triggerPattern := triggerPattern t;
     assistantName := assistantName t; provider := provider t;
     ollamaUrl := v; apiKey := apiKey t; model := model t;
     maxTokens := maxTokens t; messageQueue := messageQueue t;
     processing := processing t;
     pendingScheduledTasks := pendingScheduledTasks t |}.

Definition withApiKey (v : jsstring) (t : Fields) : Fields :=
  {| state := state t; triggerPattern := triggerPattern t;
     assistantName := assistantName t; provider := provider t;
     ollamaUrl := ollamaUrl t; apiKey := v; model := model t;
     maxTokens := maxTokens t; messageQueue := messageQueue t;
     processing := processing t;
     pendingScheduledTasks := pendingScheduledTasks t |}.

Definition withModel (v : jsstring) (t : Fields) : Fields :=
  {| state := state t; triggerPattern := triggerPattern t;
     assistantName := assistantName t; provider := provider t;
     ollamaUrl := ollamaUrl t; apiKey := apiKey t; model := v;
     maxTokens := maxTokens t; messageQueue := messageQueue t;
     processing := processing t;
     pendingScheduledTasks := pendingScheduledTasks t |}.

Definition withName (name : jsstring) (t : Fields) : Fields :=
  {| state := state t; triggerPattern := triggerPattern t;
     assistantName := name; provider := provider t;
     ollamaUrl := ollamaUrl t; apiKey := apiKey t; model := model t;
     maxTokens := maxTokens t; messageQueue := messageQueue t;
     processing := processing t;
     pendingScheduledTasks := pendingScheduledTasks t |}.

Definition withPattern (re : regexp) (t : Fields) : Fields :=
  {| state := state t; triggerPattern := re;
     assistantName := assistantName t; provider := provider t;
     ollamaUrl := ollamaUrl t; apiKey := apiKey t; model := model t;
     maxTokens := maxTokens t; messageQueue := messageQueue t;
     processing := processing t;
     pendingScheduledTasks := pendingScheduledTasks t |}.

Definition withDb (v : Db.Store) (s : Sys) : Sys :=
  {| this := this s; db := v; tasks := tasks s; effects := effects s;
     nextId := nextId s; clock := clock s; pending := pending s;
     history := history s |}.

Definition withTasks (v : list Task.t) (s : Sys) : Sys :=
  {| this := this s; db := db s; tasks := v; effects := effects s;
     nextId := nextId s; clock := clock s; pending := pending s;
     history := history s |}.

Definition effect (e : Effect) (s : Sys) : Sys :=
  {| this := this s; db := db s; tasks := tasks s;
     effects := effects s ++ [e];
     nextId := nextId s; clock := clock s; pending := pending s;
     history := history s |}.

Definition withNextId (v : N) (s : Sys) : Sys :=
  {| this := this s; db := db s; tasks := tasks s; effects := effects s;
     nextId := v; clock := clock s; pending := pending s;
     history := history s |}.

Definition withClock (v : N) (s : Sys) : Sys :=
  {| this := this s; db := db s; tasks := tasks s; effects := effects s;
     nextId := nextId s; clock := v; pending := pending s;
     history := history s |}.

Definition withPending (v : list Cont) (s : Sys) : Sys :=
  {| this := this s; db := db s; tasks := tasks s; effects := effects s;
     nextId := nextId s; clock := clock s; pending := v;
     history := history s |}.

Definition updHistory (f : History -> History) (s : Sys) : Sys :=
  {| this := this s; db := db s; tasks := tasks s; effects := effects s;
     nextId := nextId s; clock := clock s; pending := pending s;
     history := f (history s) |}.

Definition notePushed (m : InboundMessage.t) (h : History) : History :=
  {| pushed := pushed h ++ [m]; shifted := shifted h;
     queueDispatches := queueDispatches h; handled := handled h |}.

Definition noteShifted (m : InboundMessage.t) (invoked : bool) (h : History)
  : History :=
  {| pushed := pushed h; shifted := shifted h ++ [(m, invoked)];
     queueDispatches := queueDispatches h; handled := handled h |}.

Definition noteDispatch (g : jsstring) (h : History) : History :=
  {| pushed := pushed h; shifted := shifted h;
     queueDispatches := queueDispatches h ++ [g]; handled := handled h |}.

Definition noteHandled (m : WorkerOutbound) (h : History) : History :=
  {| pushed := pushed h; shifted := shifted h;
     queueDispatches := queueDispatches h; handled := handled h ++ [m] |}.

Definition emit (e : Event) : Sys -> Sys := effect (Emit e).

(** The call suspends at an [await]. *)
Definition suspend (k : Cont) (s : Sys) : Sys :=
  withPending (pending s ++ [k]) s.

(** ** The coordinator's code *)

Definition emDash : jsstring := [8212%N].

(** [buildSystemPrompt(assistantName, memory)] *)
Definition buildSystemPrompt (assistantName memory : jsstring) : jsstring :=
  let parts :=
    [ lit "You are " ++ assistantName
        ++ lit ", a personal AI assistant running in the user's browser.";
      [];
      lit "You have access to the following tools:";
      lit "- **bash**: Execute commands in a sandboxed Linux VM (Alpine). Use for scripts, text processing, package installation.";
      lit "- **javascript**: Execute JavaScript code. Lighter than bash " ++ emDash
        ++ lit " no VM boot needed. Use for calculations, data transforms.";
      lit "- **read_file** / **write_file** / **list_files**: Manage files in the group workspace (persisted in browser storage).";
      lit "- **fetch_url**: Make HTTP requests (subject to CORS).";
      lit "- **update_memory**: Persist important context to CLAUDE.md " ++ emDash
        ++ lit " loaded on every conversation.";
      lit "- **create_task**: Schedule recurring tasks with cron expressions.";
      [];
      lit "Guidelines:";
      lit "- Be concise and direct.";
      lit "- Use tools proactively when they help answer the question.";
      lit "- Update memory when you learn important preferences or context.";
      lit "- For scheduled tasks, confirm the schedule with the user.";
      lit "- Strip <internal> tags from your responses " ++ emDash
        ++ lit " they are for your internal reasoning only." ] in
  let parts :=
    if Worker.nonEmpty memory
    then parts ++ [[]; lit "## Persistent Memory"; []; memory]
    else parts in
  join Worker.nl parts.

(** [groupId.startsWith('tg:') ? 'telegram' : 'browser'] *)
Definition channelOf (groupId : jsstring) : ChannelType :=
  if startsWith (lit "tg:") groupId then telegram else browser.

Definition scheduledMarker : jsstring := lit "[SCHEDULED TASK]".

Definition apiKeyMissing : jsstring :=
  lit "API key not configured. Go to Settings to add your Anthropic API key.".

Definition ollamaUrlMissing : jsstring :=
  lit "Ollama URL not configured. Go to Settings to configure your Ollama Host.".

(** [isConfigured()] *)
Definition isConfigured (t : Fields) : bool :=
  match provider t with
  | ollama => (0 <? len (trim (ollamaUrl t)))%N
  | anthropic => (0 <? len (apiKey t))%N
  end.

(** [pendingScheduledTasks.add(g)], [.has(g)] and [.delete(g)] *)
Definition hasGroup (g : jsstring) (set : list jsstring) : bool :=
  existsb (JS.eqb g) set.

Definition addGroup (g : jsstring) (set : list jsstring) : list jsstring :=
  if hasGroup g set then set else set ++ [g].

Definition deleteGroup (g : jsstring) (set : list jsstring) : list jsstring :=
  filter (fun x => negb (JS.eqb g x)) set.

Section Coordinator.

(** The host: [toUpperCase] for the case-insensitive pattern, and the
    sequence of identifiers [ulid()] returns. *)
Variable toUpperCase : N -> jsstring.
Variable ulid : N -> jsstring.

(** [setState(state)] *)
Definition setState (v : OrchestratorState) (s : Sys) : Sys :=
  emit (EvStateChange v) (updThis (withState v) s).

Definition payloadFor (s : Sys) (groupId : jsstring)
           (messages : list ConversationMessage.t) (systemPrompt : jsstring)
  : InvokePayload.t :=
  InvokePayload.mk groupId messages systemPrompt (provider (this s))
                   (apiKey (this s)) (ollamaUrl (this s)) (model (this s))
                   (maxTokens (this s)).

(** The promise of [invokeAgent] settles with [r]: [processQueue] can go on
    when the call was its own; the scheduler ignores the outcome. *)
Definition settle (c : Caller) (r : Result unit) (s : Sys) : Sys :=
  match c with
  | FromQueue => suspend (QueueAwait r) s
  | FromScheduler => s
  end.

(** [invokeAgent(groupId, triggerContent)] up to its first [await]. *)
Definition invokeAgent (c : Caller) (groupId triggerContent : jsstring)
           (s : Sys) : Sys :=
  let s := setState thinking s in
  let s := effect (RouterSetTyping groupId true) s in
  let s := emit (EvTyping groupId true) s in
  if startsWith scheduledMarker triggerContent then
    let s := updThis (fun t => withPendingTasks
                                 (addGroup groupId (pendingScheduledTasks t)) t) s in
    let stored :=
      StoredMessage.mk
        (InboundMessage.mk (ulid (nextId s)) groupId (lit "Scheduler")
                           triggerContent (clock s) (channelOf groupId))
        false true in
    suspend (InvokeSave c groupId stored) (withNextId (nextId s + 1)%N s)
  else
    suspend (InvokeMemory c groupId) s.

(** [processQueue()] up to [await this.invokeAgent(...)]. *)
Definition processQueue (s : Sys) : Sys :=
  if processing (this s) then s
  else
    match messageQueue (this s) with
    | [] => s
    | msg :: rest =>
        if negb (isConfigured (this s)) then
          let s := updThis (withQueue rest) s in
          let s := updHistory (noteShifted msg false) s in
          emit (EvError (InboundMessage.groupId msg)
                        (match provider (this s) with
                         | anthropic => apiKeyMissing
                         | ollama => ollamaUrlMissing
                         end)) s
        else
          let s := updThis (withProcessing true) s in
          let s := updThis (withQueue rest) s in
          let s := updHistory (noteShifted msg true) s in
          invokeAgent FromQueue (InboundMessage.groupId msg)
                      (InboundMessage.content msg) s
    end.

(** The trigger check of [enqueue]: [isBrowserMain || hasTrigger]. *)
Definition isTriggered (pattern : regexp) (msg : InboundMessage.t) : bool :=
  let isBrowserMain := JS.eqb (InboundMessage.groupId msg) Config.DEFAULT_GROUP_ID in
  let hasTrigger := test toUpperCase pattern (trim (InboundMessage.content msg)) in
  isBrowserMain || hasTrigger.

(** [enqueue(msg)] up to [await saveMessage(stored)]. *)
Definition enqueue (msg : InboundMessage.t) (s : Sys) : Sys :=
  if isTriggered (triggerPattern (this s)) msg then
    let s := updThis (fun t => withQueue (messageQueue t ++ [msg]) t) s in
    let s := updHistory (notePushed msg) s in
    suspend (EnqueueSave (StoredMessage.mk msg false true)) s
  else
    suspend (EnqueueSave (StoredMessage.mk msg false false)) s.

(** What an awaited call of a collaborator gives: a value (the text of the
    memory file for [readGroupFile]) or a rejection. *)
Inductive Outcome : Type :=
| Resolved (text : jsstring)
| Rejected (e : Thrown).

(** The [finally] of [processQueue]. *)
Definition finallyProcessQueue (s : Sys) : Sys :=
  let s := updThis (withProcessing false) s in
  match messageQueue (this s) with
  | [] => s
  | _ :: _ => processQueue s
  end.

(** The suspended call [k] goes on after its [await], up to its next one. *)
Definition resume (k : Cont) (o : Outcome) (s : Sys) : Sys :=
  match k with
  | EnqueueSave stored =>
      match o with
      | Resolved _ =>
          let s := withDb (Db.saveMessage stored (db s)) s in
          let s := emit (EvMessage stored) s in
          processQueue s
      | Rejected _ => s
      end
  | InvokeSave c groupId stored =>
      match o with
      | Resolved _ =>
          let s := withDb (Db.saveMessage stored (db s)) s in
          let s := emit (EvMessage stored) s in
          suspend (InvokeMemory c groupId) s
      | Rejected e => settle c (Throw e) s
      end
  | InvokeMemory c groupId =>
      let memory := match o with Resolved text => text | Rejected _ => [] end in
      suspend (InvokeBuild c groupId memory) s
  | InvokeBuild c groupId memory =>
      match o with
      | Resolved _ =>
          let messages :=
            Db.buildConversationMessages groupId Config.CONTEXT_WINDOW_SIZE (db s) in
          let systemPrompt := buildSystemPrompt (assistantName (this s)) memory in
          let s := effect (PostMessage
                             (Invoke (payloadFor s groupId messages systemPrompt))) s in
          let s := match c with
                   | FromQueue => updHistory (noteDispatch groupId) s
                   | FromScheduler => s
                   end in
          settle c (Ok tt) s
      | Rejected e => settle c (Throw e) s
      end
  | QueueAwait _ => finallyProcessQueue s
  end.

(** ** Handlers of the worker's envelopes *)

(** Which of the collaborators' calls fail during one handler. *)
Record Faults : Type := {
  saveMessageFault : option Thrown;
  routerSendFault : option Thrown;
  clearFault : option Thrown;
  saveTaskFault : option Thrown;
  buildFault : option Thrown;
  memoryFile : Result jsstring
}.

Definition noFaults : Faults :=
  {| saveMessageFault := None; routerSendFault := None; clearFault := None;
     saveTaskFault := None; buildFault := None; memoryFile := Ok [] |}.

Definition Handler (A : Type) : Type := Sys -> Result A * Sys.

Definition oret {A} (a : A) : Handler A := fun s => (Ok a, s).

Definition obind {A B} (m : Handler A) (k : A -> Handler B) : Handler B :=
  fun s => match m s with
           | (Ok a, s') => k a s'
           | (Throw e, s') => (Throw e, s')
           end.

Definition oget : Handler Sys := fun s => (Ok s, s).

Definition lift (f : Sys -> Sys) : Handler unit := fun s => (Ok tt, f s).

Definition failing (fault : option Thrown) : Handler unit :=
  fun s => match fault with Some e => (Throw e, s) | None => (Ok tt, s) end.

Definition otry (body : Handler unit) (handler : Thrown -> Handler unit)
  : Handler unit :=
  fun s => match body s with
           | (Ok a, s') => (Ok a, s')
           | (Throw e, s') => handler e s'
           end.

Local Notation "x <- m ;; k" := (obind m (fun x => k))
  (at level 61, m at next level, right associativity).
Local Notation "m ;; k" := (obind m (fun _ => k))
  (at level 61, right associativity).

Definition freshUlid : Handler jsstring :=
  fun s => (Ok (ulid (nextId s)), withNextId (nextId s + 1)%N s).

(** [await saveMessage(stored)] *)
Definition saveMessage (f : Faults) (stored : StoredMessage.t) : Handler unit :=
  failing (saveMessageFault f) ;;
  lift (fun s => withDb (Db.saveMessage stored (db s)) s).

(** [await clearGroupMessages(groupId)] *)
Definition clearGroupMessages (f : Faults) (groupId : jsstring) : Handler unit :=
  failing (clearFault f) ;;
  lift (fun s => withDb (Db.clearGroupMessages groupId (db s)) s).

(** [await this.router.send(groupId, text)] *)
Definition routerSend (f : Faults) (groupId text : jsstring) : Handler unit :=
  failing (routerSendFault f) ;;
  lift (effect (RouterSend groupId text)).

(** [await saveTask(task)] *)
Definition saveTask (f : Faults) (task : Task.t) : Handler unit :=
  failing (saveTaskFault f) ;;
  lift (fun s => withTasks (tasks s ++ [task]) s).

Definition deliverResponse (f : Faults) (groupId text : jsstring) : Handler unit :=
  id <- freshUlid ;;
  s <- oget ;;
  let stored :=
    StoredMessage.mk
      (InboundMessage.mk id groupId (assistantName (this s)) text (clock s)
                         (channelOf groupId))
      true false in
  saveMessage f stored ;;
  routerSend f groupId text ;;
  s <- oget ;;
  (if hasGroup groupId (pendingScheduledTasks (this s))
   then lift (updThis (fun t => withPendingTasks
                                  (deleteGroup groupId (pendingScheduledTasks t)) t)) ;;
        lift (effect Chime)
   else oret tt) ;;
  lift (emit (EvMessage stored)) ;;
  lift (emit (EvTyping groupId false)) ;;
  lift (setState idle) ;;
  lift (effect (RouterSetTyping groupId false)).

Definition notepad : jsstring := [55357%N; 56541%N].

Definition compactedText (summary : jsstring) : jsstring :=
  notepad ++ lit " **Context Compacted**" ++ Worker.nl ++ Worker.nl ++ summary.

Definition handleCompactDone (f : Faults) (groupId summary : jsstring) : Handler unit :=
  clearGroupMessages f groupId ;;
  id <- freshUlid ;;
  s <- oget ;;
  let stored :=
    StoredMessage.mk
      (InboundMessage.mk id groupId (assistantName (this s))
                         (compactedText summary) (clock s) (channelOf groupId))
      true false in
  saveMessage f stored ;;
  lift (emit (EvContextCompacted groupId summary)) ;;
  lift (emit (EvTyping groupId false)) ;;
  lift (setState idle).

Definition errorReply (error : jsstring) : jsstring :=
  Worker.warningSign ++ lit " Error: " ++ error.

Definition handleWorkerMessage (f : Faults) (msg : WorkerOutbound) : Handler unit :=
  match msg with
  | Response groupId text => deliverResponse f groupId text
  | TaskCreated task => otry (saveTask f task) (fun _ => oret tt)
  | Error groupId error => deliverResponse f groupId (errorReply error)
  | Typing groupId =>
      lift (effect (RouterSetTyping groupId true)) ;;
      lift (emit (EvTyping groupId true))
  | ToolActivity groupId tool status =>
      lift (emit (EvToolActivity groupId tool status))
  | ThinkingLog entry => lift (emit (EvThinkingLog entry))
  | CompactDone groupId summary => handleCompactDone f groupId summary
  | TokenUsageMsg usage => lift (emit (EvTokenUsage usage))
  end.

Definition isIdle (v : OrchestratorState) : bool :=
  match v with idle => true | _ => false end.

(** [compactContext(groupId)] *)
Definition compactContext (f : Faults) (groupId : jsstring) : Handler unit :=
  s <- oget ;;
  if negb (isConfigured (this s)) then
    lift (emit (EvError groupId
                  (match provider (this s) with
                   | anthropic => lit "API key not configured. Cannot compact context."
                   | ollama => lit "Ollama URL not configured. Cannot compact context."
                   end)))
  else if negb (isIdle (state (this s))) then
    lift (emit (EvError groupId
                  (lit "Cannot compact while processing. Wait for the current response to finish.")))
  else
    lift (setState thinking) ;;
    lift (emit (EvTyping groupId true)) ;;
    let memory := match memoryFile f with Ok text => text | Throw _ => [] end in
    failing (buildFault f) ;;
    s <- oget ;;
    let messages :=
      Db.buildConversationMessages groupId Config.CONTEXT_WINDOW_SIZE (db s) in
    let systemPrompt := buildSystemPrompt (assistantName (this s)) memory in
    lift (effect (PostMessage (Compact (payloadFor s groupId messages systemPrompt)))).

(** [newSession(groupId)] *)
Definition newSession (f : Faults) (groupId : jsstring) : Handler unit :=
  clearGroupMessages f groupId ;;
  lift (emit (EvSessionReset groupId)).

(** [setAssistantName(name)] *)
Definition setAssistantName (name : jsstring) (s : Sys) : Sys :=
  let s := updThis (withName name) s in
  match Config.buildTriggerPattern name with
  | Some re => updThis (withPattern re) s
  | None => s
  end.

(** ** The coordinator as a transition system *)

(** What can happen to the coordinator; every handler and every part of an
    asynchronous call between two [await]s runs to its end before the next
    input is taken. The handlers of the worker's envelopes,
    [compactContext], [newSession] and the setters never touch the queue or
    the [processing] flag and are taken in one piece. [Scheduled] is the
    callback given to the task scheduler, [(groupId, prompt) =>
    this.invokeAgent(groupId, prompt)]; the scheduler itself is not among
    the sources and, by the specification, passes a prompt that begins with
    the marker of scheduled tasks. [Tick] is the clock moving on. *)
Inductive Input : Type :=
| Inbound (msg : InboundMessage.t)
| Resume (i : nat) (o : Outcome)
| FromWorker (m : WorkerOutbound) (f : Faults)
| Scheduled (groupId prompt : jsstring)
| CompactRequest (groupId : jsstring) (f : Faults)
| NewSession (groupId : jsstring) (f : Faults)
| SetProvider (v : Provider)
| SetOllamaUrl (v : jsstring)
| SetApiKey (v : jsstring)
| SetModel (v : jsstring)
| SetAssistantName (v : jsstring)
| Tick (t : N).

(** The list without its [i]-th element. *)
Fixpoint dropNth {A} (i : nat) (l : list A) : list A :=
  match l, i with
  | [], _ => []
  | _ :: r, O => r
  | x :: r, S j => x :: dropNth j r
  end.

Definition step (s : Sys) (i : Input) : Sys :=
  match i with
  | Inbound msg => enqueue msg s
  | Resume n o =>
      match nth_error (pending s) n with
      | Some k => resume k o (withPending (dropNth n (pending s)) s)
      | None => s
      end
  | FromWorker m f =>
      updHistory (noteHandled m) (snd (handleWorkerMessage f m s))
  | Scheduled groupId prompt =>
      invokeAgent FromScheduler groupId (scheduledMarker ++ prompt) s
  | CompactRequest groupId f => snd (compactContext f groupId s)
  | NewSession groupId f => snd (newSession f groupId s)
  | SetProvider v => updThis (withProvider v) s
  | SetOllamaUrl v => updThis (withOllamaUrl v) s
  | SetApiKey v => updThis (withApiKey v) s
  | SetModel v => updThis (withModel v) s
  | SetAssistantName v => setAssistantName v s
  | Tick t => withClock t s
  end.

Definition run (s : Sys) (inputs : list Input) : Sys := fold_left step inputs s.

(** The coordinator after [init()]: the configuration as loaded, an empty
    queue, nothing in progress. *)
Definition initial (cfg : Fields) (store : Db.Store) : Sys :=
  {| this := withQueue [] (withProcessing false (withState idle
               (withPendingTasks [] cfg)));
     db := store; tasks := []; effects := []; nextId := 0; clock := 0;
     pending := [];
     history := {| pushed := []; shifted := []; queueDispatches := [];
                   handled := [] |} |}.

End Coordinator.

End Orchestrator.

(* ===================================================================== *)
(** * The trigger as the specification words it *)
(* ===================================================================== *)

Module Claimed.

Import RegExp.

Section Trigger.

Variable toUpperCase : N -> jsstring.

(** [s] begins with [p], letter case apart; the result is the position
    after it. *)
Fixpoint prefixIgnoringCase (p s : jsstring) (prev : option N) : option pos :=
  match p, s with
  | [], _ => Some (prev, s)
  | a :: p', c :: s' =>
      if (canonicalize toUpperCase true c =? canonicalize toUpperCase true a)%N
      then prefixIgnoringCase p' s' (Some c)
      else None
  | _ :: _, [] => None
  end.

(** Somewhere in [s], [@<name>] occurs, letter case apart, and ends at a
    word boundary. *)
Fixpoint mentionsAtWordBoundary (name s : jsstring) (prev : option N) : bool :=
  match prefixIgnoringCase (64%N :: name) s prev with
  | Some p => xorb (wordBefore p) (wordAfter p)
  | None => false
  end
  || match s with
     | c :: r => mentionsAtWordBoundary name r (Some c)
     | [] => false
     end.

(** The trigger predicate in the specification's words: the content matches
    [@<assistantName>] at a word boundary, case-insensitively, or the group
    is the default local group. *)
Definition trigger (name : jsstring) (msg : InboundMessage.t) : bool :=
  mentionsAtWordBoundary name (InboundMessage.content msg) None
  || JS.eqb (InboundMessage.groupId msg) Config.DEFAULT_GROUP_ID.

End Trigger.

End Claimed.

(* ===================================================================== *)
(** * The shape of a triggering mention *)
(* ===================================================================== *)

Module Mention.

Import RegExp.

Section Shape.

Variable toUpperCase : N -> jsstring.

(** Two code units are the same letter, case apart. *)
Definition sameLetter (a b : N) : bool :=
  (canonicalize toUpperCase true a =? canonicalize toUpperCase true b)%N.

(** The code unit before the position reached after reading [m]. *)
Definition lastOr (prev : option N) (m : jsstring) : option N :=
  match rev m with c :: _ => Some c | [] => prev end.

(** [t] holds [@<name>], letter case apart, right at its start or right
    after a white space character, and the end of the name is a word
    boundary: of the last code unit of [@<name>] and the code unit that
    follows (none at the end of [t]), exactly one is a word character. *)
Definition Mentions (name t : jsstring) : Prop :=
  exists pre m post,
    t = pre ++ 64%N :: m ++ post
    /\ (pre = [] \/ exists pre' w, pre = pre' ++ [w] /\ isWhiteSpace w = true)
    /\ Forall2 (fun a b => sameLetter a b = true) m name
    /\ xorb (wordBefore (lastOr (Some 64%N) m, post))
            (wordAfter (lastOr (Some 64%N) m, post)) = true.

End Shape.

(** A host without case mappings outside ASCII, and a message of a remote
    chat, for the examples. *)
Definition plainUpper (c : N) : jsstring := [c].

Definition remoteMessage (content : string) : InboundMessage.t :=
  InboundMessage.mk (lit "m1") (lit "tg:1") (lit "bob") (lit content) 0 telegram.

End Mention.

(* ===================================================================== *)
(** * Observations on a run of the worker *)
(* ===================================================================== *)

Module Observe.

Import Worker.

(** The envelopes that end an invocation or a compaction. *)
Definition isCompletion (m : WorkerOutbound) : bool :=
  match m with
  | Response _ _ | Error _ _ | CompactDone _ _ => true
  | _ => false
  end.

Definition roundTrips {World} (st : WState World) : nat :=
  List.length (backendLog st).

(** The outbox holds, in order, envelopes that are no completions and then
    the single completion [m]. *)
Definition endsWith {World} (st : WState World) (m : WorkerOutbound) : Prop :=
  exists before, outbox st = before ++ [m]
                 /\ Forall (fun x => isCompletion x = false) before.

(** The reply of a round trip asks for tools: the loop goes on. *)
Definition asking (t : Trip) : bool :=
  match t with
  | TripAnthropic res => JS.eqb (stop_reason res) (lit "tool_use")
  | TripOllama res =>
      JS.eqb (finish_reason res) (lit "tool_calls")
      && match cm_tool_calls (o_message res) with Some _ => true | None => false end
  | _ => false
  end.

(** The text of a final reply, before the worker cleans it. *)
Definition replyText (t : Trip) : option jsstring :=
  match t with
  | TripAnthropic res => Some (joinText (content res))
  | TripOllama res => Some (orElse (cm_content (o_message res)) noResponse)
  | _ => None
  end.

(** The exception a failed round trip raises in the loop of the backend
    called [backend]. *)
Definition raisedBy (backend : string) (t : Trip) : option Thrown :=
  match t with
  | TripThrew e => Some e
  | TripStatus status (Ok text) =>
      Some (ErrorObj (lit backend ++ lit " API error " ++ ofN status ++ lit ": " ++ text))
  | TripStatus _ (Throw e) => Some e
  | TripBadJson e => Some e
  | _ => None
  end.

(** The shape the two tool-use loops share: the body of the [while] is
    [round], [limitText] is posted when the budget is used up. *)
Fixpoint loopOf {World M} (round : M -> nat -> W World (Round M))
         (groupId limitText : jsstring) (fuel : nat) (currentMessages : M)
         (iterations : nat) : W World bool :=
  match fuel with
  | O => ret false
  | S fuel' =>
      if iterations <? maxIterations then
        bind (round currentMessages (S iterations))
             (fun r => match r with
                       | Continue currentMessages' =>
                           loopOf round groupId limitText fuel' currentMessages'
                                  (S iterations)
                       | Return => ret true
                       end)
      else
        bind (post (Response groupId limitText)) (fun _ => ret true)
  end.

(** A backend that asks for a tool on every round. *)
Definition anthropicAlwaysAsks {World} (host : Host World) : Prop :=
  forall key body w, exists res w',
    fetchAnthropic host key body w = (Ok (IsOk (Ok res)), w')
    /\ stop_reason res = lit "tool_use".

Definition ollamaAlwaysAsks {World} (host : Host World) : Prop :=
  forall url body w, exists res calls w',
    fetchOllama host url body w = (Ok (IsOk (Ok res)), w')
    /\ finish_reason res = lit "tool_calls"
    /\ cm_tool_calls (o_message res) = Some calls.

(** [invokeAnthropic] and [invokeOllama] from a fresh worker state. *)
Definition runAnthropic {World} (host : Host World) (p : InvokePayload.t)
           (w : World) : Result bool * WState World :=
  invokeAnthropic host p (start w).

Definition runOllama {World} (host : Host World) (p : InvokePayload.t)
           (w : World) : Result bool * WState World :=
  invokeOllama host p (start w).

(** ** A scripted host, for examples *)

Definition notFound : Thrown := ErrorObj (lit "File not found: /no/such").

Definition boom : Thrown := ErrorObj (lit "boom").

Definition scripted (a : Result (Fetched AnthropicResult))
           (o : Result (Fetched OllamaResult)) : Host unit :=
  {| now := fun w => (0%N, w);
     ulid := fun w => (lit "01J", w);
     stringify := fun _ => lit "{}";
     stringifyBlocks := fun _ => lit "[]";
     parseJSON := fun _ => Ok (JObj [(lit "path", JStr (lit "/no/such"))]);
     toNumber := fun _ => None;
     stringOf := fun _ => lit "[object Object]";
     nullDeref := fun key => lit "Cannot read properties of undefined";
     fetchAnthropic := fun _ _ w => (a, w);
     fetchOllama := fun _ _ w => (o, w);
     executeShell := fun _ _ _ w => (Throw boom, w);
     readGroupFile := fun _ _ w => (Throw notFound, w);
     writeGroupFile := fun _ _ _ w => (Ok tt, w);
     listGroupFiles := fun _ _ w => (Ok [], w);
     httpFetch := fun _ _ _ _ w => (Throw boom, w);
     stripHtml := fun s => s;
     evalScript := fun _ w => (Throw boom, w) |}.

Definition badPath : JValue := JObj [(lit "path", JStr (lit "/no/such"))].

(** A reply that asks for [read_file] on a path that does not exist. *)
Definition askingReply : AnthropicResult :=
  {| usage := None;
     content := [BText (lit "Let me look."); BToolUse (lit "tu1") (lit "read_file") badPath];
     stop_reason := lit "tool_use" |}.

Definition askingChoice : OllamaResult :=
  {| o_usage := None;
     o_message := {| cm_role := lit "assistant"; cm_content := [];
                     cm_tool_calls := Some [{| tc_id := lit "c1";
                                               fn_name := lit "read_file";
                                               fn_arguments := [] |}];
                     cm_tool_call_id := None; cm_name := None |};
     finish_reason := lit "tool_calls" |}.

(** A final reply whose text is only internal reasoning. *)
Definition silentReply : AnthropicResult :=
  {| usage := None;
     content := [BText (lit " <internal>thinking</internal> ")];
     stop_reason := lit "end_turn" |}.

Definition silentChoice : OllamaResult :=
  {| o_usage := None;
     o_message := {| cm_role := lit "assistant";
                     cm_content := lit "<internal>thinking</internal>";
                     cm_tool_calls := None;
                     cm_tool_call_id := None; cm_name := None |};
     finish_reason := lit "stop" |}.

Definition askingHost : Host unit :=
  scripted (Ok (IsOk (Ok askingReply))) (Ok (IsOk (Ok askingChoice))).

Definition silentHost : Host unit :=
  scripted (Ok (IsOk (Ok silentReply))) (Ok (IsOk (Ok silentChoice))).

Definition failingHost : Host unit :=
  scripted (Ok (NotOk 500 (Ok (lit "overloaded"))))
           (Ok (NotOk 500 (Ok (lit "overloaded")))).

(** The input of the [javascript] tool for the script [({toJSON(){}})],
    whose value is an object that [JSON.stringify] has no text for. *)
Definition voidScript : JValue :=
  JObj [(lit "code", JStr (lit "({toJSON(){}})"))].

(** The input for the script [throw {toString(){throw this}}], which throws
    a value whose conversion to a string throws the value again. *)
Definition rethrowScript : JValue :=
  JObj [(lit "code", JStr (lit "throw {toString(){throw this}}"))].

Definition quoted (s : string) : jsstring := [34%N] ++ lit s ++ [34%N].

(** The same inputs as the text of [tc.function.arguments]. *)
Definition voidArguments : jsstring :=
  lit "{" ++ quoted "code" ++ lit ":" ++ quoted "({toJSON(){}})" ++ lit "}".

Definition rethrowArguments : jsstring :=
  lit "{" ++ quoted "code" ++ lit ":" ++ quoted "throw {toString(){throw this}}"
  ++ lit "}".

(** A backend that asks for the [javascript] tool on [input] in every
    reply, [arguments] being the text [input] is parsed from, and an engine
    that evaluates the script to [ev]. *)
Definition scriptAsking (input : JValue) (arguments : jsstring)
           (ev : Result EvalValue) : Host unit :=
  {| now := fun w => (0%N, w);
     ulid := fun w => (lit "01J", w);
     stringify := fun _ => lit "{}";
     stringifyBlocks := fun _ => lit "[]";
     parseJSON := fun _ => Ok input;
     toNumber := fun _ => None;
     stringOf := fun _ => lit "[object Object]";
     nullDeref := fun key => lit "Cannot read properties of undefined";
     fetchAnthropic := fun _ _ w =>
       (Ok (IsOk (Ok {| usage := None;
                        content := [BToolUse (lit "tu1") (lit "javascript") input];
                        stop_reason := lit "tool_use" |})), w);
     fetchOllama := fun _ _ w =>
       (Ok (IsOk (Ok {| o_usage := None;
                        o_message :=
                          {| cm_role := lit "assistant"; cm_content := [];
                             cm_tool_calls := Some [{| tc_id := lit "c1";
                                                       fn_name := lit "javascript";
                                                       fn_arguments := arguments |}];
                             cm_tool_call_id := None; cm_name := None |};
                        finish_reason := lit "tool_calls" |})), w);
     executeShell := fun _ _ _ w => (Throw boom, w);
     readGroupFile := fun _ _ w => (Throw notFound, w);
     writeGroupFile := fun _ _ _ w => (Ok tt, w);
     listGroupFiles := fun _ _ w => (Ok [], w);
     httpFetch := fun _ _ _ _ w => (Throw boom, w);
     stripHtml := fun s => s;
     evalScript := fun _ w => (ev, w) |}.

Definition voidHost : Host unit :=
  scriptAsking voidScript voidArguments
               (Ok (EvObject (Ok None) (Ok (lit "[object Object]")))).

Definition rethrowHost : Host unit :=
  scriptAsking rethrowScript rethrowArguments (Throw (Unprintable None)).

(** Running the tools of a reply of the backend does not throw. *)
Definition anthropicToolsReturn {World} (host : Host World) (g : jsstring)
  : Prop :=
  forall key body w res w' st,
    fetchAnthropic host key body w = (Ok (IsOk (Ok res)), w') ->
    exists results, fst (forEach (runToolUse host g) (content res) st) = Ok results.

Definition ollamaToolsReturn {World} (host : Host World) (g : jsstring)
  : Prop :=
  forall url body w res w' calls st,
    fetchOllama host url body w = (Ok (IsOk (Ok res)), w') ->
    cm_tool_calls (o_message res) = Some calls ->
    exists results, fst (forEach (runToolCall host g) calls st) = Ok results.

Definition samplePayload (pr : Provider) : InvokePayload.t :=
  InvokePayload.mk (lit "br:main")
                   [ConversationMessage.mk user (CString (lit "hello"))]
                   (lit "You are Andy.") pr (lit "sk-test")
                   (lit "http://localhost:11434") (lit "claude-sonnet-4-6") 8096.

End Observe.

(* ===================================================================== *)
(** * Observations on a run of the coordinator *)
(* ===================================================================== *)

Module Flight.

Import Orchestrator.

(** The suspended call is [processQueue]'s own call of [invokeAgent], or
    [processQueue] itself waiting to go on after it. *)
Definition queueOwned (k : Cont) : bool :=
  match k with
  | InvokeSave FromQueue _ _ | InvokeMemory FromQueue _
  | InvokeBuild FromQueue _ _ | QueueAwait _ => true
  | _ => false
  end.

(** How many calls of [invokeAgent] made by [processQueue] are under way. *)
Definition queueCalls (s : Sys) : nat :=
  List.length (filter queueOwned (pending s)).

(** The messages taken from the queue, in the order they were taken, and
    those among them for which [invokeAgent] was called. *)
Definition taken (s : Sys) : list InboundMessage.t :=
  map fst (shifted (history s)).

Definition invoked (s : Sys) : list InboundMessage.t :=
  map fst (filter snd (shifted (history s))).

(** Invocations in flight at the worker: [invoke] envelopes the queue path
    has posted, less the completions received since. *)
Definition awaitingWorker (s : Sys) : nat :=
  List.length (queueDispatches (history s))
  - List.length (filter Observe.isCompletion (handled (history s))).

(** Position of [processQueue]'s suspended call among the pending ones. *)
Fixpoint ownedIndex (l : list Cont) : option nat :=
  match l with
  | [] => None
  | k :: r => if queueOwned k then Some 0 else option_map S (ownedIndex r)
  end.

Section Runs.

Variable toUpperCase : N -> jsstring.
Variable ulid : N -> jsstring.

(** No new input arrives; the call [processQueue] waits for goes on, each
    [await] ending as [oracle] says, until the flag is down. *)
Fixpoint drain (oracle : nat -> Outcome) (fuel : nat) (s : Sys) : Sys :=
  match fuel with
  | O => s
  | S fuel' =>
      if processing (this s) then
        match ownedIndex (pending s) with
        | Some i => drain oracle fuel' (step toUpperCase ulid s (Resume i (oracle fuel')))
        | None => s
        end
      else s
  end.

(** The inbound messages of a run that pass the trigger check, in order. *)
Fixpoint arrivals (s : Sys) (inputs : list Input) : list InboundMessage.t :=
  match inputs with
  | [] => []
  | i :: rest =>
      match i with
      | Inbound msg =>
          if isTriggered toUpperCase (triggerPattern (this s)) msg
          then [msg] else []
      | _ => []
      end ++ arrivals (step toUpperCase ulid s i) rest
  end.

End Runs.

(** ** A configured coordinator, for examples *)

Definition andyPattern : RegExp.regexp :=
  {| RegExp.terms := [RegExp.TAlt RegExp.TStart RegExp.TSpace; RegExp.TChar 64;
                      RegExp.TChar 65; RegExp.TChar 110; RegExp.TChar 100;
                      RegExp.TChar 121; RegExp.TBoundary];
     RegExp.ignoreCase := true |}.

Definition sampleFields (key : jsstring) : Fields :=
  {| state := idle; triggerPattern := andyPattern;
     assistantName := Config.ASSISTANT_NAME; provider := anthropic;
     ollamaUrl := lit "http://localhost:11434"; apiKey := key;
     model := Config.DEFAULT_MODEL; maxTokens := Config.DEFAULT_MAX_TOKENS;
     messageQueue := []; processing := false; pendingScheduledTasks := [] |}.

Definition sampleUlid (n : N) : jsstring := lit "01J" ++ ofN n.

Definition browserMessage (id content : string) : InboundMessage.t :=
  InboundMessage.mk (lit id) Config.DEFAULT_GROUP_ID (lit "You") (lit content) 0 browser.

Definition resolved : Outcome := Resolved [].

(** A state in which the coordinator waits for the worker. *)
Definition thinkingSys : Sys :=
  updThis (withState thinking) (initial (sampleFields (lit "sk-test")) []).

Definition storeFails : Faults :=
  {| saveMessageFault := Some (ErrorObj (lit "QuotaExceededError"));
     routerSendFault := None; clearFault := None; saveTaskFault := None;
     buildFault := None; memoryFile := Ok [] |}.

End Flight.

(* ===================================================================== *)
(** * Sample runs of the coordinator *)
(* ===================================================================== *)

Module Samples.

Import Orchestrator Flight.

(** Two messages of the browser chat, each taken through [enqueue],
    [processQueue] and [invokeAgent] to the end; the worker answers
    neither. *)
Definition backToBack : list Input :=
  [ Inbound (browserMessage "a" "first"); Resume 0 resolved; Resume 0 resolved;
    Resume 0 resolved; Resume 0 resolved;
    Inbound (browserMessage "b" "second"); Resume 0 resolved; Resume 0 resolved;
    Resume 0 resolved; Resume 0 resolved ].

(** Three messages arrive before the first is saved; the second one's
    [enqueue] is the first to go on. *)
Definition burst : list Input :=
  [ Inbound (browserMessage "a" "first"); Inbound (browserMessage "b" "second");
    Inbound (browserMessage "c" "third"); Resume 1 resolved; Resume 0 resolved;
    Resume 0 resolved; Resume 0 resolved; Resume 0 resolved; Resume 0 resolved;
    Resume 0 resolved; Resume 0 resolved ].

Definition configured : Sys := initial (sampleFields (lit "sk-test")) [].

(** No API key, one message waiting. *)
Definition unconfigured : Sys :=
  updThis (withQueue [browserMessage "a" "first"]) (initial (sampleFields []) []).

Definition rejecting (n : nat) : Outcome := Rejected Observe.boom.

Definition stored (id : string) (g : string) (text : string) (t : N)
  : StoredMessage.t :=
  StoredMessage.mk (InboundMessage.mk (lit id) (lit g) (lit "You") (lit text) t browser)
                   false true.

(** A store with three messages of the browser chat and one of a remote
    chat. *)
Definition history4 : Db.Store :=
  [ stored "1" "br:main" "hello" 1; stored "2" "tg:7" "hi there" 2;
    stored "3" "br:main" "and then" 3; stored "4" "br:main" "more" 4 ].

Definition withHistory : Sys :=
  updThis (withState thinking) (initial (sampleFields (lit "sk-test")) history4).

Definition backendError : jsstring := lit "Anthropic API error 500: overloaded".

End Samples.

(* ===================================================================== *)
(** * Vocabulary of the statements *)
(* ===================================================================== *)

Unset Implicit Arguments.

Module WorkerSpec.

Import Worker Observe.

Section Specs.

Context {World : Type}.
Variable host : Host World.

(** Envelopes that are no completions. *)
Definition calm (l : list WorkerOutbound) : Prop :=
  Forall (fun x => isCompletion x = false) l.

(** A computation that posts no completion and makes no round trip. *)
Definition quiet {A} (m : W World A) : Prop :=
  forall st, exists extra,
    outbox (snd (m st)) = outbox st ++ extra
    /\ calm extra
    /\ backendLog (snd (m st)) = backendLog st.

(** A computation that does not throw. *)
Definition total {A} (m : W World A) : Prop :=
  forall st, exists a, fst (m st) = Ok a.

(** The trip is what some call of the backend gave. *)
Definition fromAnthropic (t : Trip) : Prop :=
  exists key body w, t = tripOfAnthropic (fst (fetchAnthropic host key body w)).

Definition fromOllama (t : Trip) : Prop :=
  exists url body w, t = tripOfOllama (fst (fetchOllama host url body w)).

(** Running the tools that the reply of the trip asks for threw [e]. *)
Definition anthropicAbort (g : jsstring) (t : Trip) (e : Thrown) : Prop :=
  exists res st,
    t = TripAnthropic res
    /\ fst (forEach (runToolUse host g) (content res) st) = Throw e.

Definition ollamaAbort (g : jsstring) (t : Trip) (e : Thrown) : Prop :=
  exists res calls st,
    t = TripOllama res
    /\ cm_tool_calls (o_message res) = Some calls
    /\ fst (forEach (runToolCall host g) calls st) = Throw e.

(** What one pass through the body of the loop does. It throws when the
    round trip failed, or when the reply asked for tools and running them
    threw ([abort]). *)
Definition roundSpec {M} (origin : Trip -> Prop) (backend : string)
           (abort : Trip -> Thrown -> Prop)
           (g : jsstring) (st : WState World)
           (r : Result (Round M) * WState World) : Prop :=
  exists t extra,
    origin t /\ backendLog (snd r) = backendLog st ++ [t] /\ calm extra
    /\ match fst r with
       | Ok (Continue _) => asking t = true /\ outbox (snd r) = outbox st ++ extra
       | Ok Return =>
           asking t = false
           /\ exists raw, replyText t = Some raw
                /\ outbox (snd r) = outbox st ++ extra ++ [Response g (finalText raw)]
       | Throw e =>
           (raisedBy backend t = Some e \/ (asking t = true /\ abort t e))
           /\ outbox (snd r) = outbox st ++ extra
       end.

(** What the loop does with a budget of [budget] round trips left. *)
Definition loopSpec (origin : Trip -> Prop) (backend : string)
           (abort : Trip -> Thrown -> Prop)
           (limitText g : jsstring) (budget : nat) (st : WState World)
           (r : Result bool * WState World) : Prop :=
  exists trips extra,
    Forall origin trips
    /\ backendLog (snd r) = backendLog st ++ trips
    /\ calm extra
    /\ List.length trips <= budget
    /\ match fst r with
       | Ok b =>
           b = true
           /\ exists text,
               outbox (snd r) = outbox st ++ extra ++ [Response g text]
               /\ ((List.length trips = budget
                    /\ Forall (fun t => asking t = true) trips
                    /\ text = limitText)
                   \/ (exists before t raw,
                          trips = before ++ [t]
                          /\ Forall (fun t => asking t = true) before
                          /\ asking t = false
                          /\ replyText t = Some raw
                          /\ text = finalText raw))
       | Throw e =>
           outbox (snd r) = outbox st ++ extra
           /\ exists before t,
               trips = before ++ [t]
               /\ Forall (fun t => asking t = true) before
               /\ (raisedBy backend t = Some e \/ (asking t = true /\ abort t e))
       end.

(** What an invocation leaves behind: it made at most [maxIterations]
    round trips, and it went one of three ways. After a full budget of
    asking replies it returns and its outbox ends with its only completion,
    the limit message. After the first reply that does not ask it returns
    and the completion is the cleaned text of that reply. When the last
    round threw, because the round trip failed or because running the tools
    of the reply threw, the completion is the error envelope with the
    rendering of the caught value; when that rendering throws, the
    invocation throws and has posted no completion. *)
Definition invocationSpec (origin : Trip -> Prop) (backend : string)
           (abort : Trip -> Thrown -> Prop)
           (limitText g : jsstring) (r : Result bool * WState World) : Prop :=
  Forall origin (backendLog (snd r))
  /\ roundTrips (snd r) <= maxIterations
  /\ ((fst r = Ok true
       /\ roundTrips (snd r) = maxIterations
       /\ Forall (fun t => asking t = true) (backendLog (snd r))
       /\ endsWith (snd r) (Response g limitText))
      \/ (fst r = Ok true
          /\ exists before t raw,
             backendLog (snd r) = before ++ [t]
             /\ Forall (fun t => asking t = true) before
             /\ asking t = false
             /\ replyText t = Some raw
             /\ endsWith (snd r) (Response g (finalText raw)))
      \/ (exists before t e,
             backendLog (snd r) = before ++ [t]
             /\ Forall (fun t => asking t = true) before
             /\ (raisedBy backend t = Some e \/ (asking t = true /\ abort t e))
             /\ match errText e with
                | Ok message =>
                    fst r = Ok true /\ endsWith (snd r) (Error g message)
                | Throw e' =>
                    fst r = Throw e' /\ calm (outbox (snd r))
                end)).

(** The worker state after a call of the host that ended in world [w]. *)
Definition inWorld (st : WState World) (w : World) : WState World :=
  {| world := w; outbox := outbox st; backendLog := backendLog st |}.

End Specs.

End WorkerSpec.

Module QueueSpec.

Import Orchestrator Flight.

(** The part of the state the queue discipline is about. *)
Definition core (s : Sys) :=
  (messageQueue (this s), processing (this s), pending s,
   pushed (history s), shifted (history s)).

(** The flag is up exactly while one call of [invokeAgent] made by
    [processQueue] is under way, and the messages taken from the queue
    followed by those still in it are the messages pushed, in order. *)
Definition Inv (s : Sys) : Prop :=
  queueCalls s = (if processing (this s) then 1 else 0)
  /\ taken s ++ messageQueue (this s) = pushed (history s).

(** A handler that leaves the queue, the flag and the suspended calls as
    they are. *)
Definition keeps {A} (m : Handler A) : Prop :=
  forall s, core (snd (m s)) = core s.

(** Steps left before [processQueue]'s call hands the flag back. *)
Definition phase (k : Cont) : nat :=
  match k with
  | InvokeSave FromQueue _ _ => 4
  | InvokeMemory FromQueue _ => 3
  | InvokeBuild FromQueue _ _ => 2
  | QueueAwait _ => 1
  | _ => 0
  end.

Definition phases (l : list Cont) : nat := list_sum (map phase l).

(** A bound on the resumptions needed to drain the queue. *)
Definition load (s : Sys) : nat :=
  if processing (this s)
  then 4 * List.length (messageQueue (this s)) + phases (pending s)
  else 0.

(** The stored message the coordinator writes for an assistant text. *)
Definition assistantMessage (ulid : N -> jsstring) (s : Sys) (g text : jsstring)
  : StoredMessage.t :=
  StoredMessage.mk
    (InboundMessage.mk (ulid (nextId s)) g (assistantName (this s)) text
                       (clock s) (channelOf g))
    true false.

End QueueSpec.

(* ===================================================================== *)
(** * agent-worker.ts: compaction and the dispatcher *)
(* ===================================================================== *)

Module Compaction.

Import Worker.

(** The reply of the chat-completion server to a compaction request, as
    [compactOllama] reads it: [result.choices[0]?.message?.content]. *)
Record SummaryMessage : Type := { sm_content : option jsstring }.

Record SummaryChoice : Type := { sc_message : option SummaryMessage }.

Record OllamaSummary : Type := { os_choices : option (list SummaryChoice) }.

(** The two requests of a compaction; they carry no tool definitions. *)
Record SummaryHost (World : Type) : Type := {
  fetchAnthropicSummary : jsstring -> AnthropicBody -> World
                          -> Result (Fetched AnthropicResult) * World;
  fetchOllamaSummary : jsstring -> OllamaBody -> World
                       -> Result (Fetched OllamaSummary) * World
}.
Arguments fetchAnthropicSummary {World} _ _ _ _.
Arguments fetchOllamaSummary {World} _ _ _ _.

Section Compact.

Context {World : Type}.
Variable host : Host World.
Variable net : SummaryHost World.

Local Open Scope worker_scope.

Definition summarizing (messages : list ConversationMessage.t) : jsstring :=
  lit "Summarizing " ++ ofNat (List.length messages) ++ lit " messages".

Definition summaryLength (summary : jsstring) : jsstring :=
  lit "Summary: " ++ ofN (len summary) ++ lit " chars".

Definition compactionFailed (message : jsstring) : jsstring :=
  lit "Compaction failed: " ++ message.

Definition ollamaCompactPrompt (systemPrompt : jsstring) : jsstring :=
  join nl [ systemPrompt;
            [];
            lit "## COMPACTION TASK";
            lit "Produce a concise summary of the conversation so far.";
            lit "The summary will replace the full conversation history to stay within token limits." ].

Definition ollamaSummaryRequest : jsstring :=
  lit "Please provide a concise summary of our entire conversation so far. Include all key facts, decisions, code discussed, and important context.".

Definition plainChat (role content : jsstring) : ChatMessage :=
  {| cm_role := role; cm_content := content; cm_tool_calls := None;
     cm_tool_call_id := None; cm_name := None |}.

(** The body of the request of [compactOllama]. *)
Definition ollamaCompactBody (p : InvokePayload.t) : OllamaBody :=
  {| ob_model := InvokePayload.model p;
     ob_messages :=
       [plainChat (lit "system") (ollamaCompactPrompt (InvokePayload.systemPrompt p))]
       ++ map (toChat host) (InvokePayload.messages p)
       ++ [plainChat (lit "user") ollamaSummaryRequest];
     ob_max_tokens := N.min (InvokePayload.maxTokens p) 4096 |}.

(** [result.choices[0]?.message?.content || '']; reading [choices[0]] of a
    reply without [choices] throws. *)
Definition summaryOf (result : OllamaSummary) : W World jsstring :=
  match os_choices result with
  | None => throw (typeError host "0")
  | Some [] => ret []
  | Some (choice :: _) =>
      ret (match sc_message choice with
           | Some message =>
               match sm_content message with
               | Some content => orElse content []
               | None => []
               end
           | None => []
           end)
  end.

Definition compactOllama (p : InvokePayload.t) : W World unit :=
  let groupId := InvokePayload.groupId p in
  post (Typing groupId) ;;
  log host groupId KInfo (lit "Compacting context")
      (summarizing (InvokePayload.messages p)) ;;
  tryCatch
    (res <- call (fetchOllamaSummary net
                    (InvokePayload.ollamaUrl p ++ lit "/v1/chat/completions")
                    (ollamaCompactBody p)) ;;
     result <- match res with
               | NotOk _ text =>
                   errBody <- await text ;;
                   throw (ErrorObj (lit "Ollama API error: " ++ errBody))
               | IsOk json => await json
               end ;;
     summary <- summaryOf result ;;
     log host groupId KInfo (lit "Compaction complete") (summaryLength summary) ;;
     post (CompactDone groupId summary))
    (fun err =>
       message <- await (errText err) ;;
       post (Error groupId (compactionFailed message))).

Definition anthropicCompactPrompt (systemPrompt : jsstring) : jsstring :=
  join nl [ systemPrompt;
            [];
            lit "## COMPACTION TASK";
            [];
            lit "The conversation context is getting large. Produce a concise summary of the conversation so far.";
            lit "Include key facts, decisions, user preferences, and any important context.";
            lit "The summary will replace the full conversation history to stay within token limits.";
            lit "Be thorough but concise " ++ Orchestrator.emDash
              ++ lit " aim for the essential information only." ].

Definition anthropicSummaryRequest : jsstring :=
  lit "Please provide a concise summary of our entire conversation so far. Include all key facts, decisions, code discussed, and important context. This summary will replace the full history.".

(** The body of the request of [compactAnthropic]. *)
Definition anthropicCompactBody (p : InvokePayload.t) : AnthropicBody :=
  {| ab_model := InvokePayload.model p;
     ab_max_tokens := N.min (InvokePayload.maxTokens p) 4096;
     ab_system := anthropicCompactPrompt (InvokePayload.systemPrompt p);
     ab_messages :=
       InvokePayload.messages p
       ++ [ConversationMessage.mk user (CString anthropicSummaryRequest)] |}.

Definition compactAnthropic (p : InvokePayload.t) : W World unit :=
  let groupId := InvokePayload.groupId p in
  post (Typing groupId) ;;
  log host groupId KInfo (lit "Compacting context")
      (summarizing (InvokePayload.messages p)) ;;
  tryCatch
    (res <- call (fetchAnthropicSummary net (InvokePayload.apiKey p)
                    (anthropicCompactBody p)) ;;
     result <- match res with
               | NotOk status text =>
                   errBody <- await text ;;
                   throw (ErrorObj (lit "Anthropic API error " ++ ofN status
                                    ++ lit ": " ++ errBody))
               | IsOk json => await json
               end ;;
     let summary := joinText (content result) in
     log host groupId KInfo (lit "Compaction complete") (summaryLength summary) ;;
     post (CompactDone groupId summary))
    (fun err =>
       message <- await (errText err) ;;
       post (Error groupId (compactionFailed message))).

Definition handleCompact (p : InvokePayload.t) : W World unit :=
  match InvokePayload.provider p with
  | ollama => compactOllama p
  | anthropic => compactAnthropic p
  end.

(** [self.onmessage]: the dispatcher of the worker. *)
Definition onmessage (m : WorkerInbound) : W World unit :=
  match m with
  | Invoke payload => handleInvoke host payload ;; ret tt
  | Compact payload => handleCompact payload
  | Cancel _ => ret tt
  end.

End Compact.

(** A scripted backend for compactions, for examples. *)
Definition scriptedSummary (a : Result (Fetched AnthropicResult))
           (o : Result (Fetched OllamaSummary)) : SummaryHost unit :=
  {| fetchAnthropicSummary := fun _ _ w => (a, w);
     fetchOllamaSummary := fun _ _ w => (o, w) |}.

Definition summaryReply : AnthropicResult :=
  {| usage := None; content := [BText (lit "We said hello.")];
     stop_reason := lit "end_turn" |}.

Definition overloaded : SummaryHost unit :=
  scriptedSummary (Ok (NotOk 529 (Ok (lit "overloaded"))))
                  (Ok (NotOk 503 (Ok (lit "loading model")))).

(** A host whose shell runs every command without output. *)
Definition quietShell : Host unit :=
  {| now := fun w => (0%N, w);
     ulid := fun w => (lit "01J", w);
     stringify := fun _ => lit "{}";
     stringifyBlocks := fun _ => lit "[]";
     parseJSON := fun _ => Ok (JObj []);
     toNumber := fun _ => None;
     stringOf := fun _ => lit "[object Object]";
     nullDeref := fun key => lit "Cannot read properties of undefined";
     fetchAnthropic := fun _ _ w => (Throw Observe.boom, w);
     fetchOllama := fun _ _ w => (Throw Observe.boom, w);
     executeShell := fun _ _ _ w =>
                       (Ok {| stdout := []; stderr := []; exitCode := 0 |}, w);
     readGroupFile := fun _ _ w => (Ok [], w);
     writeGroupFile := fun _ _ _ w => (Ok tt, w);
     listGroupFiles := fun _ _ w => (Ok [], w);
     httpFetch := fun _ _ _ _ w =>
                    (Ok {| h_status := 404; h_text := Ok (lit "<p>Not found</p>");
                           h_contentType := lit "text/html" |}, w);
     stripHtml := fun s => lit "Not found";
     evalScript := fun _ w => (Ok EvUndefined, w) |}.

Definition summarizer : SummaryHost unit :=
  scriptedSummary (Ok (IsOk (Ok summaryReply)))
                  (Ok (IsOk (Ok {| os_choices := Some [] |}))).

End Compaction.

(* ===================================================================== *)
(** * Observations on the outbox of the worker *)
(* ===================================================================== *)

Module Envelopes.

Import Worker.

(** The conversation an envelope belongs to. *)
Definition groupOf (m : WorkerOutbound) : jsstring :=
  match m with
  | Response g _ | Error g _ | Typing g | ToolActivity g _ _ | CompactDone g _ => g
  | ThinkingLog entry => ThinkingLogEntry.groupId entry
  | TokenUsageMsg usage => TokenUsage.groupId usage
  | TaskCreated task => Task.groupId task
  end.

Definition isToolActivity (m : WorkerOutbound) : bool :=
  match m with ToolActivity _ _ _ => true | _ => false end.

(** The tool-activity envelopes among [l], in order. *)
Definition activity (l : list WorkerOutbound) : list WorkerOutbound :=
  filter isToolActivity l.

(** The two envelopes around the run of a tool. *)
Definition around (g name : jsstring) : list WorkerOutbound :=
  [ToolActivity g name running; ToolActivity g name done].

(** An envelope of the conversation [g] that is no tool activity. *)
Definition plain (g : jsstring) (m : WorkerOutbound) : Prop :=
  isToolActivity m = false /\ groupOf m = g.

(** Whatever the state, the computation appends to the outbox envelopes
    that satisfy [Q], and leaves what was there. *)
Definition emits {World A} (Q : list WorkerOutbound -> Prop) (m : W World A)
  : Prop :=
  forall st, exists extra, outbox (snd (m st)) = outbox st ++ extra /\ Q extra.

(** The tool-activity envelopes among [l] are the pairs of the tools
    [names], one pair after the other. *)
Definition paired (g : jsstring) (names : list jsstring)
           (l : list WorkerOutbound) : Prop :=
  activity l = flat_map (around g) names.

(** Likewise, with one more tool shown as running at the end. *)
Definition leftRunning (g : jsstring) (names : list jsstring)
           (l : list WorkerOutbound) : Prop :=
  exists name,
    activity l = flat_map (around g) names ++ [ToolActivity g name running].

(** The computation posts its tool activity in pairs; when it throws, the
    last tool may be left running. *)
Definition pairing {World A} (g : jsstring) (m : W World A) : Prop :=
  forall st, exists extra names,
    outbox (snd (m st)) = outbox st ++ extra
    /\ match fst (m st) with
       | Ok _ => paired g names extra
       | Throw _ => paired g names extra \/ leftRunning g names extra
       end.

(** The identifiers of the tool-use blocks of a reply, in order. *)
Definition toolUseIds (blocks : list ContentBlock) : list jsstring :=
  flat_map (fun b => match b with BToolUse id _ _ => [id] | _ => [] end) blocks.

(** [r] is a tool result for the request [id], of at most 100000 code
    units. *)
Definition answersUse (id : jsstring) (r : ContentBlock) : Prop :=
  exists out, r = BToolResult id out /\ (len out <= 100000)%N.

(** [m] is the tool message for the call [tc]. *)
Definition answersCall (tc : ToolCall) (m : ChatMessage) : Prop :=
  cm_role m = lit "tool" /\ cm_tool_call_id m = Some (tc_id tc)
  /\ cm_name m = Some (fn_name tc) /\ (len (cm_content m) <= 100000)%N
  /\ cm_tool_calls m = None.

(** The names [executeTool] has a case for. *)
Definition toolNames : list jsstring :=
  [ lit "bash"; lit "read_file"; lit "write_file"; lit "list_files";
    lit "fetch_url"; lit "update_memory"; lit "create_task"; lit "javascript" ].

(** What a compaction leaves in the outbox. *)
Definition compactionDone (g : jsstring) (n : nat) (l : list WorkerOutbound)
  : Prop :=
  exists t1,
    (exists t2 summary,
        l = [ Typing g;
              ThinkingLog (ThinkingLogEntry.mk g KInfo t1 (lit "Compacting context")
                             (lit "Summarizing " ++ ofNat n ++ lit " messages"));
              ThinkingLog (ThinkingLogEntry.mk g KInfo t2 (lit "Compaction complete")
                             (Compaction.summaryLength summary));
              CompactDone g summary ])
    \/ (exists message,
           l = [ Typing g;
                 ThinkingLog (ThinkingLogEntry.mk g KInfo t1 (lit "Compacting context")
                                (lit "Summarizing " ++ ofNat n ++ lit " messages"));
                 Error g (Compaction.compactionFailed message) ]).

(** What a compaction leaves in the outbox when the rendering of the caught
    value throws: no completion. *)
Definition compactionLeft (g : jsstring) (n : nat) (l : list WorkerOutbound)
  : Prop :=
  exists t1,
    l = [ Typing g;
          ThinkingLog (ThinkingLogEntry.mk g KInfo t1 (lit "Compacting context")
                         (lit "Summarizing " ++ ofNat n ++ lit " messages")) ].

(** The tasks of the [task-created] envelopes among [l], in order. *)
Definition createdTasks (l : list WorkerOutbound) : list Task.t :=
  flat_map (fun m => match m with TaskCreated task => [task] | _ => [] end) l.

(** [a] is the beginning of [b]. *)
Definition prefixOf (a b : jsstring) : Prop := exists rest, b = a ++ rest.

End Envelopes.

(* ===================================================================== *)
(** * orchestrator.ts: the event bus *)
(* ===================================================================== *)

Module EventBus.

Section Bus.

(** Callbacks are function objects; [same] is their identity. *)
Variable Callback : Type.
Variable same : Callback -> Callback -> bool.

(** [Map<string, Set<EventCallback>>]: keys in the order they were first
    set, callbacks in the order they were first added. *)
Definition Listeners : Type := list (jsstring * list Callback).

(** [listeners.get(event)] *)
Fixpoint get (event : jsstring) (listeners : Listeners) : option (list Callback) :=
  match listeners with
  | [] => None
  | (k, v) :: rest => if JS.eqb k event then Some v else get event rest
  end.

(** [listeners.set(event, v)] *)
Fixpoint set (event : jsstring) (v : list Callback) (listeners : Listeners)
  : Listeners :=
  match listeners with
  | [] => [(event, v)]
  | (k, old) :: rest =>
      if JS.eqb k event then (k, v) :: rest else (k, old) :: set event v rest
  end.

(** [callbacks.add(callback)] and [callbacks.delete(callback)] *)
Definition add (callback : Callback) (callbacks : list Callback) : list Callback :=
  if existsb (same callback) callbacks then callbacks else callbacks ++ [callback].

Definition delete (callback : Callback) (callbacks : list Callback)
  : list Callback :=
  filter (fun x => negb (same callback x)) callbacks.

(** [on(event, callback)] *)
Definition on (event : jsstring) (callback : Callback) (listeners : Listeners)
  : Listeners :=
  let listeners :=
    match get event listeners with
    | Some _ => listeners
    | None => set event [] listeners
    end in
  match get event listeners with
  | Some callbacks => set event (add callback callbacks) listeners
  | None => listeners
  end.

(** [off(event, callback)] *)
Definition off (event : jsstring) (callback : Callback) (listeners : Listeners)
  : Listeners :=
  match get event listeners with
  | Some callbacks => set event (delete callback callbacks) listeners
  | None => listeners
  end.

(** [emit(event, data)]: the callbacks called with [data], in order. *)
Definition emit (event : jsstring) (listeners : Listeners) : list Callback :=
  match get event listeners with
  | Some callbacks => callbacks
  | None => []
  end.

End Bus.

Arguments get {Callback} event listeners.
Arguments set {Callback} event v listeners.
Arguments add {Callback} same callback callbacks.
Arguments delete {Callback} same callback callbacks.
Arguments on {Callback} same event callback listeners.
Arguments off {Callback} same event callback listeners.
Arguments emit {Callback} event listeners.

End EventBus.

(* ===================================================================== *)
(** * ui/chat.ts and components/settings/SettingsPage.tsx *)
(* ===================================================================== *)

Module ChatUI.

(** [s.replace(/c/g, by)] for a pattern of one literal character. *)
Definition replaceAll (c : N) (by_ : jsstring) (s : jsstring) : jsstring :=
  flat_map (fun x => if (x =? c)%N then by_ else [x]) s.

(** [escapeHtmlText(s)] *)
Definition escapeHtmlText (s : jsstring) : jsstring :=
  replaceAll 62 (lit "&gt;")
    (replaceAll 60 (lit "&lt;")
       (replaceAll 38 (lit "&amp;") s)).

End ChatUI.

Module Settings.

(** [s.split(sep)] for a separator of one character. *)
Fixpoint split (sep : N) (s : jsstring) : list jsstring :=
  match s with
  | [] => [[]]
  | c :: r =>
      if (c =? sep)%N then [] :: split sep r
      else match split sep r with
           | piece :: pieces => (c :: piece) :: pieces
           | [] => [[c]]
           end
  end.

(** The identifiers [handleTelegramSave] passes on:
    [telegramChatIds.split(',').map((s) => s.trim()).filter(Boolean)]. *)
Definition parseChatIds (telegramChatIds : jsstring) : list jsstring :=
  filter Worker.nonEmpty (map trim (split 44 telegramChatIds)).

(** The text the page shows for stored identifiers:
    [JSON.parse(chatIds).join(', ')]. *)
Definition showChatIds (chatIds : list jsstring) : jsstring :=
  join (lit ", ") chatIds.

(** An identifier as [parseChatIds] yields them. *)
Definition wellFormed (id : jsstring) : Prop :=
  id <> [] /\ trim id = id /\ ~ In 44%N id.

End Settings.

(* ===================================================================== *)
(** * Properties of strings and of the trigger pattern *)
(* ===================================================================== *)

Lemma str_eqb_eq (a b : jsstring) : JS.eqb a b = true <-> a = b.
Proof.
  unfold JS.eqb. destruct (list_eq_dec N.eq_dec a b); split; congruence.
Qed.

Lemma str_eqb_refl (a : jsstring) : JS.eqb a a = true.
Proof. apply str_eqb_eq. reflexivity. Qed.

Lemma str_eqb_neq (a b : jsstring) : JS.eqb a b = false <-> a <> b.
Proof.
  unfold JS.eqb. destruct (list_eq_dec N.eq_dec a b); split; congruence.
Qed.

Section TriggerPattern.

Import RegExp Config Mention.

Variable up : N -> jsstring.

Local Notation sameLetter := (sameLetter up).
Local Notation Mentions := (Mentions up).
Lemma lastOr_cons prev c m : lastOr prev (c :: m) = lastOr (Some c) m.
Proof.
  unfold lastOr. simpl. destruct (rev m) eqn:E; simpl; reflexivity.
Qed.

Lemma lastOr_snoc prev m c : lastOr prev (m ++ [c]) = Some c.
Proof. unfold lastOr. rewrite rev_app_distr. reflexivity. Qed.

Lemma parseLiteral_escape name :
  parseLiteral (escapeName name) = Some (map TChar name).
Proof.
  induction name as [|c r IH]; simpl; [reflexivity|].
  destruct (isSyntaxChar c) eqn:E.
  - cbn [parseLiteral]. rewrite N.eqb_refl, E, IH. reflexivity.
  - cbn [parseLiteral]. destruct (c =? backslash)%N eqn:B.
    + apply N.eqb_eq in B. subst c. discriminate E.
    + rewrite E, IH. reflexivity.
Qed.

Lemma matchSeq_chars name ts prev s :
  matchSeq up true (map TChar name ++ ts) (prev, s) = true <->
  exists m rest, s = m ++ rest /\ Forall2 (fun a b => sameLetter a b = true) m name
                 /\ matchSeq up true ts (lastOr prev m, rest) = true.
Proof.
  revert prev s. induction name as [|x name IH]; intros prev s.
  - simpl. split.
    + intro H. exists [], s. repeat split; auto.
    + intros (m & rest & -> & F & H). inversion F; subst. exact H.
  - cbn [map app matchSeq matchTerm snd]. destruct s as [|c r].
    + simpl. split; [discriminate|].
      intros (m & rest & E & F & _). inversion F; subst. discriminate E.
    + fold (sameLetter c x). destruct (sameLetter c x) eqn:SL.
      * cbn [existsb]. rewrite orb_false_r, IH. split.
        -- intros (m & rest & -> & F & H). exists (c :: m), rest.
           rewrite lastOr_cons. repeat split; auto.
        -- intros (m & rest & E & F & H). inversion F; subst.
           injection E as <- ->. rewrite lastOr_cons in H. eauto.
      * simpl. split; [discriminate|].
        intros (m & rest & E & F & _). inversion F; subst.
        injection E as <- ->. congruence.
Qed.

Lemma canon_at c : sameLetter c 64 = true <-> c = 64%N.
Proof.
  unfold sameLetter, canonicalize. cbn [negb].
  change (64 <? 128)%N with true. cbv iota.
  change (asciiUpper 64) with 64%N.
  split.
  - destruct (c <? 128)%N eqn:L.
    + unfold asciiUpper. destruct ((97 <=? c) && (c <=? 122))%N eqn:R; intro H.
      * apply andb_prop in R. destruct R as [R1 R2].
        apply N.leb_le in R1. apply N.eqb_eq in H. lia.
      * apply N.eqb_eq in H. exact H.
    + apply N.ltb_ge in L. destruct (up c) as [|cu [|]]; intro H;
        try (apply N.eqb_eq in H; lia).
      destruct (cu <? 128)%N eqn:L2; apply N.eqb_eq in H; [lia|].
      apply N.ltb_ge in L2. lia.
  - intros ->. reflexivity.
Qed.

Lemma lastOr_None m : lastOr None m = None -> m = [].
Proof.
  unfold lastOr. destruct (rev m) eqn:E; [|discriminate].
  intros _. apply (f_equal (@rev N)) in E. rewrite rev_involutive in E. exact E.
Qed.

Lemma lastOr_app prev a b : lastOr prev (a ++ b) = lastOr (lastOr prev a) b.
Proof.
  revert prev. induction a as [|x a IH]; intro prev; [reflexivity|].
  simpl app. rewrite !lastOr_cons. apply IH.
Qed.

Lemma searchFrom_spec ts prev s :
  searchFrom up true ts prev s = true <->
  exists pre rest, s = pre ++ rest /\ matchSeq up true ts (lastOr prev pre, rest) = true.
Proof.
  revert prev. induction s as [|c r IH]; intro prev.
  - cbn [searchFrom]. rewrite orb_false_r. split.
    + intro H. exists [], []. split; auto.
    + intros (pre & rest & E & H). symmetry in E. apply app_eq_nil in E.
      destruct E as [-> ->]. exact H.
  - cbn [searchFrom]. rewrite orb_true_iff, IH. split.
    + intros [H | (pre & rest & -> & H)].
      * exists [], (c :: r). split; auto.
      * exists (c :: pre), rest. rewrite lastOr_cons. split; auto.
    + intros (pre & rest & E & H). destruct pre as [|x pre].
      * simpl in E. subst rest. left. exact H.
      * injection E as <- ->. right. exists pre, rest.
        rewrite lastOr_cons in H. split; auto.
Qed.

Lemma matchSeq_boundary p : matchSeq up true [TBoundary] p
                            = xorb (wordBefore p) (wordAfter p).
Proof.
  cbn [matchSeq matchTerm]. destruct (xorb _ _); reflexivity.
Qed.

Lemma mention_here name prev s :
  matchSeq up true (map TChar (64%N :: name) ++ [TBoundary]) (prev, s) = true <->
  exists m post, s = 64%N :: m ++ post
    /\ Forall2 (fun a b => sameLetter a b = true) m name
    /\ xorb (wordBefore (lastOr (Some 64%N) m, post))
            (wordAfter (lastOr (Some 64%N) m, post)) = true.
Proof.
  rewrite matchSeq_chars. split.
  - intros (m & rest & -> & F & H). inversion F as [|c x m' n' SL F']; subst.
    apply canon_at in SL. subst c. rewrite lastOr_cons, matchSeq_boundary in H.
    exists m', rest. auto.
  - intros (m & post & -> & F & H). exists (64%N :: m), post.
    rewrite lastOr_cons, matchSeq_boundary. split; [reflexivity|]. split; [|exact H].
    constructor; [apply canon_at; reflexivity | exact F].
Qed.

Lemma trigger_terms name :
  buildTriggerPattern name
  = Some {| terms := TAlt TStart TSpace :: map TChar (64%N :: name) ++ [TBoundary];
            ignoreCase := true |}.
Proof.
  unfold buildTriggerPattern. rewrite parseLiteral_escape. reflexivity.
Qed.

Lemma test_trigger name t :
  test up {| terms := TAlt TStart TSpace :: map TChar (64%N :: name) ++ [TBoundary];
             ignoreCase := true |} t = true
  <-> Mentions name t.
Proof.
  unfold test. cbn [terms ignoreCase]. rewrite searchFrom_spec. split.
  - intros (pre & rest & -> & H).
    cbn [matchSeq] in H. cbn [matchTerm] in H.
    rewrite existsb_app, orb_true_iff in H. destruct H as [H | H].
    + cbn [fst] in H. destruct (lastOr None pre) eqn:L; [discriminate H|].
      apply lastOr_None in L. subst pre. cbn [existsb] in H.
      rewrite orb_false_r in H. apply mention_here in H.
      destruct H as (m & post & -> & F & B).
      exists [], m, post. auto.
    + cbn [snd] in H. destruct rest as [|w rest]; [discriminate H|].
      destruct (isWhiteSpace w) eqn:WS; [|discriminate H].
      cbn [existsb] in H. rewrite orb_false_r in H. apply mention_here in H.
      destruct H as (m & post & -> & F & B).
      exists (pre ++ [w]), m, post. rewrite <- app_assoc. repeat split; auto.
      right. eauto.
  - intros (pre & m & post & -> & P & F & B).
    assert (M : forall prev, matchSeq up true (map TChar (64%N :: name) ++ [TBoundary])
                          (prev, 64%N :: m ++ post) = true).
    { intro prev. apply mention_here. eauto. }
    destruct P as [-> | (pre' & w & -> & WS)].
    + exists [], (64%N :: m ++ post). split; [reflexivity|].
      cbn [matchSeq matchTerm lastOr rev fst app existsb]. rewrite M. reflexivity.
    + exists pre', (w :: 64%N :: m ++ post). rewrite <- app_assoc. split; [reflexivity|].
      cbn [matchSeq]. cbn [matchTerm]. rewrite existsb_app. apply orb_true_iff. right.
      cbn [snd]. rewrite WS. cbn [existsb]. rewrite M. reflexivity.
Qed.

(** C4 (as amended). For every assistant name the pattern is built, and a
    message triggers exactly when its group is the default local group or
    its trimmed content holds [@<name>], letter case apart, right at the
    start or right after a white space character, with a word boundary at
    the end of the name. With the default name, ["@Andy"] and
    ["hi @andy can you"] match and ["@Andyson"] does not. *)
Theorem trigger_predicate :
  (forall name, exists re,
      buildTriggerPattern name = Some re
      /\ forall msg,
          Orchestrator.isTriggered up re msg = true
          <-> (InboundMessage.groupId msg = DEFAULT_GROUP_ID
               \/ Mentions name (trim (InboundMessage.content msg))))
  /\ (exists re,
         buildTriggerPattern ASSISTANT_NAME = Some re
         /\ Orchestrator.isTriggered up re (remoteMessage "@Andy") = true
         /\ Orchestrator.isTriggered up re (remoteMessage "hi @andy can you") = true
         /\ Orchestrator.isTriggered up re (remoteMessage "@Andyson") = false).
Proof.
  split.
  - intro name. eexists. split; [apply trigger_terms|].
    intro msg. unfold Orchestrator.isTriggered.
    rewrite orb_true_iff, str_eqb_eq, test_trigger. reflexivity.
  - eexists. split; [apply trigger_terms|].
    repeat split; reflexivity.
Qed.

End TriggerPattern.

(** C4, the claim as worded fails: in a remote chat, ["x@Andy"] holds
    [@Andy] ending at a word boundary, yet the message does not trigger,
    because the [@] is neither at the start nor after white space. *)
Lemma trigger_claimed_differs :
  exists re,
    Config.buildTriggerPattern Config.ASSISTANT_NAME = Some re
    /\ Claimed.trigger Mention.plainUpper Config.ASSISTANT_NAME
                       (Mention.remoteMessage "x@Andy") = true
    /\ Orchestrator.isTriggered Mention.plainUpper re
                                (Mention.remoteMessage "x@Andy") = false.
Proof.
  eexists. split; [apply trigger_terms|]. split; reflexivity.
Qed.

(* ===================================================================== *)
(** * Properties of the worker *)
(* ===================================================================== *)

Section WorkerProps.

Import Worker Observe WorkerSpec.

Context {World : Type}.
Variable host : Host World.

Local Notation quiet := (@WorkerSpec.quiet World).
Local Notation total := (@WorkerSpec.total World).

Lemma calm_app a b : calm a -> calm b -> calm (a ++ b).
Proof. intros Ha Hb. apply Forall_app. split; assumption. Qed.

Lemma quiet_same {A} (m : W World A) :
  (forall st, outbox (snd (m st)) = outbox st
              /\ backendLog (snd (m st)) = backendLog st) ->
  quiet m.
Proof.
  intros H st. destruct (H st) as [Ho Hb]. exists [].
  rewrite app_nil_r. repeat split; auto. constructor.
Qed.

Lemma quiet_ret {A} (a : A) : quiet (ret a).
Proof. apply quiet_same. intro st. split; reflexivity. Qed.

Lemma quiet_throw {A} e : quiet (@throw World A e).
Proof. apply quiet_same. intro st. split; reflexivity. Qed.

Lemma quiet_await {A} (r : Result A) : quiet (await r).
Proof. destruct r; [apply quiet_ret | apply quiet_throw]. Qed.

Lemma quiet_call {A} (op : World -> Result A * World) : quiet (call op).
Proof.
  apply quiet_same. intro st. unfold call. destruct (op (world st)).
  split; reflexivity.
Qed.

Lemma quiet_callTotal {A} (op : World -> A * World) : quiet (callTotal op).
Proof.
  apply quiet_same. intro st. unfold callTotal. destruct (op (world st)).
  split; reflexivity.
Qed.

Lemma quiet_post m : isCompletion m = false -> quiet (post m).
Proof.
  intros H st. exists [m]. repeat split; auto. constructor; [exact H|constructor].
Qed.

Lemma quiet_bind {A B} (m : W World A) (k : A -> W World B) :
  quiet m -> (forall a, quiet (k a)) -> quiet (bind m k).
Proof.
  intros Hm Hk st. unfold bind.
  destruct (Hm st) as (e1 & O1 & C1 & L1).
  destruct (m st) as [[a|e] st1]; cbn [snd] in *.
  - destruct (Hk a st1) as (e2 & O2 & C2 & L2).
    exists (e1 ++ e2). rewrite O2, O1, L2, L1, app_assoc.
    repeat split; auto. apply calm_app; assumption.
  - exists e1. auto.
Qed.

Lemma quiet_tryCatch {A} (body : W World A) handler :
  quiet body -> (forall e, quiet (handler e)) -> quiet (tryCatch body handler).
Proof.
  intros Hm Hk st. unfold tryCatch.
  destruct (Hm st) as (e1 & O1 & C1 & L1).
  destruct (body st) as [[a|e] st1]; cbn [snd] in *.
  - exists e1. auto.
  - destruct (Hk e st1) as (e2 & O2 & C2 & L2).
    exists (e1 ++ e2). rewrite O2, O1, L2, L1, app_assoc.
    repeat split; auto. apply calm_app; assumption.
Qed.

Lemma quiet_forEach {A B} (f : A -> W World (list B)) xs :
  (forall x, quiet (f x)) -> quiet (forEach f xs).
Proof.
  intro Hf. induction xs as [|x xs IH]; cbn [forEach].
  - apply quiet_ret.
  - apply quiet_bind; [apply Hf|]. intro ys.
    apply quiet_bind; [exact IH|]. intro zs. apply quiet_ret.
Qed.

Lemma quiet_log g k label detail : quiet (log host g k label detail).
Proof.
  unfold log. apply quiet_bind; [apply quiet_callTotal|].
  intro t. apply quiet_post. reflexivity.
Qed.

Lemma quiet_prop key input : quiet (prop host key input).
Proof.
  unfold prop. destruct input; first [apply quiet_throw | apply quiet_ret].
Qed.

Lemma quiet_lengthText v : quiet (lengthText host v).
Proof.
  unfold lengthText. destruct v; first [apply quiet_throw | apply quiet_ret].
Qed.

Lemma quiet_defined key s : quiet (defined host key s).
Proof. destruct s; [apply quiet_ret | apply quiet_throw]. Qed.

Ltac quiet_step :=
  first
    [ apply quiet_ret | apply quiet_throw | apply quiet_await
    | apply quiet_call | apply quiet_callTotal | apply quiet_log
    | apply quiet_prop | apply quiet_lengthText | apply quiet_defined
    | apply quiet_post; reflexivity
    | apply quiet_bind; [|intro]
    | apply quiet_tryCatch; [|intro]
    | match goal with
      | |- quiet (if ?b then _ else _) => destruct b
      | |- quiet (match ?x with _ => _ end) => destruct x
      end ].

Ltac quiet_tac := repeat quiet_step.

Lemma quiet_toolSwitch name input g : quiet (toolSwitch host name input g).
Proof.
  unfold toolSwitch, toolBash, toolReadFile, toolWriteFile, toolListFiles,
    toolFetchUrl, toolUpdateMemory, toolCreateTask, toolJavascript, stringOut.
  quiet_tac.
Qed.

Lemma quiet_executeTool name input g : quiet (executeTool host name input g).
Proof.
  unfold executeTool. apply quiet_tryCatch; [apply quiet_toolSwitch|].
  intro e. quiet_tac.
Qed.

(** ** Computations that do not throw *)

Lemma total_ret {A} (a : A) : total (@ret World A a).
Proof. intro st. exists a. reflexivity. Qed.

Lemma total_bind {A B} (m : W World A) (k : A -> W World B) :
  total m -> (forall a, total (k a)) -> total (bind m k).
Proof.
  intros Hm Hk st. unfold bind. destruct (Hm st) as (a & E).
  destruct (m st) as [[a'|e] st1]; cbn [fst] in E; [|discriminate].
  apply Hk.
Qed.

Lemma total_post m : total (@post World m).
Proof. intro st. exists tt. reflexivity. Qed.

Lemma total_callTotal {A} (op : World -> A * World) : total (callTotal op).
Proof.
  intro st. unfold callTotal. destruct (op (world st)) as [a w]. exists a.
  reflexivity.
Qed.

Lemma total_log g k label detail : total (log host g k label detail).
Proof.
  unfold log. apply total_bind; [apply total_callTotal|]. intro. apply total_post.
Qed.

Lemma total_forEach {A B} (f : A -> W World (list B)) xs :
  (forall x, total (f x)) -> total (forEach f xs).
Proof.
  intro Hf. induction xs as [|x xs IH]; cbn [forEach].
  - apply total_ret.
  - apply total_bind; [apply Hf|]. intro ys.
    apply total_bind; [exact IH|]. intro zs. apply total_ret.
Qed.

Lemma quiet_runToolUse g block : quiet (runToolUse host g block).
Proof.
  unfold runToolUse. destruct block; try apply quiet_ret.
  repeat first [ apply quiet_executeTool | quiet_step ].
Qed.

(** A quiet computation, whatever its outcome. *)
Lemma run_quiet {A} (m : W World A) st :
  quiet m ->
  exists r st1 extra,
    m st = (r, st1) /\ outbox st1 = outbox st ++ extra /\ calm extra
    /\ backendLog st1 = backendLog st.
Proof.
  intro Hq. destruct (Hq st) as (extra & O1 & C1 & L1).
  destruct (m st) as [r st1]. exists r, st1, extra. auto.
Qed.

Lemma quiet_runToolCall g tc : quiet (runToolCall host g tc).
Proof.
  unfold runToolCall. repeat first [ apply quiet_executeTool | quiet_step ].
Qed.

Lemma quiet_logTextBlock g block : quiet (logTextBlock host g block).
Proof. unfold logTextBlock. quiet_tac. Qed.

Lemma total_logTextBlock g block : total (logTextBlock host g block).
Proof.
  unfold logTextBlock. destruct block; try apply total_ret.
  destruct (nonEmpty text); [|apply total_ret].
  apply total_bind; [apply total_log|]. intro. apply total_ret.
Qed.


(** ** One round trip *)

Lemma run_sure {A} (m : W World A) st :
  quiet m -> total m ->
  exists a st1 extra,
    m st = (Ok a, st1) /\ outbox st1 = outbox st ++ extra /\ calm extra
    /\ backendLog st1 = backendLog st.
Proof.
  intros Hq Ht. destruct (Hq st) as (extra & O1 & C1 & L1).
  destruct (Ht st) as (a & E). destruct (m st) as [[a'|e] st1]; cbn in *.
  - injection E as ->. exists a, st1, extra. auto.
  - discriminate.
Qed.

Lemma roundTripAnthropic_spec key body st :
  exists t, fromAnthropic host t
    /\ outbox (snd (roundTripAnthropic host key body st)) = outbox st
    /\ backendLog (snd (roundTripAnthropic host key body st)) = backendLog st ++ [t]
    /\ match fst (roundTripAnthropic host key body st) with
       | Ok res => t = TripAnthropic res
       | Throw e => raisedBy "Anthropic" t = Some e
       end.
Proof.
  exists (tripOfAnthropic (fst (fetchAnthropic host key body (world st)))).
  split; [exists key, body, (world st); reflexivity|].
  unfold roundTripAnthropic, bind, attempt, call, record.
  destruct (fetchAnthropic host key body (world st)) as [[[status [text|e]|[res|e]]|e] w'];
    cbn; auto.
Qed.

Lemma roundTripOllama_spec url body st :
  exists t, fromOllama host t
    /\ outbox (snd (roundTripOllama host url body st)) = outbox st
    /\ backendLog (snd (roundTripOllama host url body st)) = backendLog st ++ [t]
    /\ match fst (roundTripOllama host url body st) with
       | Ok res => t = TripOllama res
       | Throw e => raisedBy "Ollama" t = Some e
       end.
Proof.
  exists (tripOfOllama (fst (fetchOllama host url body (world st)))).
  split; [exists url, body, (world st); reflexivity|].
  unfold roundTripOllama, bind, attempt, call, record.
  destruct (fetchOllama host url body (world st)) as [[[status [text|e]|[res|e]]|e] w'];
    cbn; auto.
Qed.

Lemma anthropicRound_spec p msgs it st :
  roundSpec (fromAnthropic host) "Anthropic"
            (anthropicAbort host (InvokePayload.groupId p))
            (InvokePayload.groupId p) st
            (anthropicRound host p msgs it st).
Proof.
  unfold anthropicRound. cbv zeta.
  set (g := InvokePayload.groupId p).
  match goal with |- context [bind (log host g KApiCall ?l ?d)] =>
    destruct (run_sure (log host g KApiCall l d) st (quiet_log _ _ _ _) (total_log _ _ _ _))
      as (u1 & st1 & e1 & E1 & O1 & C1 & L1) end.
  unfold bind at 1. rewrite E1.
  match goal with |- context [roundTripAnthropic host ?k ?b] =>
    destruct (roundTripAnthropic_spec k b st1) as (t & Ht & O2 & L2 & R2);
    unfold bind at 1;
    destruct (roundTripAnthropic host k b st1) as [[res|e] st2] end;
    cbn [fst snd] in *.
  2:{ exists t, e1. cbn [fst snd]. rewrite L2, L1, O2, O1. repeat split; auto. }
  subst t.
  match goal with |- context [bind ?m _] =>
    assert (Q3 : quiet m) by (destruct (usage res); quiet_tac);
    assert (T3 : total m) by (destruct (usage res); [apply total_post | apply total_ret]);
    destruct (run_sure m st2 Q3 T3) as (u3 & st3 & e3 & E3 & O3 & C3 & L3);
    unfold bind at 1; rewrite E3 end.
  destruct (run_sure (forEach (logTextBlock host g) (content res)) st3
              (quiet_forEach _ _ (quiet_logTextBlock g))
              (total_forEach _ _ (total_logTextBlock g)))
    as (u4 & st4 & e4 & E4 & O4 & C4 & L4).
  unfold bind at 1. rewrite E4.
  destruct (JS.eqb (stop_reason res) (lit "tool_use")) eqn:Asks.
  - destruct (run_quiet (forEach (runToolUse host g) (content res)) st4
                (quiet_forEach _ _ (quiet_runToolUse g)))
      as ([results|e] & st5 & e5 & E5 & O5 & C5 & L5).
    + unfold bind at 1. rewrite E5. cbn.
      exists (TripAnthropic res), (e1 ++ e3 ++ e4 ++ e5 ++ [Typing g]).
      split; [exact Ht|]. rewrite L5, L4, L3, L2, L1, O5, O4, O3, O2, O1.
      split; [reflexivity|]. split.
      { repeat apply calm_app; auto. constructor; [reflexivity|constructor]. }
      split; [exact Asks|]. rewrite <- !app_assoc. reflexivity.
    + unfold bind at 1. rewrite E5. unfold roundSpec. cbn [fst snd].
      exists (TripAnthropic res), (e1 ++ e3 ++ e4 ++ e5).
      split; [exact Ht|]. rewrite L5, L4, L3, L2, L1, O5, O4, O3, O2, O1.
      split; [reflexivity|]. split; [repeat apply calm_app; auto|].
      split; [|rewrite <- !app_assoc; reflexivity].
      right. split; [exact Asks|].
      exists res, st4. split; [reflexivity|]. rewrite E5. reflexivity.
  - cbn. exists (TripAnthropic res), (e1 ++ e3 ++ e4).
    split; [exact Ht|]. rewrite L4, L3, L2, L1, O4, O3, O2, O1.
    split; [reflexivity|]. split; [repeat apply calm_app; auto|].
    split; [exact Asks|]. eexists. split; [reflexivity|].
    rewrite <- !app_assoc. reflexivity.
Qed.


Lemma ollamaRound_spec p msgs it st :
  roundSpec (fromOllama host) "Ollama"
            (ollamaAbort host (InvokePayload.groupId p))
            (InvokePayload.groupId p) st
            (ollamaRound host p msgs it st).
Proof.
  unfold ollamaRound. cbv zeta.
  set (g := InvokePayload.groupId p).
  match goal with |- context [bind (log host g KApiCall ?l ?d)] =>
    destruct (run_sure (log host g KApiCall l d) st (quiet_log _ _ _ _) (total_log _ _ _ _))
      as (u1 & st1 & e1 & E1 & O1 & C1 & L1) end.
  unfold bind at 1. rewrite E1.
  match goal with |- context [roundTripOllama host ?k ?b] =>
    destruct (roundTripOllama_spec k b st1) as (t & Ht & O2 & L2 & R2);
    unfold bind at 1;
    destruct (roundTripOllama host k b st1) as [[res|e] st2] end;
    cbn [fst snd] in *.
  2:{ exists t, e1. cbn [fst snd]. rewrite L2, L1, O2, O1. repeat split; auto. }
  subst t.
  match goal with |- context [bind ?m _] =>
    assert (Q3 : quiet m) by (destruct (o_usage res); quiet_tac);
    assert (T3 : total m) by (destruct (o_usage res); [apply total_post | apply total_ret]);
    destruct (run_sure m st2 Q3 T3) as (u3 & st3 & e3 & E3 & O3 & C3 & L3);
    unfold bind at 1; rewrite E3 end.
  match goal with |- context [bind ?m _] =>
    assert (Q4 : quiet m) by quiet_tac;
    assert (T4 : total m)
      by (destruct (nonEmpty (cm_content (o_message res)));
          [apply total_log | apply total_ret]);
    destruct (run_sure m st3 Q4 T4) as (u4 & st4 & e4 & E4 & O4 & C4 & L4);
    unfold bind at 1; rewrite E4 end.
  assert (Final :
    asking (TripOllama res) = false ->
    roundSpec (fromOllama host) "Ollama" (ollamaAbort host g) g st
      (bind (post (Response g (finalText (orElse (cm_content (o_message res)) noResponse))))
            (fun _ => ret (@Return (list ChatMessage))) st4)).
  { intro Asks. cbn. exists (TripOllama res), (e1 ++ e3 ++ e4).
    split; [exact Ht|]. cbn [fst snd backendLog outbox].
    rewrite L4, L3, L2, L1, O4, O3, O2, O1.
    split; [reflexivity|]. split; [repeat apply calm_app; auto|].
    split; [exact Asks|]. eexists. split; [reflexivity|].
    rewrite <- !app_assoc. reflexivity. }
  destruct (JS.eqb (finish_reason res) (lit "tool_calls")) eqn:Fin;
    [destruct (cm_tool_calls (o_message res)) as [calls|] eqn:Calls|].
  - assert (Asks : asking (TripOllama res) = true)
      by (unfold asking; rewrite Fin, Calls; reflexivity).
    destruct (run_quiet (forEach (runToolCall host g) calls) st4
                (quiet_forEach _ _ (quiet_runToolCall g)))
      as ([results|e] & st5 & e5 & E5 & O5 & C5 & L5).
    + unfold bind at 1. rewrite E5. cbn.
      exists (TripOllama res), (e1 ++ e3 ++ e4 ++ e5 ++ [Typing g]).
      split; [exact Ht|]. rewrite L5, L4, L3, L2, L1, O5, O4, O3, O2, O1.
      split; [reflexivity|]. split.
      { repeat apply calm_app; auto. constructor; [reflexivity|constructor]. }
      split; [unfold asking; rewrite Fin, Calls; reflexivity|].
      rewrite <- !app_assoc. reflexivity.
    + unfold bind at 1. rewrite E5. unfold roundSpec. cbn [fst snd].
      exists (TripOllama res), (e1 ++ e3 ++ e4 ++ e5).
      split; [exact Ht|]. rewrite L5, L4, L3, L2, L1, O5, O4, O3, O2, O1.
      split; [reflexivity|]. split; [repeat apply calm_app; auto|].
      split; [|rewrite <- !app_assoc; reflexivity].
      right. split; [exact Asks|].
      exists res, calls, st4. split; [reflexivity|]. split; [exact Calls|].
      rewrite E5. reflexivity.
  - apply Final. unfold asking. rewrite Fin, Calls. reflexivity.
  - apply Final. unfold asking. rewrite Fin. reflexivity.
Qed.

(** ** The loop *)

Lemma loopOf_spec {M} (round : M -> nat -> W World (Round M)) origin backend
      abort limitText g :
  (forall msgs it st, roundSpec origin backend abort g st (round msgs it st)) ->
  forall fuel msgs it st,
    it <= maxIterations -> maxIterations - it < fuel ->
    loopSpec origin backend abort limitText g (maxIterations - it) st
             (loopOf round g limitText fuel msgs it st).
Proof.
  intro Hround. induction fuel as [|fuel IH]; intros msgs it st Hle Hfuel; [lia|].
  cbn [loopOf]. destruct (it <? maxIterations) eqn:Lt.
  - apply Nat.ltb_lt in Lt.
    destruct (Hround msgs (S it) st) as (t & e1 & Ht & L1 & C1 & R1).
    unfold bind at 1. destruct (round msgs (S it) st) as [[[msgs'|]|e] st1];
      cbn [fst snd] in *.
    + destruct R1 as [Asks O1].
      destruct (IH msgs' (S it) st1 ltac:(lia) ltac:(lia))
        as (trips & e2 & Hor & L2 & C2 & Len & R2).
      exists (t :: trips), (e1 ++ e2).
      split; [constructor; assumption|].
      rewrite L2, L1, <- app_assoc. split; [reflexivity|].
      split; [apply calm_app; assumption|].
      split; [cbn [List.length]; lia|].
      destruct (fst (loopOf round g limitText fuel msgs' (S it) st1)) as [b|e].
      * destruct R2 as (-> & text & O2 & Cases). split; [reflexivity|].
        exists text. rewrite O2, O1, <- !app_assoc. split; [reflexivity|].
        destruct Cases as [(Len' & All & ->) | (before & t' & raw & -> & All & NA & RT & ->)].
        -- left. repeat split; auto. cbn [List.length]. lia.
        -- right. exists (t :: before), t', raw. repeat split; auto.
      * destruct R2 as (O2 & before & t' & -> & All & Rz).
        rewrite O2, O1, <- app_assoc. split; [reflexivity|].
        exists (t :: before), t'. repeat split; auto.
    + destruct R1 as (NA & raw & RT & O1).
      exists [t], e1. split; [constructor; [assumption|constructor]|].
      split; [exact L1|]. split; [exact C1|]. split; [cbn [List.length]; lia|].
      cbn. split; [reflexivity|]. eexists. split; [exact O1|].
      right. exists [], t, raw. repeat split; auto.
    + destruct R1 as (Rz & O1).
      exists [t], e1. split; [constructor; [assumption|constructor]|].
      split; [exact L1|]. split; [exact C1|]. split; [cbn [List.length]; lia|].
      cbn. split; [exact O1|]. exists [], t. repeat split; auto.
  - apply Nat.ltb_ge in Lt. exists [], [].
    split; [constructor|]. split; [cbn; rewrite app_nil_r; reflexivity|].
    split; [constructor|]. split; [cbn [List.length]; lia|].
    cbn [fst snd bind post ret outbox]. split; [reflexivity|].
    exists limitText. split; [reflexivity|]. left.
    split; [cbn [List.length]; lia|]. split; [constructor|reflexivity].
Qed.

Lemma anthropicLoop_shape p fuel msgs it st :
  anthropicLoop host fuel p msgs it st
  = loopOf (anthropicRound host p) (InvokePayload.groupId p) anthropicLimitText
           fuel msgs it st.
Proof.
  revert msgs it st. induction fuel as [|fuel IH]; intros msgs it st; [reflexivity|].
  cbn [anthropicLoop loopOf]. destruct (it <? maxIterations); [|reflexivity].
  unfold bind. destruct (anthropicRound host p msgs (S it) st) as [[[msgs'|]|e] st1];
    [apply IH|reflexivity|reflexivity].
Qed.

Lemma ollamaLoop_shape p fuel msgs it st :
  ollamaLoop host fuel p msgs it st
  = loopOf (ollamaRound host p) (InvokePayload.groupId p) ollamaLimitText
           fuel msgs it st.
Proof.
  revert msgs it st. induction fuel as [|fuel IH]; intros msgs it st; [reflexivity|].
  cbn [ollamaLoop loopOf]. destruct (it <? maxIterations); [|reflexivity].
  unfold bind. destruct (ollamaRound host p msgs (S it) st) as [[[msgs'|]|e] st1];
    [apply IH|reflexivity|reflexivity].
Qed.


(** ** A whole invocation *)

Lemma invocation_of_loop origin backend abort limitText g
      (lead : list WorkerOutbound) (loop : W World bool) st :
  outbox st = lead -> calm lead -> backendLog st = [] ->
  loopSpec origin backend abort limitText g maxIterations st (loop st) ->
  invocationSpec origin backend abort limitText g
    (tryCatch loop
       (fun err => bind (await (errText err))
                     (fun message => bind (post (Error g message))
                                       (fun _ => ret true))) st).
Proof.
  intros Ho Hc Hl (trips & extra & Hor & L & C & Len & R).
  unfold tryCatch. destruct (loop st) as [[b|e] st1]; cbn [fst snd] in *;
    rewrite Hl in L; cbn [app] in L.
  - destruct R as (-> & text & O & Cases).
    unfold invocationSpec, roundTrips, endsWith. cbn [fst snd]. rewrite L.
    split; [exact Hor|]. split; [exact Len|].
    assert (E : exists before0, outbox st1 = before0 ++ [Response g text]
                                /\ Forall (fun x => isCompletion x = false) before0).
    { exists (lead ++ extra). rewrite O, Ho, app_assoc. split; [reflexivity|].
      apply calm_app; assumption. }
    destruct Cases as [(Len' & All & ->) | (before & t & raw & -> & All & NA & RT & ->)].
    + left. auto.
    + right. left. split; [reflexivity|]. exists before, t, raw. auto.
  - destruct R as (O & before & t & -> & All & Rz).
    unfold invocationSpec, roundTrips, endsWith.
    split; [cbn [snd]|split; [cbn [snd]|]].
    + unfold bind, await. destruct (errText e); cbn [ret throw post snd backendLog];
        rewrite L; exact Hor.
    + unfold bind, await. destruct (errText e); cbn [ret throw post snd backendLog];
        rewrite L; exact Len.
    + right. right. exists before, t, e.
      unfold bind, await. destruct (errText e) as [message|e'];
        cbn [ret throw post fst snd backendLog outbox]; rewrite L.
      * repeat split; auto.
        exists (lead ++ extra). rewrite O, Ho. split; [reflexivity|].
        apply calm_app; assumption.
      * repeat split; auto. rewrite O, Ho. apply calm_app; assumption.
Qed.

Lemma runAnthropic_spec p w :
  invocationSpec (fromAnthropic host) "Anthropic"
                 (anthropicAbort host (InvokePayload.groupId p)) anthropicLimitText
                 (InvokePayload.groupId p) (runAnthropic host p w).
Proof.
  unfold runAnthropic, invokeAnthropic. cbv zeta.
  set (g := InvokePayload.groupId p).
  unfold bind at 1. cbn [post start outbox world backendLog app].
  match goal with |- context [bind (log host g KInfo ?l ?d)] =>
    destruct (run_sure (log host g KInfo l d)
                {| world := w; outbox := [Typing g]; backendLog := [] |}
                (quiet_log _ _ _ _) (total_log _ _ _ _))
      as (u1 & st1 & e1 & E1 & O1 & C1 & L1) end.
  unfold bind at 1. rewrite E1. cbn [outbox backendLog] in O1, L1.
  match goal with |- context [tryCatch ?body _ st1] =>
    apply (invocation_of_loop (fromAnthropic host) "Anthropic"
             (anthropicAbort host g) anthropicLimitText g
             ([Typing g] ++ e1) body st1) end.
  - exact O1.
  - apply calm_app; [constructor; [reflexivity|constructor]|exact C1].
  - exact L1.
  - rewrite anthropicLoop_shape.
    apply loopOf_spec; [apply anthropicRound_spec | unfold maxIterations; lia ..].
Qed.

Lemma runOllama_spec p w :
  invocationSpec (fromOllama host) "Ollama"
                 (ollamaAbort host (InvokePayload.groupId p)) ollamaLimitText
                 (InvokePayload.groupId p) (runOllama host p w).
Proof.
  unfold runOllama, invokeOllama. cbv zeta.
  set (g := InvokePayload.groupId p).
  unfold bind at 1. cbn [post start outbox world backendLog app].
  match goal with |- context [bind (log host g KInfo ?l ?d)] =>
    destruct (run_sure (log host g KInfo l d)
                {| world := w; outbox := [Typing g]; backendLog := [] |}
                (quiet_log _ _ _ _) (total_log _ _ _ _))
      as (u1 & st1 & e1 & E1 & O1 & C1 & L1) end.
  unfold bind at 1. rewrite E1. cbn [outbox backendLog] in O1, L1.
  match goal with |- context [tryCatch ?body _ st1] =>
    apply (invocation_of_loop (fromOllama host) "Ollama"
             (ollamaAbort host g) ollamaLimitText g
             ([Typing g] ++ e1) body st1) end.
  - exact O1.
  - apply calm_app; [constructor; [reflexivity|constructor]|exact C1].
  - exact L1.
  - rewrite ollamaLoop_shape.
    apply loopOf_spec; [apply ollamaRound_spec | unfold maxIterations; lia ..].
Qed.

Lemma asking_not_raised backend t e :
  asking t = true -> raisedBy backend t = Some e -> False.
Proof. destruct t as [? | ? [?|?] | ? | ? | ?]; cbn; congruence. Qed.

Lemma always_asking_anthropic t :
  anthropicAlwaysAsks host -> fromAnthropic host t -> asking t = true.
Proof.
  intros H (key & body & w & ->). destruct (H key body w) as (res & w' & E & S).
  rewrite E. cbn [fst tripOfAnthropic asking]. rewrite S. apply str_eqb_refl.
Qed.

Lemma always_asking_ollama t :
  ollamaAlwaysAsks host -> fromOllama host t -> asking t = true.
Proof.
  intros H (url & body & w & ->).
  destruct (H url body w) as (res & calls & w' & E & F & Cs).
  rewrite E. cbn [fst tripOfOllama asking]. rewrite F, Cs, str_eqb_refl. reflexivity.
Qed.

Lemma asked_to_the_end origin backend abort limitText g
      (r : Result bool * WState World) :
  invocationSpec origin backend abort limitText g r ->
  (forall t, origin t -> asking t = true) ->
  (forall t e, origin t -> ~ abort t e) ->
  fst r = Ok true /\ roundTrips (snd r) = maxIterations
  /\ endsWith (snd r) (Response g limitText).
Proof.
  intros (Hor & Len & Cases) Hask Hrun.
  destruct Cases as [(Hr & L & All & E) | [(Hr & before & t & raw & L & All & NA & RT & E)
                                          | (before & t & e & L & All & Rz & E)]].
  - auto.
  - exfalso. rewrite L in Hor. apply Forall_app in Hor. destruct Hor as [_ Hor].
    inversion Hor as [|? ? Ht _]; subst. apply Hask in Ht. congruence.
  - exfalso. rewrite L in Hor. apply Forall_app in Hor. destruct Hor as [_ Hor].
    inversion Hor as [|? ? Ht _]; subst. destruct Rz as [Rz | [_ Ab]].
    + apply Hask in Ht. exact (asking_not_raised _ _ _ Ht Rz).
    + exact (Hrun _ _ Ht Ab).
Qed.

Lemma last_trip origin backend abort limitText g
      (r : Result bool * WState World) before t :
  invocationSpec origin backend abort limitText g r ->
  backendLog (snd r) = before ++ [t] ->
  (asking t = true /\ endsWith (snd r) (Response g limitText))
  \/ (asking t = false
      /\ exists raw, replyText t = Some raw
                     /\ endsWith (snd r) (Response g (finalText raw)))
  \/ (exists e,
         (raisedBy backend t = Some e \/ (asking t = true /\ abort t e))
         /\ match errText e with
            | Ok message => endsWith (snd r) (Error g message)
            | Throw _ => calm (outbox (snd r))
            end).
Proof.
  intros (Hor & Len & Cases) L.
  destruct Cases as [(Hr & L' & All & E) | [(Hr & before' & t' & raw & L' & All & NA & RT & E)
                                           | (before' & t' & e & L' & All & Rz & E)]].
  - left. rewrite L in All. apply Forall_app in All. destruct All as [_ All].
    inversion All; subst. auto.
  - rewrite L in L'. apply app_inj_tail in L'. destruct L' as [<- <-].
    right. left. eauto.
  - rewrite L in L'. apply app_inj_tail in L'. destruct L' as [<- <-].
    right. right. exists e. split; [exact Rz|].
    destruct (errText e); tauto.
Qed.


Lemma finalText_nonempty raw : finalText raw <> [].
Proof.
  unfold finalText, orElse. destruct (trim (stripInternal raw)); discriminate.
Qed.

Lemma response_nonempty origin backend abort limitText g
      (r : Result bool * WState World) g' t :
  invocationSpec origin backend abort limitText g r ->
  limitText <> [] ->
  In (Response g' t) (outbox (snd r)) -> t <> [].
Proof.
  intros (Hor & Len & Cases) Hlim Hin.
  assert (K : forall m, endsWith (snd r) m -> Response g' t = m).
  { intros m (before & O & C). rewrite O in Hin. apply in_app_or in Hin.
    destruct Hin as [Hin | [<- | []]]; [|reflexivity].
    unfold calm in C. rewrite Forall_forall in C. apply C in Hin. discriminate. }
  destruct Cases as [(Hr & L & All & E) | [(Hr & before & t' & raw & L & All & NA & RT & E)
                                          | (before & t' & e & L & All & Rz & E)]].
  - apply K in E. injection E as _ ->. exact Hlim.
  - apply K in E. injection E as _ ->. apply finalText_nonempty.
  - destruct (errText e) as [message|e'].
    + destruct E as [_ E]. apply K in E. discriminate.
    + destruct E as [_ C]. unfold calm in C. rewrite Forall_forall in C.
      apply C in Hin. discriminate.
Qed.

Lemma backend_error_envelope origin backend abort limitText g
      (r : Result bool * WState World) before status body :
  invocationSpec origin backend abort limitText g r ->
  backendLog (snd r) = before ++ [TripStatus status (Ok body)] ->
  endsWith (snd r)
    (Error g (lit backend ++ lit " API error " ++ ofN status ++ lit ": " ++ body)).
Proof.
  intros Spec L.
  destruct (last_trip _ _ _ _ _ _ _ _ Spec L)
    as [[A _] | [(_ & raw & RT & _) | (e & [Rz | [A _]] & E)]];
    try discriminate.
  cbn in Rz. injection Rz as <-. exact E.
Qed.

End WorkerProps.

Lemma endsWith_computed {World : Type} (st : Worker.WState World) m :
  Worker.outbox st = removelast (Worker.outbox st) ++ [m] ->
  forallb (fun x => negb (Observe.isCompletion x)) (removelast (Worker.outbox st))
  = true ->
  Observe.endsWith st m.
Proof.
  intros O C. exists (removelast (Worker.outbox st)). split; [exact O|].
  apply Forall_forall. intros x Hx.
  rewrite forallb_forall in C. apply C in Hx.
  destruct (Observe.isCompletion x); [discriminate Hx|reflexivity].
Qed.

(** C2, on the code: a backend that asks for the [javascript] tool on every
    round, for the script [({toJSON(){}})], does not bring the loop to its
    25th round. The tool resolves to [undefined], reading the length of the
    result throws, and the invocation ends after one round trip with an
    error envelope instead of the limit response; so in both protocol
    variants. *)
Theorem tool_loop_stops_short :
  let a := Observe.runAnthropic Observe.voidHost (Observe.samplePayload anthropic) tt in
  let o := Observe.runOllama Observe.voidHost (Observe.samplePayload ollama) tt in
  Observe.anthropicAlwaysAsks Observe.voidHost
  /\ Observe.ollamaAlwaysAsks Observe.voidHost
  /\ (fst a = Ok true /\ Observe.roundTrips (snd a) = 1
      /\ Observe.endsWith (snd a)
           (Error (lit "br:main") (lit "Cannot read properties of undefined")))
  /\ (fst o = Ok true /\ Observe.roundTrips (snd o) = 1
      /\ Observe.endsWith (snd o)
           (Error (lit "br:main") (lit "Cannot read properties of undefined"))).
Proof.
  cbv zeta. split; [|split; [|split]].
  - intros key body w. do 2 eexists. split; reflexivity.
  - intros url body w. do 3 eexists. repeat split; reflexivity.
  - split; [reflexivity|]. split; [reflexivity|].
    apply endsWith_computed; reflexivity.
  - split; [reflexivity|]. split; [reflexivity|].
    apply endsWith_computed; reflexivity.
Qed.

(** C10. When the last reply of the backend is final and its text is empty
    once the internal sections are stripped and the rest is trimmed, the
    response envelope carries ["(no response)"], in both protocol variants;
    and no response envelope of an invocation ever carries the empty
    string. *)
Theorem empty_reply_placeholder {World : Type} (host : Worker.Host World)
        (p : InvokePayload.t) (w : World) :
  (forall before res,
      Worker.backendLog (snd (Observe.runAnthropic host p w))
      = before ++ [Worker.TripAnthropic res] ->
      Observe.asking (Worker.TripAnthropic res) = false ->
      trim (Worker.stripInternal (Worker.joinText (Worker.content res))) = [] ->
      Observe.endsWith (snd (Observe.runAnthropic host p w))
        (Response (InvokePayload.groupId p) Worker.noResponse))
  /\ (forall before res,
         Worker.backendLog (snd (Observe.runOllama host p w))
         = before ++ [Worker.TripOllama res] ->
         Observe.asking (Worker.TripOllama res) = false ->
         trim (Worker.stripInternal (Worker.cm_content (Worker.o_message res))) = [] ->
         Observe.endsWith (snd (Observe.runOllama host p w))
           (Response (InvokePayload.groupId p) Worker.noResponse))
  /\ (forall g t,
         In (Response g t) (Worker.outbox (snd (Observe.runAnthropic host p w)))
         \/ In (Response g t) (Worker.outbox (snd (Observe.runOllama host p w))) ->
         t <> []).
Proof.
  pose proof (runAnthropic_spec host p w) as SA.
  pose proof (runOllama_spec host p w) as SO.
  split; [|split].
  - intros before res L NA Empty.
    destruct (last_trip _ _ _ _ _ _ _ _ SA L)
      as [[A _] | [(_ & raw & RT & E) | (e & [Rz | [A _]] & _)]];
      try congruence; try discriminate.
    cbn in RT. injection RT as <-. unfold Worker.finalText in E.
    rewrite Empty in E. exact E.
  - intros before res L NA Empty.
    destruct (last_trip _ _ _ _ _ _ _ _ SO L)
      as [[A _] | [(_ & raw & RT & E) | (e & [Rz | [A _]] & _)]];
      try congruence; try discriminate.
    cbn [Observe.replyText] in RT. injection RT as <-.
    destruct (Worker.cm_content (Worker.o_message res)) as [|c r] eqn:Content.
    + exact E.
    + cbn [orElse] in E. unfold Worker.finalText in E. rewrite Empty in E. exact E.
  - intros g t [H | H].
    + eapply response_nonempty; [exact SA | discriminate | exact H].
    + eapply response_nonempty; [exact SO | discriminate | exact H].
Qed.

Lemma empty_reply_placeholder_witness :
  Observe.endsWith
    (snd (Observe.runAnthropic Observe.silentHost (Observe.samplePayload anthropic) tt))
    (Response (lit "br:main") Worker.noResponse)
  /\ Observe.endsWith
       (snd (Observe.runOllama Observe.silentHost (Observe.samplePayload ollama) tt))
       (Response (lit "br:main") Worker.noResponse).
Proof.
  split.
  - apply (proj1 (empty_reply_placeholder Observe.silentHost
                    (Observe.samplePayload anthropic) tt) [] Observe.silentReply);
      reflexivity.
  - apply (proj1 (proj2 (empty_reply_placeholder Observe.silentHost
                           (Observe.samplePayload ollama) tt)) [] Observe.silentChoice);
      reflexivity.
Defined.

(** C9, on the code: a tool call can abort the loop. For the script
    [({toJSON(){}})] the [javascript] tool makes [executeTool] resolve to
    [undefined], which is no string: the pass over the tool calls throws
    when it reads the length of the result, after ['running'] was posted and
    before ['done'], and with it the round of either variant. For the script
    [throw {toString(){throw this}}] the rendering of the caught value
    throws in both handlers, and the exception leaves [executeTool]. *)
Theorem tool_call_aborts_loop :
  let g := lit "br:main" in
  let use := BToolUse (lit "tu1") (lit "javascript") Observe.voidScript in
  let pass := Worker.forEach (Worker.runToolUse Observe.voidHost g) [use]
                (Worker.start tt) in
  fst (Worker.executeTool Observe.voidHost (lit "javascript") Observe.voidScript g
         (Worker.start tt)) = Ok None
  /\ fst pass = Throw (Worker.typeError Observe.voidHost "length")
  /\ Envelopes.activity (Worker.outbox (snd pass))
     = [ToolActivity g (lit "javascript") running]
  /\ fst (Worker.anthropicRound Observe.voidHost (Observe.samplePayload anthropic)
            [] 1 (Worker.start tt))
     = Throw (Worker.typeError Observe.voidHost "length")
  /\ fst (Worker.ollamaRound Observe.voidHost (Observe.samplePayload ollama)
            [] 1 (Worker.start tt))
     = Throw (Worker.typeError Observe.voidHost "length")
  /\ fst (Worker.executeTool Observe.rethrowHost (lit "javascript")
            Observe.rethrowScript g (Worker.start tt))
     = Throw (Unprintable None).
Proof. cbv zeta. repeat split; reflexivity. Qed.

(* ===================================================================== *)
(** * Properties of the coordinator *)
(* ===================================================================== *)

Section CoordinatorProps.

Import Orchestrator Flight QueueSpec.

Variable up : N -> jsstring.
Variable ulid : N -> jsstring.

(** ** What the queue discipline rests on *)

Lemma Inv_core s s' : core s' = core s -> Inv s -> Inv s'.
Proof.
  unfold core, Inv, queueCalls, taken. intro E. injection E as E1 E2 E3 E4 E5.
  rewrite E1, E2, E3, E4, E5. auto.
Qed.

Lemma queueCalls_suspend k s :
  queueCalls (suspend k s) = queueCalls s + (if queueOwned k then 1 else 0).
Proof.
  unfold queueCalls, suspend. cbn [pending withPending].
  rewrite filter_app, length_app. cbn [filter].
  destruct (queueOwned k); reflexivity.
Qed.

Lemma filter_dropNth {A} (f : A -> bool) n (l : list A) k :
  nth_error l n = Some k ->
  List.length (filter f l)
  = List.length (filter f (dropNth n l)) + (if f k then 1 else 0).
Proof.
  revert n. induction l as [|x l IH]; intros [|n] H; cbn in H; try discriminate.
  - injection H as ->. cbn [dropNth filter]. destruct (f k); cbn [List.length]; lia.
  - cbn [dropNth filter]. specialize (IH n H).
    destruct (f x); cbn [List.length]; lia.
Qed.

Lemma invokeAgent_core c g content s :
  exists k, core (invokeAgent ulid c g content s) = core (suspend k s)
            /\ queueOwned k = (match c with FromQueue => true | FromScheduler => false end)
            /\ (k = InvokeMemory c g \/ exists stored, k = InvokeSave c g stored).
Proof.
  unfold invokeAgent. destruct (startsWith scheduledMarker content).
  - eexists. split; [reflexivity|]. split; [destruct c; reflexivity|]. right. eauto.
  - eexists. split; [reflexivity|]. split; [destruct c; reflexivity|]. left. reflexivity.
Qed.

Lemma Inv_processQueue s : Inv s -> Inv (processQueue ulid s).
Proof.
  intros [Hc Hq]. unfold processQueue.
  destruct (processing (this s)) eqn:P; [split; [rewrite P|]; assumption|].
  destruct (messageQueue (this s)) as [|msg rest] eqn:Q; [split; [rewrite P|rewrite Q]; assumption|].
  destruct (negb (isConfigured (this s))).
  - split.
    + unfold queueCalls in *. cbn. rewrite P. exact Hc.
    + unfold taken in *. cbn. rewrite map_app, <- app_assoc. exact Hq.
  - match goal with |- Inv (invokeAgent ulid FromQueue ?g ?c ?s1) =>
      destruct (invokeAgent_core FromQueue g c s1) as (k & E & Own & _);
      apply (Inv_core (suspend k s1)); [exact E|] end.
    split.
    + rewrite queueCalls_suspend, Own. unfold queueCalls in *. cbn. lia.
    + unfold taken in *. cbn. rewrite map_app, <- app_assoc. exact Hq.
Qed.

Lemma Inv_enqueue msg s : Inv s -> Inv (enqueue up msg s).
Proof.
  intros [Hc Hq]. unfold enqueue.
  destruct (isTriggered up (triggerPattern (this s)) msg).
  - split.
    + rewrite queueCalls_suspend. cbn [queueOwned]. unfold queueCalls in *. cbn.
      rewrite Nat.add_0_r. exact Hc.
    + unfold taken in *. cbn. rewrite app_assoc, Hq. reflexivity.
  - split.
    + rewrite queueCalls_suspend. cbn [queueOwned]. unfold queueCalls in *. cbn.
      rewrite Nat.add_0_r. exact Hc.
    + exact Hq.
Qed.

Lemma Inv_settle c r s :
  queueCalls s + (match c with FromQueue => 1 | FromScheduler => 0 end)
  = (if processing (this s) then 1 else 0) ->
  taken s ++ messageQueue (this s) = pushed (history s) ->
  Inv (settle c r s).
Proof.
  intros Hc Hq. destruct c; cbn [settle].
  - split; [rewrite queueCalls_suspend; exact Hc | exact Hq].
  - split; [rewrite Nat.add_0_r in Hc; exact Hc | exact Hq].
Qed.

Lemma Inv_resume n o s k :
  nth_error (pending s) n = Some k ->
  Inv s -> Inv (resume ulid k o (withPending (dropNth n (pending s)) s)).
Proof.
  intros Hn [Hc Hq].
  pose proof (filter_dropNth queueOwned n (pending s) k Hn) as D.
  fold (queueCalls s) in D.
  set (s1 := withPending (dropNth n (pending s)) s).
  assert (C1 : queueCalls s1 + (if queueOwned k then 1 else 0)
               = (if processing (this s1) then 1 else 0)).
  { unfold s1, queueCalls at 1. cbn [pending withPending this]. lia. }
  assert (Q1 : taken s1 ++ messageQueue (this s1) = pushed (history s1)) by exact Hq.
  clearbody s1. clear D Hc Hq Hn.
  destruct k as [stored | c g stored | c g | c g memory | r]; cbn [resume].
  - cbn [queueOwned] in C1. rewrite Nat.add_0_r in C1. destruct o; [|split; assumption].
    apply Inv_processQueue. split; assumption.
  - assert (C2 : queueOwned (InvokeSave c g stored)
                 = queueOwned (InvokeMemory c g)) by (destruct c; reflexivity).
    destruct o.
    + split; [|exact Q1]. rewrite queueCalls_suspend, <- C2. exact C1.
    + apply Inv_settle; [|exact Q1]. destruct c; exact C1.
  - split; [|exact Q1]. rewrite queueCalls_suspend.
    replace (queueOwned (InvokeBuild c g _)) with (queueOwned (InvokeMemory c g))
      by (destruct c; reflexivity). exact C1.
  - destruct o.
    + apply Inv_settle; [|destruct c; exact Q1]. destruct c; exact C1.
    + apply Inv_settle; [|exact Q1]. destruct c; exact C1.
  - cbn [queueOwned] in C1. unfold finallyProcessQueue.
    assert (I : Inv (updThis (withProcessing false) s1)).
    { split; [|exact Q1]. unfold queueCalls in *. cbn.
      destruct (processing (this s1)); lia. }
    cbn [this updThis withProcessing messageQueue].
    destruct (messageQueue (this s1)) eqn:Q; [exact I|].
    apply Inv_processQueue. exact I.
Qed.


(** ** The handlers leave the queue alone *)

Lemma keeps_oret {A} (a : A) : keeps (oret a).
Proof. intro s. reflexivity. Qed.

Lemma keeps_obind {A B} (m : Handler A) (k : A -> Handler B) :
  keeps m -> (forall a, keeps (k a)) -> keeps (obind m k).
Proof.
  intros Hm Hk s. unfold obind. specialize (Hm s).
  destruct (m s) as [[a|e] s1]; cbn [snd] in *; [|exact Hm].
  rewrite Hk. exact Hm.
Qed.

Lemma keeps_lift (f : Sys -> Sys) :
  (forall s, core (f s) = core s) -> keeps (lift f).
Proof. intros H s. apply H. Qed.

Lemma keeps_failing fault : keeps (failing fault).
Proof. intro s. unfold failing. destruct fault; reflexivity. Qed.

Lemma keeps_oget : keeps oget.
Proof. intro s. reflexivity. Qed.

Lemma keeps_otry body handler :
  keeps body -> (forall e, keeps (handler e)) -> keeps (otry body handler).
Proof.
  intros Hm Hk s. unfold otry. specialize (Hm s).
  destruct (body s) as [[a|e] s1]; cbn [snd] in *; [exact Hm|].
  rewrite Hk. exact Hm.
Qed.

Lemma keeps_freshUlid : keeps (freshUlid ulid).
Proof. intro s. reflexivity. Qed.

Ltac keeps_step :=
  first
    [ apply keeps_oret | apply keeps_failing | apply keeps_oget
    | apply keeps_freshUlid
    | apply keeps_lift; intro; reflexivity
    | apply keeps_obind; [|intro]
    | apply keeps_otry; [|intro]
    | match goal with
      | |- keeps (if ?b then _ else _) => destruct b
      | |- keeps (match ?x with _ => _ end) => destruct x
      end ].

Lemma keeps_deliverResponse f g text : keeps (deliverResponse ulid f g text).
Proof.
  unfold deliverResponse, saveMessage, routerSend. repeat keeps_step.
Qed.

Lemma keeps_handleCompactDone f g summary :
  keeps (handleCompactDone ulid f g summary).
Proof.
  unfold handleCompactDone, saveMessage, clearGroupMessages. repeat keeps_step.
Qed.

Lemma keeps_handleWorkerMessage f m : keeps (handleWorkerMessage ulid f m).
Proof.
  destruct m; cbn [handleWorkerMessage];
    try apply keeps_deliverResponse; try apply keeps_handleCompactDone;
    unfold saveTask; repeat keeps_step.
Qed.

Lemma keeps_compactContext f g : keeps (compactContext f g).
Proof. unfold compactContext. repeat keeps_step. Qed.

Lemma keeps_newSession f g : keeps (newSession f g).
Proof. unfold newSession, clearGroupMessages. repeat keeps_step. Qed.

Lemma core_setAssistantName v s : core (setAssistantName v s) = core s.
Proof.
  unfold setAssistantName. destruct (Config.buildTriggerPattern v); reflexivity.
Qed.

(** ** Every interleaving keeps the discipline *)

Lemma Inv_step s i : Inv s -> Inv (step up ulid s i).
Proof.
  intro I. destruct i; cbn [step].
  - apply Inv_enqueue. exact I.
  - destruct (nth_error (pending s) i) as [k|] eqn:Hn; [|exact I].
    apply Inv_resume; assumption.
  - apply (Inv_core (snd (handleWorkerMessage ulid f m s))); [reflexivity|].
    apply (Inv_core s); [apply keeps_handleWorkerMessage | exact I].
  - destruct (invokeAgent_core FromScheduler groupId (scheduledMarker ++ prompt) s)
      as (k & E & Own & _).
    apply (Inv_core (suspend k s)); [exact E|]. destruct I as [Hc Hq].
    split; [rewrite queueCalls_suspend, Own, Nat.add_0_r; exact Hc | exact Hq].
  - apply (Inv_core s); [apply keeps_compactContext | exact I].
  - apply (Inv_core s); [apply keeps_newSession | exact I].
  - apply (Inv_core s); [reflexivity | exact I].
  - apply (Inv_core s); [reflexivity | exact I].
  - apply (Inv_core s); [reflexivity | exact I].
  - apply (Inv_core s); [reflexivity | exact I].
  - apply (Inv_core s); [apply core_setAssistantName | exact I].
  - apply (Inv_core s); [reflexivity | exact I].
Qed.

Lemma Inv_run inputs s : Inv s -> Inv (run up ulid s inputs).
Proof.
  revert s. induction inputs as [|i inputs IH]; intros s I; [exact I|].
  cbn [run fold_left]. apply IH, Inv_step, I.
Qed.

Lemma Inv_initial cfg store : Inv (initial cfg store).
Proof. split; reflexivity. Qed.


(** ** The flag comes down *)

Lemma load_core s s' : core s' = core s -> load s' = load s.
Proof.
  unfold core, load. intro E. injection E as E1 E2 E3 E4 E5.
  rewrite E1, E2, E3. reflexivity.
Qed.

Lemma phase_owned k : queueOwned k = true -> 1 <= phase k <= 4.
Proof. destruct k as [|[]|[]|[]|]; cbn; intro; try discriminate; lia. Qed.

Lemma phase_other k : queueOwned k = false -> phase k = 0.
Proof. destruct k as [|[]|[]|[]|]; cbn; intro; try discriminate; reflexivity. Qed.

Lemma phases_none l : List.length (filter queueOwned l) = 0 -> phases l = 0.
Proof.
  unfold phases. induction l as [|k l IH]; [reflexivity|].
  cbn [filter map]. destruct (queueOwned k) eqn:O; [discriminate|].
  intro H. change (list_sum (phase k :: map phase l))
    with (phase k + list_sum (map phase l)).
  rewrite (phase_other k O), (IH H). reflexivity.
Qed.

Lemma phases_cons k l : phases (k :: l) = phase k + phases l.
Proof. reflexivity. Qed.

Lemma phases_app a b : phases (a ++ b) = phases a + phases b.
Proof. unfold phases. rewrite map_app, list_sum_app. reflexivity. Qed.

Lemma ownedIndex_found l :
  1 <= List.length (filter queueOwned l) ->
  exists i k, ownedIndex l = Some i /\ nth_error l i = Some k
              /\ queueOwned k = true.
Proof.
  induction l as [|x l IH]; cbn [filter List.length ownedIndex]; [lia|].
  destruct (queueOwned x) eqn:O.
  - intros _. exists 0, x. auto.
  - intro H. destruct (IH H) as (i & k & E & N & Ok).
    exists (S i), k. rewrite E. auto.
Qed.

Lemma load_suspend k s :
  processing (this s) = true ->
  load (suspend k s)
  = 4 * List.length (messageQueue (this s)) + phases (pending s) + phase k.
Proof.
  intro P. unfold load, suspend. cbn [this withPending pending]. rewrite P.
  rewrite phases_app. unfold phases at 2. cbn. lia.
Qed.

Lemma load_processQueue s :
  processing (this s) = false -> phases (pending s) = 0 ->
  load (processQueue ulid s) <= 4 * List.length (messageQueue (this s)).
Proof.
  intros P Z. unfold processQueue. rewrite P.
  destruct (messageQueue (this s)) as [|msg rest] eqn:Q.
  { unfold load. rewrite P. lia. }
  destruct (negb (isConfigured (this s))).
  - unfold load. cbn. rewrite P. lia.
  - match goal with |- load (invokeAgent ulid FromQueue ?g ?c ?s1) <= _ =>
      destruct (invokeAgent_core FromQueue g c s1) as (k & E & Own & _);
      rewrite (load_core _ _ E); rewrite load_suspend by reflexivity end.
    cbn [this updThis updHistory withQueue withProcessing messageQueue pending].
    rewrite Z. pose proof (phase_owned k Own). cbn [List.length]. lia.
Qed.

Ltac susp :=
  match goal with
  | P1 : processing (this ?s1) = true, Z1 : phases (pending ?s1) = 0 |- _ =>
      rewrite load_suspend by exact P1;
      cbn [this pending emit effect withDb updHistory messageQueue phase];
      rewrite Z1; lia
  end.

Lemma load_resume n o s k :
  nth_error (pending s) n = Some k -> queueOwned k = true ->
  Inv s -> processing (this s) = true ->
  load (resume ulid k o (withPending (dropNth n (pending s)) s)) < load s.
Proof.
  intros Hn Own [Hc Hq] P.
  pose proof (filter_dropNth queueOwned n (pending s) k Hn) as D.
  fold (queueCalls s) in D. rewrite Hc, P, Own in D.
  assert (Z : phases (dropNth n (pending s)) = 0) by (apply phases_none; lia).
  assert (L : load s = 4 * List.length (messageQueue (this s)) + phase k).
  { unfold load. rewrite P. f_equal. clear - Hn Z.
    revert n Hn Z. induction (pending s) as [|x l IH]; intros [|n] Hn Z;
      cbn in Hn; try discriminate.
    - injection Hn as ->. cbn [dropNth] in Z. rewrite phases_cons, Z. lia.
    - cbn [dropNth] in Z. rewrite phases_cons in *.
      rewrite (IH n Hn); lia. }
  rewrite L. clear L D Hc Hq.
  set (s1 := withPending (dropNth n (pending s)) s).
  assert (P1 : processing (this s1) = true) by exact P.
  assert (Z1 : phases (pending s1) = 0) by exact Z.
  assert (Q1 : messageQueue (this s1) = messageQueue (this s)) by reflexivity.
  rewrite <- Q1. clearbody s1. clear Hn Z P Q1.
  destruct k as [stored | [] g stored | [] g | [] g memory | r];
    try discriminate Own; cbn [resume phase].
  - destruct o; cbn [settle]; susp.
  - susp.
  - destruct o; cbn [settle]; susp.
  - unfold finallyProcessQueue.
    cbn [this updThis withProcessing messageQueue].
    destruct (messageQueue (this s1)) as [|msg rest] eqn:Q.
    + unfold load. cbn. lia.
    + pose proof (load_processQueue (updThis (withProcessing false) s1)
                    eq_refl Z1) as B.
      cbn [this updThis withProcessing messageQueue] in B. rewrite Q in B.
      cbn [List.length] in *. lia.
Qed.

Lemma drain_releases oracle fuel s :
  Inv s -> load s <= fuel ->
  processing (this (drain up ulid oracle fuel s)) = false.
Proof.
  revert s. induction fuel as [|fuel IH]; intros s I Hl.
  - cbn [drain]. destruct (processing (this s)) eqn:P; [|reflexivity].
    exfalso. destruct I as [Hc Hq]. pose proof Hc as Hc'. rewrite P in Hc'.
    destruct (ownedIndex_found (pending s)) as (i & k & _ & Hn & Own).
    { unfold queueCalls in Hc'. lia. }
    pose proof (load_resume i (oracle 0) s k Hn Own (conj Hc Hq) P).
    lia.
  - cbn [drain]. destruct (processing (this s)) eqn:P; [|exact P].
    destruct I as [Hc Hq]. pose proof Hc as Hc'. rewrite P in Hc'.
    destruct (ownedIndex_found (pending s)) as (i & k & E & Hn & Own).
    { unfold queueCalls in Hc'. lia. }
    rewrite E. apply IH.
    + apply Inv_step. split; assumption.
    + cbn [step]. rewrite Hn.
      pose proof (load_resume i (oracle fuel) s k Hn Own (conj Hc Hq) P). lia.
Qed.


Lemma phases_bound l : phases l <= 4 * List.length (filter queueOwned l).
Proof.
  induction l as [|k l IH]; [cbn; lia|]. rewrite phases_cons. cbn [filter].
  destruct (queueOwned k) eqn:O.
  - pose proof (phase_owned k O). cbn [List.length]. lia.
  - rewrite (phase_other k O). lia.
Qed.

(** What the [processing] flag does hold. In every state the coordinator
    can reach, whatever the interleaving of inbound messages, resumptions,
    worker envelopes, scheduled invocations and settings, at most one call
    of [invokeAgent] made by [processQueue] is under way, and the flag is up
    exactly then; [processQueue] does nothing while the flag is up; and the
    flag always comes down: with no further input, whether the awaited
    calls return or throw, it is down after at most four resumptions per
    queued message and four more. The call returns when the [invoke]
    envelope is posted: the worker's run is not under the flag. *)
Lemma flag_covers_the_call (cfg : Fields) (store : Db.Store) (inputs : list Input)
        (oracle : nat -> Outcome) :
  let s := run up ulid (initial cfg store) inputs in
  queueCalls s <= 1
  /\ (processing (this s) = true <-> queueCalls s = 1)
  /\ (processing (this s) = true -> processQueue ulid s = s)
  /\ processing
       (this (drain up ulid oracle
                    (4 * List.length (messageQueue (this s)) + 4) s)) = false.
Proof.
  intro s. assert (I : Inv s) by apply Inv_run, Inv_initial.
  pose proof I as [Hc Hq].
  split; [rewrite Hc; destruct (processing (this s)); lia|].
  split; [rewrite Hc; destruct (processing (this s)); split; congruence|].
  split.
  - intro P. unfold processQueue. rewrite P. reflexivity.
  - apply drain_releases; [exact I|]. unfold load.
    destruct (processing (this s)); [|lia].
    pose proof (phases_bound (pending s)) as B. fold (queueCalls s) in B.
    rewrite Hc in B. lia.
Qed.

(** ** First in, first out *)

Lemma pushed_processQueue s :
  pushed (history (processQueue ulid s)) = pushed (history s).
Proof.
  unfold processQueue, invokeAgent.
  destruct (processing (this s)); [reflexivity|].
  destruct (messageQueue (this s)); [reflexivity|].
  destruct (negb (isConfigured (this s))); [reflexivity|].
  destruct (startsWith scheduledMarker _); reflexivity.
Qed.

Lemma pushed_step s i :
  pushed (history (step up ulid s i))
  = pushed (history s)
    ++ match i with
       | Inbound msg =>
           if isTriggered up (triggerPattern (this s)) msg then [msg] else []
       | _ => []
       end.
Proof.
  assert (K : forall s', core s' = core s ->
                         pushed (history s') = pushed (history s) ++ []).
  { intros s' E. rewrite app_nil_r. unfold core in E. congruence. }
  destruct i; cbn [step].
  - unfold enqueue. destruct (isTriggered up (triggerPattern (this s)) msg);
      [reflexivity | rewrite app_nil_r; reflexivity].
  - rewrite app_nil_r. destruct (nth_error (pending s) i) as [k|]; [|reflexivity].
    destruct k as [stored | c g stored | c g | c g memory | r]; cbn [resume].
    + destruct o; [|reflexivity]. rewrite pushed_processQueue. reflexivity.
    + destruct o; destruct c; reflexivity.
    + reflexivity.
    + destruct o; destruct c; reflexivity.
    + unfold finallyProcessQueue. cbn [this updThis withProcessing messageQueue withPending].
      destruct (messageQueue (this s)); [reflexivity|].
      rewrite pushed_processQueue. reflexivity.
  - apply K. apply (keeps_handleWorkerMessage f m s).
  - rewrite app_nil_r. unfold invokeAgent.
    destruct (startsWith scheduledMarker _); reflexivity.
  - apply K, keeps_compactContext.
  - apply K, keeps_newSession.
  - apply K; reflexivity.
  - apply K; reflexivity.
  - apply K; reflexivity.
  - apply K; reflexivity.
  - apply K, core_setAssistantName.
  - apply K; reflexivity.
Qed.

Lemma pushed_run inputs s :
  pushed (history (run up ulid s inputs))
  = pushed (history s) ++ arrivals up ulid s inputs.
Proof.
  revert s. induction inputs as [|i inputs IH]; intro s.
  - cbn. rewrite app_nil_r. reflexivity.
  - cbn [run fold_left arrivals]. fold (run up ulid (step up ulid s i) inputs).
    rewrite IH, pushed_step, <- app_assoc. reflexivity.
Qed.

Lemma nth_error_filter {A} (f : A -> bool) l j b :
  nth_error (filter f l) j = Some b -> exists j', nth_error l j' = Some b.
Proof.
  intro H. apply nth_error_In in H. apply filter_In in H. destruct H as [H _].
  apply In_nth_error in H. exact H.
Qed.

Lemma filter_keeps_order {A} (f : A -> bool) l i j a b :
  i < j -> nth_error (filter f l) i = Some a -> nth_error (filter f l) j = Some b ->
  exists i' j', i' < j' /\ nth_error l i' = Some a /\ nth_error l j' = Some b.
Proof.
  revert i j. induction l as [|x l IH]; intros i j Lt Ha Hb.
  - destruct i; discriminate Ha.
  - cbn [filter] in Ha, Hb. destruct (f x).
    + destruct j as [|j]; [lia|]. cbn [nth_error] in Hb. destruct i as [|i].
      * cbn in Ha. injection Ha as ->.
        destruct (nth_error_filter f l j b Hb) as (j' & Hj).
        exists 0, (S j'). repeat split; [lia | exact Hj].
      * cbn [nth_error] in Ha.
        destruct (IH i j ltac:(lia) Ha Hb) as (i' & j' & L & A1 & B1).
        exists (S i'), (S j'). repeat split; [lia | exact A1 | exact B1].
    + destruct (IH i j Lt Ha Hb) as (i' & j' & L & A1 & B1).
      exists (S i'), (S j'). repeat split; [lia | exact A1 | exact B1].
Qed.

(** C5. The messages pushed on the queue are the inbound messages that pass
    the trigger check, in order of arrival; at every moment the messages
    taken from the queue, in the order they were taken, followed by those
    still waiting, are exactly the messages pushed: the k-th message to leave
    the queue is the k-th that entered it. So of two messages for which the
    agent was invoked, the one invoked first arrived first. *)
Theorem queue_is_fifo (cfg : Fields) (store : Db.Store) (inputs : list Input) :
  let s := run up ulid (initial cfg store) inputs in
  let arrived := arrivals up ulid (initial cfg store) inputs in
  pushed (history s) = arrived
  /\ taken s ++ messageQueue (this s) = arrived
  /\ (forall k m, nth_error (taken s) k = Some m -> nth_error arrived k = Some m)
  /\ (forall i j m1 m2,
         i < j ->
         nth_error (invoked s) i = Some m1 -> nth_error (invoked s) j = Some m2 ->
         exists i' j', i' < j' /\ nth_error arrived i' = Some m1
                       /\ nth_error arrived j' = Some m2).
Proof.
  intros s arrived.
  assert (P : pushed (history s) = arrived) by apply (pushed_run inputs (initial cfg store)).
  destruct (Inv_run inputs (initial cfg store) (Inv_initial cfg store)) as [_ Hq].
  fold s in Hq. rewrite P in Hq.
  assert (Pre : forall k m, nth_error (taken s) k = Some m
                            -> nth_error arrived k = Some m).
  { intros k m H. rewrite <- Hq. rewrite nth_error_app1; [exact H|].
    apply nth_error_Some. congruence. }
  split; [exact P|]. split; [exact Hq|]. split; [exact Pre|].
  intros i j m1 m2 Lt H1 H2. unfold invoked in H1, H2.
  rewrite nth_error_map in H1, H2.
  destruct (nth_error (filter snd (shifted (history s))) i) as [[a fa]|] eqn:E1;
    [|discriminate].
  destruct (nth_error (filter snd (shifted (history s))) j) as [[b fb]|] eqn:E2;
    [|discriminate].
  cbn in H1, H2. injection H1 as ->. injection H2 as ->.
  destruct (filter_keeps_order snd _ i j _ _ Lt E1 E2) as (i' & j' & L & A1 & B1).
  exists i', j'. split; [exact L|]. split; apply Pre; unfold taken;
    rewrite nth_error_map; [rewrite A1 | rewrite B1]; reflexivity.
Qed.


(** ** A message taken from the queue is never put back *)

Lemma shifted_processQueue s :
  exists extra, shifted (history (processQueue ulid s))
                = shifted (history s) ++ extra.
Proof.
  unfold processQueue, invokeAgent.
  destruct (processing (this s)); [exists []; rewrite app_nil_r; reflexivity|].
  destruct (messageQueue (this s)) as [|msg rest];
    [exists []; rewrite app_nil_r; reflexivity|].
  destruct (negb (isConfigured (this s))); [eexists; reflexivity|].
  destruct (startsWith scheduledMarker _); eexists; reflexivity.
Qed.

Lemma shifted_step s i :
  exists extra, shifted (history (step up ulid s i)) = shifted (history s) ++ extra.
Proof.
  assert (K : forall s', core s' = core s ->
                exists extra, shifted (history s') = shifted (history s) ++ extra).
  { intros s' E. exists []. rewrite app_nil_r. unfold core in E. congruence. }
  assert (Z : forall s', shifted (history s') = shifted (history s) ->
                exists extra, shifted (history s') = shifted (history s) ++ extra).
  { intros s' E. exists []. rewrite app_nil_r. exact E. }
  destruct i; cbn [step].
  - apply Z. unfold enqueue.
    destruct (isTriggered up (triggerPattern (this s)) msg); reflexivity.
  - destruct (nth_error (pending s) i) as [k|]; [|apply Z; reflexivity].
    destruct k as [stored | c g stored | c g | c g memory | r]; cbn [resume].
    + destruct o; [|apply Z; reflexivity]. match goal with
      | |- exists extra, shifted (history (processQueue ulid ?x)) = _ =>
          destruct (shifted_processQueue x) as (e & E); exists e; rewrite E;
          reflexivity
      end.
    + apply Z. destruct o; destruct c; reflexivity.
    + apply Z. reflexivity.
    + apply Z. destruct o; destruct c; reflexivity.
    + unfold finallyProcessQueue.
      cbn [this updThis withProcessing messageQueue withPending].
      destruct (messageQueue (this s)); [apply Z; reflexivity|].
      match goal with
      | |- exists extra, shifted (history (processQueue ulid ?x)) = _ =>
          destruct (shifted_processQueue x) as (e & E); exists e; rewrite E;
          reflexivity
      end.
  - apply K. apply (keeps_handleWorkerMessage f m s).
  - apply Z. unfold invokeAgent.
    destruct (startsWith scheduledMarker _); reflexivity.
  - apply K, keeps_compactContext.
  - apply K, keeps_newSession.
  - apply K; reflexivity.
  - apply K; reflexivity.
  - apply K; reflexivity.
  - apply K; reflexivity.
  - apply K, core_setAssistantName.
  - apply K; reflexivity.
Qed.

Lemma shifted_run inputs s :
  exists later, shifted (history (run up ulid s inputs))
                = shifted (history s) ++ later.
Proof.
  revert s. induction inputs as [|i inputs IH]; intro s.
  - exists []. rewrite app_nil_r. reflexivity.
  - cbn [run fold_left]. fold (run up ulid (step up ulid s i) inputs).
    destruct (IH (step up ulid s i)) as (l2 & E2).
    destruct (shifted_step s i) as (l1 & E1).
    exists (l1 ++ l2). rewrite E2, E1, app_assoc. reflexivity.
Qed.

Lemma len_zero (x : jsstring) : (0 <? len x)%N = false <-> x = [].
Proof.
  unfold len. destruct x as [|c r]; cbn [List.length]; split; intro H;
    try reflexivity; discriminate.
Qed.

(** C8. [processQueue] on an idle coordinator with a message at the head of
    the queue and no configured backend (an empty API key for Anthropic, a
    blank URL for Ollama): the head leaves the queue, one configuration
    error for its group is emitted, nothing is posted to the worker, no call
    is left suspended, the flag stays down; and in every continuation of the
    run the message stays recorded as taken without invocation, so it is
    never tried again. *)
Theorem unconfigured_head_dropped (s : Sys) (msg : InboundMessage.t)
        (rest : list InboundMessage.t) (inputs : list Input) :
  processing (this s) = false ->
  messageQueue (this s) = msg :: rest ->
  isConfigured (this s) = false ->
  let s' := processQueue ulid s in
  match provider (this s) with
  | anthropic => apiKey (this s) = []
  | ollama => trim (ollamaUrl (this s)) = []
  end
  /\ messageQueue (this s') = rest
  /\ effects s'
     = effects s
       ++ [Emit (EvError (InboundMessage.groupId msg)
                         (match provider (this s) with
                          | anthropic => apiKeyMissing
                          | ollama => ollamaUrlMissing
                          end))]
  /\ pending s' = pending s
  /\ processing (this s') = false
  /\ state (this s') = state (this s)
  /\ db s' = db s
  /\ shifted (history s') = shifted (history s) ++ [(msg, false)]
  /\ exists later,
       shifted (history (run up ulid s' inputs))
       = shifted (history s) ++ (msg, false) :: later.
Proof.
  intros P Q C s'.
  assert (E : s' = emit (EvError (InboundMessage.groupId msg)
                           (match provider (this s) with
                            | anthropic => apiKeyMissing
                            | ollama => ollamaUrlMissing
                            end))
                        (updHistory (noteShifted msg false)
                                    (updThis (withQueue rest) s))).
  { unfold s', processQueue. rewrite P, Q, C. reflexivity. }
  split.
  { unfold isConfigured in C. destruct (provider (this s)); apply len_zero, C. }
  rewrite E. cbn. repeat split; auto.
  destruct (shifted_run inputs s') as (later & L). exists later.
  rewrite E in L. cbn in L. rewrite <- app_assoc in L. exact L.
Qed.

(** ** The handlers of completions *)

Lemma ofGroup_cleared g store : Db.ofGroup g (Db.clearGroupMessages g store) = [].
Proof.
  unfold Db.ofGroup, Db.clearGroupMessages. induction store as [|m store IH];
    [reflexivity|]. cbn [filter].
  destruct (JS.eqb (StoredMessage.groupId m) g) eqn:E; cbn [negb]; [exact IH|].
  cbn [filter]. rewrite E. exact IH.
Qed.

Lemma ofGroup_other g g' store :
  g' <> g -> Db.ofGroup g' (Db.clearGroupMessages g store) = Db.ofGroup g' store.
Proof.
  intro N. unfold Db.ofGroup, Db.clearGroupMessages.
  induction store as [|m store IH]; [reflexivity|]. cbn [filter].
  destruct (JS.eqb (StoredMessage.groupId m) g) eqn:E; cbn [negb].
  - apply str_eqb_eq in E.
    destruct (JS.eqb (StoredMessage.groupId m) g') eqn:E'.
    + apply str_eqb_eq in E'. congruence.
    + exact IH.
  - cbn [filter]. destruct (JS.eqb (StoredMessage.groupId m) g'); [f_equal|]; exact IH.
Qed.

Lemma ofGroup_app g a b : Db.ofGroup g (a ++ b) = Db.ofGroup g a ++ Db.ofGroup g b.
Proof. apply filter_app. Qed.

(** With the store accepting the two writes, handling the summary clears
    the group, stores the summary message and ends idle. *)
Lemma handleCompactDone_done (f : Faults) (s : Sys) (g summary : jsstring) :
  clearFault f = None -> saveMessageFault f = None ->
  let r := handleCompactDone ulid f g summary s in
  db (snd r) = Db.clearGroupMessages g (db s)
               ++ [assistantMessage ulid s g (compactedText summary)]
  /\ fst r = Ok tt /\ state (this (snd r)) = idle.
Proof.
  intros Hc Hs r.
  unfold r, handleCompactDone, clearGroupMessages,
    saveMessage, obind, failing, lift, oget, freshUlid.
  rewrite Hc, Hs. cbn. auto.
Qed.

(** C3. With the store accepting the two writes, handling [compact-done]
    for a group puts in place of its stored messages, however many, exactly
    one new stored message of the assistant whose content ends with the
    summary text; the stored messages of the other groups stay; a window
    built afterwards for the group, of any positive size, holds that message
    only; and the state is [idle]. *)
Theorem compact_done_replaces_history (f : Faults) (s : Sys) (g summary : jsstring) :
  clearFault f = None -> saveMessageFault f = None ->
  let r := handleWorkerMessage ulid f (CompactDone g summary) s in
  let stored := assistantMessage ulid s g (compactedText summary) in
  fst r = Ok tt
  /\ db (snd r) = Db.clearGroupMessages g (db s) ++ [stored]
  /\ Db.ofGroup g (db (snd r)) = [stored]
  /\ (forall g', g' <> g -> Db.ofGroup g' (db (snd r)) = Db.ofGroup g' (db s))
  /\ (forall limit, 1 <= limit ->
        Db.getRecentMessages g limit (db (snd r)) = [stored])
  /\ Db.buildConversationMessages g Config.CONTEXT_WINDOW_SIZE (db (snd r))
     = [Db.toConversation stored]
  /\ (exists prefix, StoredMessage.content stored = prefix ++ summary)
  /\ state (this (snd r)) = idle.
Proof.
  intros Hc Hs r stored.
  destruct (handleCompactDone_done f s g summary Hc Hs) as (E & Er & Es).
  fold stored in E. change (handleCompactDone ulid f g summary s) with r in *.
  assert (G : Db.ofGroup g (db (snd r)) = [stored]).
  { rewrite E, ofGroup_app, ofGroup_cleared. cbn.
    unfold StoredMessage.groupId. cbn. rewrite str_eqb_refl. reflexivity. }
  assert (W : forall limit, 1 <= limit ->
                Db.getRecentMessages g limit (db (snd r)) = [stored]).
  { intros limit L. unfold Db.getRecentMessages. rewrite G. cbn.
    unfold Db.lastN. destruct limit as [|limit]; [lia|]. reflexivity. }
  split; [exact Er|]. split; [exact E|]. split; [exact G|]. split.
  { intros g' N. rewrite E, ofGroup_app, (ofGroup_other g g' (db s) N). cbn.
    unfold StoredMessage.groupId. cbn.
    destruct (JS.eqb g g') eqn:X; [apply str_eqb_eq in X; congruence|].
    apply app_nil_r. }
  split; [exact W|]. split.
  { unfold Db.buildConversationMessages. rewrite W; [reflexivity|].
    unfold Config.CONTEXT_WINDOW_SIZE. lia. }
  split; [|exact Es].
  eexists. unfold stored, assistantMessage, StoredMessage.content, compactedText.
  cbn [StoredMessage.inbound InboundMessage.content].
  rewrite !app_assoc. reflexivity.
Qed.

(** With the store and the router accepting the calls, delivering a text
    stores it as one message of the assistant, sends it, and ends idle. *)
Lemma deliverResponse_done (f : Faults) (s : Sys) (g text : jsstring) :
  saveMessageFault f = None -> routerSendFault f = None ->
  let r := deliverResponse ulid f g text s in
  fst r = Ok tt
  /\ db (snd r) = db s ++ [assistantMessage ulid s g text]
  /\ In (RouterSend g text) (effects (snd r))
  /\ state (this (snd r)) = idle.
Proof.
  intros Hs Hr r.
  unfold r, deliverResponse, saveMessage, routerSend, obind, failing, lift,
    oget, freshUlid.
  rewrite Hs, Hr. cbn.
  destruct (hasGroup g (pendingScheduledTasks (this s))); cbn;
    (repeat split; auto; rewrite !in_app_iff; cbn; tauto).
Qed.

End CoordinatorProps.

Section Witnesses.

Import Orchestrator Flight Samples.

(** C1, on the code: the queue path puts two invocations in flight at once.
    After two messages were each taken through the queue to the end, with
    no envelope received from the worker, both [invoke] envelopes are posted
    and the flag is down. When the first answer arrives the coordinator is
    idle although the second invocation is still at the worker, and a
    compaction of the same group, which [compactContext] refuses unless the
    state is idle, is accepted on top of it. *)
Theorem two_invocations_in_flight :
  let s := run Mention.plainUpper sampleUlid configured backToBack in
  let answered :=
    step Mention.plainUpper sampleUlid s
         (FromWorker (Response (lit "br:main") (lit "one")) noFaults) in
  let compacting :=
    step Mention.plainUpper sampleUlid answered
         (CompactRequest (lit "br:main") noFaults) in
  awaitingWorker s = 2
  /\ handled (history s) = []
  /\ processing (this s) = false
  /\ List.length (filter (fun e => match e with
                                   | PostMessage (Invoke _) => true
                                   | _ => false
                                   end) (effects s)) = 2
  /\ state (this answered) = idle
  /\ awaitingWorker answered = 1
  /\ state (this compacting) = thinking
  /\ awaitingWorker compacting = 1
  /\ List.length (filter (fun e => match e with
                                   | PostMessage (Compact _) => true
                                   | _ => false
                                   end) (effects compacting)) = 1.
Proof. repeat split; reflexivity. Qed.

Lemma queue_is_fifo_witness :
  let s := run Mention.plainUpper sampleUlid configured burst in
  nth_error (taken s) 1 = Some (browserMessage "b" "second")
  /\ nth_error (arrivals Mention.plainUpper sampleUlid configured burst) 1
     = Some (browserMessage "b" "second").
Proof.
  intro s. split; [reflexivity|].
  apply (proj1 (proj2 (proj2 (queue_is_fifo Mention.plainUpper sampleUlid
                                (sampleFields (lit "sk-test")) [] burst)))).
  reflexivity.
Defined.

Lemma unconfigured_head_dropped_witness :
  messageQueue (this (processQueue sampleUlid unconfigured)) = []
  /\ processing (this (processQueue sampleUlid unconfigured)) = false.
Proof.
  pose proof (unconfigured_head_dropped Mention.plainUpper sampleUlid unconfigured
                (browserMessage "a" "first") [] [] eq_refl eq_refl eq_refl) as H.
  split; [exact (proj1 (proj2 H)) | exact (proj1 (proj2 (proj2 (proj2 (proj2 H)))))].
Defined.

Lemma compact_done_replaces_history_witness :
  let r := handleWorkerMessage sampleUlid noFaults
             (CompactDone (lit "br:main") (lit "We said hello.")) withHistory in
  List.length (Db.ofGroup (lit "br:main") (db withHistory)) = 3
  /\ List.length (Db.ofGroup (lit "br:main") (db (snd r))) = 1
  /\ state (this (snd r)) = idle.
Proof.
  intro r.
  pose proof (compact_done_replaces_history sampleUlid noFaults withHistory
                (lit "br:main") (lit "We said hello.") eq_refl eq_refl) as H.
  split; [reflexivity|]. split.
  - unfold r. rewrite (proj1 (proj2 (proj2 H))). reflexivity.
  - exact (proj2 (proj2 (proj2 (proj2 (proj2 (proj2 (proj2 H))))))).
Defined.

End Witnesses.

(** C6, on the code. The store rejecting the write (the quota is used up),
    each of the three completions leaves the coordinator in [thinking]: the
    handler stops at [await saveMessage(stored)] and [setState('idle')] is
    never reached. *)
Theorem completion_can_leave_thinking :
  let stuck m :=
    let r := Orchestrator.handleWorkerMessage Flight.sampleUlid Flight.storeFails m
               Flight.thinkingSys in
    fst r = Throw (ErrorObj (lit "QuotaExceededError"))
    /\ Orchestrator.state (Orchestrator.this (snd r)) = thinking in
  stuck (Response Config.DEFAULT_GROUP_ID (lit "hi"))
  /\ stuck (Error Config.DEFAULT_GROUP_ID Samples.backendError)
  /\ stuck (CompactDone Config.DEFAULT_GROUP_ID (lit "summary")).
Proof. repeat split; reflexivity. Qed.

(** With the collaborators accepting every call, the three completions do
    end in [idle]. *)
Lemma completion_reaches_idle (ulid : N -> jsstring) (f : Orchestrator.Faults)
      (s : Orchestrator.Sys) (m : WorkerOutbound) :
  Orchestrator.saveMessageFault f = None ->
  Orchestrator.routerSendFault f = None ->
  Orchestrator.clearFault f = None ->
  Observe.isCompletion m = true ->
  Orchestrator.state
    (Orchestrator.this (snd (Orchestrator.handleWorkerMessage ulid f m s))) = idle.
Proof.
  intros Hs Hr Hc Hm. destruct m; try discriminate Hm; cbn [Orchestrator.handleWorkerMessage].
  - apply (deliverResponse_done ulid f s groupId text Hs Hr).
  - apply (deliverResponse_done ulid f s groupId _ Hs Hr).
  - apply (handleCompactDone_done ulid f s groupId summary Hc Hs).
Qed.

(** C7 (as amended). A round trip answered with a non-success status makes
    the invocation end with one error envelope, its only completion,
    carrying the status and the body; the coordinator, the store and the
    router accepting the calls, sends the reply ["<warning sign> Error:
    <error>"] to the group, appends that reply to the store as one message
    of the assistant, after the messages stored before, and ends idle. *)
Theorem backend_error_reply {World : Type} (host : Worker.Host World)
        (p : InvokePayload.t) (w : World) (ulid : N -> jsstring)
        (f : Orchestrator.Faults) (s : Orchestrator.Sys)
        (before : list Worker.Trip) (status : N) (body : jsstring) :
  (Worker.backendLog (snd (Observe.runAnthropic host p w))
   = before ++ [Worker.TripStatus status (Ok body)] ->
   Observe.endsWith (snd (Observe.runAnthropic host p w))
     (Error (InvokePayload.groupId p)
            (lit "Anthropic API error " ++ ofN status ++ lit ": " ++ body)))
  /\ (Worker.backendLog (snd (Observe.runOllama host p w))
      = before ++ [Worker.TripStatus status (Ok body)] ->
      Observe.endsWith (snd (Observe.runOllama host p w))
        (Error (InvokePayload.groupId p)
               (lit "Ollama API error " ++ ofN status ++ lit ": " ++ body)))
  /\ (forall g error,
         Orchestrator.saveMessageFault f = None ->
         Orchestrator.routerSendFault f = None ->
         let r := Orchestrator.handleWorkerMessage ulid f (Error g error) s in
         fst r = Ok tt
         /\ Orchestrator.db (snd r)
            = Orchestrator.db s
              ++ [QueueSpec.assistantMessage ulid s g (Orchestrator.errorReply error)]
         /\ In (Orchestrator.RouterSend g (Orchestrator.errorReply error))
               (Orchestrator.effects (snd r))
         /\ Orchestrator.state (Orchestrator.this (snd r)) = idle).
Proof.
  split; [|split].
  - intro L.
    apply (backend_error_envelope _ _ _ _ _ _ _ _ _ (runAnthropic_spec host p w) L).
  - intro L.
    apply (backend_error_envelope _ _ _ _ _ _ _ _ _ (runOllama_spec host p w) L).
  - intros g error Hs Hr. apply (deliverResponse_done ulid f s g _ Hs Hr).
Qed.

Lemma backend_error_reply_witness :
  Observe.endsWith
    (snd (Observe.runAnthropic Observe.failingHost (Observe.samplePayload anthropic) tt))
    (Error (lit "br:main") Samples.backendError)
  /\ Orchestrator.state
       (Orchestrator.this
          (snd (Orchestrator.handleWorkerMessage Flight.sampleUlid
                  Orchestrator.noFaults
                  (Error (lit "br:main") Samples.backendError)
                  Samples.withHistory))) = idle.
Proof.
  pose proof (backend_error_reply Observe.failingHost (Observe.samplePayload anthropic)
                tt Flight.sampleUlid Orchestrator.noFaults Samples.withHistory
                [] 500%N (lit "overloaded")) as H.
  split.
  - exact (proj1 H eq_refl).
  - exact (proj2 (proj2 (proj2 (proj2 (proj2 H) (lit "br:main") Samples.backendError
                                    eq_refl eq_refl)))).
Defined.

(** C7, the claim as worded fails: handling the error envelope writes to
    the stored history of the group. *)
Lemma error_reply_is_stored :
  let r := Orchestrator.handleWorkerMessage Flight.sampleUlid Orchestrator.noFaults
             (Error (lit "br:main") Samples.backendError) Samples.withHistory in
  List.length (Db.ofGroup (lit "br:main") (Orchestrator.db Samples.withHistory)) = 3
  /\ List.length (Db.ofGroup (lit "br:main") (Orchestrator.db (snd r))) = 4
  /\ Orchestrator.db (snd r) <> Orchestrator.db Samples.withHistory.
Proof. repeat split; try reflexivity. discriminate. Qed.

Lemma trigger_predicate_witness :
  exists re,
    Config.buildTriggerPattern Config.ASSISTANT_NAME = Some re
    /\ Orchestrator.isTriggered Mention.plainUpper re
         (Mention.remoteMessage "hi @andy can you") = true.
Proof.
  destruct (proj1 (trigger_predicate Mention.plainUpper) Config.ASSISTANT_NAME)
    as (re & E & H).
  exists re. split; [exact E|]. apply H. right.
  exists (lit "hi "), (lit "andy"), (lit " can you").
  split; [reflexivity|]. split.
  - right. exists (lit "hi"), 32%N. split; reflexivity.
  - split; [repeat constructor | reflexivity].
Defined.

(* ===================================================================== *)
(** * What the worker posts *)
(* ===================================================================== *)

Section Emitting.

Import Worker Observe WorkerSpec Envelopes Compaction.

Context {World : Type}.
Variable host : Host World.

(** ** Computations and the outbox *)

Section Combinators.

Variable Q : list WorkerOutbound -> Prop.
Hypothesis Qnil : Q [].
Hypothesis Qapp : forall a b, Q a -> Q b -> Q (a ++ b).

Lemma emits_same {A} (m : W World A) :
  (forall st, outbox (snd (m st)) = outbox st) -> emits Q m.
Proof. intros H st. exists []. rewrite app_nil_r. auto. Qed.

Lemma emits_ret {A} (a : A) : emits Q (@ret World A a).
Proof. apply emits_same. reflexivity. Qed.

Lemma emits_throw {A} e : emits Q (@throw World A e).
Proof. apply emits_same. reflexivity. Qed.

Lemma emits_await {A} (r : Result A) : emits Q (@await World A r).
Proof. destruct r; [apply emits_ret | apply emits_throw]. Qed.

Lemma emits_call {A} (op : World -> Result A * World) : emits Q (call op).
Proof.
  apply emits_same. intro st. unfold call. destruct (op (world st)). reflexivity.
Qed.

Lemma emits_callTotal {A} (op : World -> A * World) : emits Q (callTotal op).
Proof.
  apply emits_same. intro st. unfold callTotal. destruct (op (world st)).
  reflexivity.
Qed.

Lemma emits_record t : emits Q (@record World t).
Proof. apply emits_same. reflexivity. Qed.

Lemma emits_attempt {A} (m : W World A) : emits Q m -> emits Q (attempt m).
Proof.
  intros H st. destruct (H st) as (extra & O & K). exists extra.
  unfold attempt. destruct (m st). auto.
Qed.

Lemma emits_post m : Q [m] -> emits Q (@post World m).
Proof. intros H st. exists [m]. auto. Qed.

Lemma emits_bind {A B} (m : W World A) (k : A -> W World B) :
  emits Q m -> (forall a, emits Q (k a)) -> emits Q (bind m k).
Proof.
  intros Hm Hk st. unfold bind. destruct (Hm st) as (e1 & O1 & Q1).
  destruct (m st) as [[a|e] st1]; cbn [snd] in *.
  - destruct (Hk a st1) as (e2 & O2 & Q2). exists (e1 ++ e2).
    rewrite O2, O1, app_assoc. auto.
  - exists e1. auto.
Qed.

Lemma emits_tryCatch {A} (body : W World A) handler :
  emits Q body -> (forall e, emits Q (handler e)) -> emits Q (tryCatch body handler).
Proof.
  intros Hm Hk st. unfold tryCatch. destruct (Hm st) as (e1 & O1 & Q1).
  destruct (body st) as [[a|e] st1]; cbn [snd] in *.
  - exists e1. auto.
  - destruct (Hk e st1) as (e2 & O2 & Q2). exists (e1 ++ e2).
    rewrite O2, O1, app_assoc. auto.
Qed.

Lemma emits_forEach {A B} (f : A -> W World (list B)) xs :
  (forall x, emits Q (f x)) -> emits Q (forEach f xs).
Proof.
  intro Hf. induction xs as [|x xs IH]; cbn [forEach].
  - apply emits_ret.
  - apply emits_bind; [apply Hf|]. intro ys.
    apply emits_bind; [exact IH|]. intro zs. apply emits_ret.
Qed.

Lemma emits_prop key input : emits Q (prop host key input).
Proof. unfold prop. destruct input; first [apply emits_throw | apply emits_ret]. Qed.

Lemma emits_lengthText v : emits Q (lengthText host v).
Proof.
  unfold lengthText. destruct v; first [apply emits_throw | apply emits_ret].
Qed.

Lemma emits_defined key s : emits Q (defined host key s).
Proof. destruct s; [apply emits_ret | apply emits_throw]. Qed.

(** The shape the two loops share. *)
Lemma emits_loopOf {M} (round : M -> nat -> W World (Round M)) g limitText
      fuel msgs it :
  (forall msgs it, emits Q (round msgs it)) ->
  Q [Response g limitText] ->
  emits Q (loopOf round g limitText fuel msgs it).
Proof.
  intros Hr Hl. revert msgs it.
  induction fuel as [|fuel IH]; intros msgs it; cbn [loopOf].
  - apply emits_ret.
  - destruct (it <? maxIterations).
    + apply emits_bind; [apply Hr|]. intros [msgs'|]; [apply IH | apply emits_ret].
    + apply emits_bind; [apply emits_post, Hl|]. intro. apply emits_ret.
Qed.

End Combinators.

Lemma emits_ext {A} (Q : list WorkerOutbound -> Prop) (m m' : W World A) :
  (forall st, m st = m' st) -> emits Q m' -> emits Q m.
Proof. intros E H st. rewrite E. apply H. Qed.

Lemma emits_weaken {A} (P Q : list WorkerOutbound -> Prop) (m : W World A) :
  (forall l, P l -> Q l) -> emits P m -> emits Q m.
Proof.
  intros I H st. destruct (H st) as (extra & O & K). exists extra. auto.
Qed.

End Emitting.

Ltac emits_step :=
  first
    [ apply emits_ret; assumption | apply emits_throw; assumption
    | apply emits_await; assumption | apply emits_call; assumption
    | apply emits_callTotal; assumption | apply emits_record; assumption
    | apply emits_prop; assumption | apply emits_lengthText; assumption
    | apply emits_defined; assumption
    | apply emits_bind; [assumption| |intro]
    | apply emits_tryCatch; [assumption| |intro]
    | match goal with
      | |- Envelopes.emits _ (if ?b then _ else _) => destruct b
      | |- Envelopes.emits _ (match ?x with _ => _ end) => destruct x
      end ].

Section Posting.

Import Worker Observe WorkerSpec Envelopes Compaction.

Context {World : Type}.
Variable host : Host World.
Variable net : SummaryHost World.
Variable g : jsstring.

Lemma plain_nil : Forall (plain g) [].
Proof. constructor. Qed.

Lemma plain_app a b : Forall (plain g) a -> Forall (plain g) b -> Forall (plain g) (a ++ b).
Proof. intros. apply Forall_app. split; assumption. Qed.

Lemma plain_one m : plain g m -> Forall (plain g) [m].
Proof. intro H. constructor; [exact H|constructor]. Qed.

(** A computation that goes through appends what it emits. *)
Lemma emits_sure {A} (Q : list WorkerOutbound -> Prop) (m : W World A) st :
  emits Q m -> total m ->
  exists a st1 extra, m st = (Ok a, st1) /\ outbox st1 = outbox st ++ extra /\ Q extra.
Proof.
  intros He Ht. destruct (He st) as (extra & O & K). destruct (Ht st) as (a & E).
  destruct (m st) as [[a'|e] st1]; cbn in *; [|discriminate].
  injection E as ->. exists a, st1, extra. auto.
Qed.

Section Monoid.

Variable Q : list WorkerOutbound -> Prop.
Hypothesis Qnil : Q [].
Hypothesis Qapp : forall a b, Q a -> Q b -> Q (a ++ b).
Hypothesis Qone : forall m, plain g m -> Q [m].

Lemma emits_log k label detail : emits Q (log host g k label detail).
Proof.
  unfold log. apply emits_bind; [assumption|apply emits_callTotal; assumption|].
  intro t. apply emits_post, Qone. split; reflexivity.
Qed.

Lemma emits_toolSwitch name input : emits Q (toolSwitch host name input g).
Proof.
  unfold toolSwitch, toolBash, toolReadFile, toolWriteFile, toolListFiles,
    toolFetchUrl, toolUpdateMemory, toolCreateTask, toolJavascript, stringOut.
  repeat first [ emits_step | apply emits_post, Qone; split; reflexivity ].
Qed.

Lemma emits_executeTool name input : emits Q (executeTool host name input g).
Proof.
  unfold executeTool. apply emits_tryCatch; [assumption|apply emits_toolSwitch|].
  intro e. repeat emits_step.
Qed.

Lemma emits_logTextBlock block : emits Q (logTextBlock host g block).
Proof.
  unfold logTextBlock.
  repeat first [ apply emits_log | emits_step ].
Qed.

Lemma emits_roundTripAnthropic key body : emits Q (roundTripAnthropic host key body).
Proof.
  unfold roundTripAnthropic.
  apply emits_bind; [assumption|apply emits_attempt, emits_call; assumption|].
  intro r. repeat emits_step.
Qed.

Lemma emits_roundTripOllama url body : emits Q (roundTripOllama host url body).
Proof.
  unfold roundTripOllama.
  apply emits_bind; [assumption|apply emits_attempt, emits_call; assumption|].
  intro r. repeat emits_step.
Qed.

End Monoid.

(** ** The run of one tool *)

(** What both loops do around the run of a tool, from the ['running']
    envelope on. The envelopes of the tool itself are plain. When the tool
    gives a string the ['done'] envelope follows; when [executeTool] throws
    or resolves to [undefined] the pass throws and ['done'] is not
    posted. *)
Lemma wrapped_tool {B} name input label
      (rest : option jsstring -> jsstring -> W World B) (value : jsstring -> B) st :
  (forall s st', rest (Some s) s st' = (Ok (value s), st')) ->
  let m :=
    bind (post (ToolActivity g name running))
      (fun _ => bind (executeTool host name input g)
         (fun output => bind (defined host "length" (outputText output))
            (fun outputStr =>
               bind (log host g KToolResult label (preview 500 outputStr))
                 (fun _ => bind (post (ToolActivity g name done))
                    (fun _ => rest output outputStr))))) in
  exists mid,
    Forall (plain g) mid
    /\ ((exists out, fst (m st) = Ok (value out)
                     /\ outbox (snd (m st))
                        = outbox st ++ [ToolActivity g name running] ++ mid
                          ++ [ToolActivity g name done])
        \/ (exists e, fst (m st) = Throw e
                      /\ outbox (snd (m st))
                         = outbox st ++ [ToolActivity g name running] ++ mid)).
Proof.
  intros Hrest m. unfold m. clear m. unfold bind, post. cbv beta iota.
  match goal with |- context [executeTool host name input g ?s] =>
    destruct (emits_executeTool _ plain_nil plain_app plain_one name input s)
      as (e2 & O2 & P2); set (s1 := s) in * end.
  destruct (executeTool host name input g s1) as [[[out|]|e] s2]; cbn [snd] in O2;
    cbn [outputText defined ret throw].
  - destruct (emits_sure (Forall (plain g)) (log host g KToolResult label (preview 500 out))
                s2 (emits_log _ plain_nil plain_app plain_one _ _ _)
                (total_log host _ _ _ _))
      as (u3 & s3 & e3 & E3 & O3 & P3).
    rewrite E3, Hrest. cbn [fst snd outbox].
    exists (e2 ++ e3). split; [apply plain_app; assumption|]. left.
    exists out. split; [reflexivity|]. rewrite O3, O2. unfold s1. cbn [outbox].
    rewrite <- !app_assoc. reflexivity.
  - cbn [fst snd]. exists e2. split; [exact P2|]. right.
    eexists. split; [reflexivity|]. rewrite O2. unfold s1. cbn [outbox].
    rewrite <- !app_assoc. reflexivity.
  - cbn [fst snd]. exists e2. split; [exact P2|]. right.
    exists e. split; [reflexivity|]. rewrite O2. unfold s1. cbn [outbox].
    rewrite <- !app_assoc. reflexivity.
Qed.

Section Loops.

Variable Q : list WorkerOutbound -> Prop.
Hypothesis Qnil : Q [].
Hypothesis Qapp : forall a b, Q a -> Q b -> Q (a ++ b).
Hypothesis Qone : forall m, plain g m -> Q [m].
Hypothesis Qact : forall name status, Q [ToolActivity g name status].

Lemma emits_runToolUse block : emits Q (runToolUse host g block).
Proof.
  unfold runToolUse. destruct block as [text|id name input|id c|ty];
    try (apply emits_ret; assumption).
  repeat first [ apply emits_log; assumption
               | apply emits_executeTool; assumption
               | apply emits_post, Qact
               | emits_step ].
Qed.

Lemma emits_runToolCall tc : emits Q (runToolCall host g tc).
Proof.
  unfold runToolCall. cbv zeta.
  repeat first [ apply emits_log; assumption
               | apply emits_executeTool; assumption
               | apply emits_post, Qact
               | emits_step ].
Qed.

Lemma emits_anthropicRound p msgs it :
  InvokePayload.groupId p = g -> emits Q (anthropicRound host p msgs it).
Proof.
  intro G. unfold anthropicRound. cbv zeta. rewrite G.
  apply emits_bind; [assumption|apply emits_log; assumption|]. intros _.
  apply emits_bind; [assumption|apply emits_roundTripAnthropic; assumption|].
  intro res.
  apply emits_bind; [assumption| |intros _].
  { destruct (usage res); [apply emits_post, Qone; split; reflexivity
                          |apply emits_ret; assumption]. }
  apply emits_bind; [assumption| |intros _].
  { apply emits_forEach; try assumption. intro b. apply emits_logTextBlock; assumption. }
  destruct (JS.eqb (stop_reason res) (lit "tool_use")).
  - apply emits_bind; [assumption| |intro results].
    { apply emits_forEach; try assumption. apply emits_runToolUse. }
    apply emits_bind; [assumption|apply emits_post, Qone; split; reflexivity|].
    intro. apply emits_ret; assumption.
  - apply emits_bind; [assumption|apply emits_post, Qone; split; reflexivity|].
    intro. apply emits_ret; assumption.
Qed.

Lemma emits_ollamaRound p msgs it :
  InvokePayload.groupId p = g -> emits Q (ollamaRound host p msgs it).
Proof.
  intro G. unfold ollamaRound. cbv zeta. rewrite G.
  apply emits_bind; [assumption|apply emits_log; assumption|]. intros _.
  apply emits_bind; [assumption|apply emits_roundTripOllama; assumption|].
  intro res.
  apply emits_bind; [assumption| |intros _].
  { destruct (o_usage res); [apply emits_post, Qone; split; reflexivity
                            |apply emits_ret; assumption]. }
  apply emits_bind; [assumption| |intros _].
  { destruct (nonEmpty (cm_content (o_message res)));
      [apply emits_log; assumption | apply emits_ret; assumption]. }
  destruct (JS.eqb (finish_reason res) (lit "tool_calls"));
    [destruct (cm_tool_calls (o_message res)) as [calls|]|].
  - apply emits_bind; [assumption| |intro results].
    { apply emits_forEach; try assumption. apply emits_runToolCall. }
    apply emits_bind; [assumption|apply emits_post, Qone; split; reflexivity|].
    intro. apply emits_ret; assumption.
  - apply emits_bind; [assumption|apply emits_post, Qone; split; reflexivity|].
    intro. apply emits_ret; assumption.
  - apply emits_bind; [assumption|apply emits_post, Qone; split; reflexivity|].
    intro. apply emits_ret; assumption.
Qed.

Lemma emits_handleInvoke p :
  InvokePayload.groupId p = g -> emits Q (handleInvoke host p).
Proof.
  intro G. unfold handleInvoke.
  destruct (InvokePayload.provider p); [unfold invokeAnthropic | unfold invokeOllama];
    cbv zeta; rewrite G.
  - apply emits_bind; [assumption|apply emits_post, Qone; split; reflexivity|].
    intros _. apply emits_bind; [assumption|apply emits_log; assumption|]. intros _.
    apply emits_tryCatch; [assumption| |].
    + apply emits_ext with
        (m' := loopOf (anthropicRound host p) (InvokePayload.groupId p)
                      anthropicLimitText (S maxIterations) (InvokePayload.messages p) 0).
      { intro st. apply anthropicLoop_shape. }
      apply emits_loopOf; try assumption.
      * intros. apply emits_anthropicRound. exact G.
      * apply Qone. split; [reflexivity|exact G].
    + intro e. apply emits_bind; [assumption|apply emits_await; assumption|].
      intro message.
      apply emits_bind; [assumption|apply emits_post, Qone; split; reflexivity|].
      intro. apply emits_ret; assumption.
  - apply emits_bind; [assumption|apply emits_post, Qone; split; reflexivity|].
    intros _. apply emits_bind; [assumption|apply emits_log; assumption|]. intros _.
    apply emits_tryCatch; [assumption| |].
    + match goal with |- emits Q (ollamaLoop host ?f p ?ms 0) =>
        apply emits_ext with
          (m' := loopOf (ollamaRound host p) (InvokePayload.groupId p)
                        ollamaLimitText f ms 0) end.
      { intro st. apply ollamaLoop_shape. }
      apply emits_loopOf; try assumption.
      * intros. apply emits_ollamaRound. exact G.
      * apply Qone. split; [reflexivity|exact G].
    + intro e. apply emits_bind; [assumption|apply emits_await; assumption|].
      intro message.
      apply emits_bind; [assumption|apply emits_post, Qone; split; reflexivity|].
      intro. apply emits_ret; assumption.
Qed.

Lemma emits_summaryOf result : emits Q (summaryOf host result).
Proof.
  unfold summaryOf. destruct (os_choices result) as [[|c r]|];
    first [apply emits_ret; assumption | apply emits_throw; assumption].
Qed.

Lemma emits_handleCompact p :
  InvokePayload.groupId p = g -> emits Q (handleCompact host net p).
Proof.
  intro G. unfold handleCompact.
  destruct (InvokePayload.provider p); [unfold compactAnthropic | unfold compactOllama];
    cbv zeta; rewrite G;
    repeat first [ apply emits_log; assumption
                 | apply emits_summaryOf
                 | apply emits_post, Qone; split; reflexivity
                 | emits_step ].
Qed.

Lemma emits_onmessage m :
  match m with
  | Invoke p | Compact p => InvokePayload.groupId p = g
  | Cancel _ => True
  end ->
  emits Q (onmessage host net m).
Proof.
  destruct m as [p|g'|p]; intro G; cbn [onmessage].
  - apply emits_bind; [assumption|apply emits_handleInvoke; exact G|].
    intro. apply emits_ret; assumption.
  - apply emits_ret; assumption.
  - apply emits_handleCompact; exact G.
Qed.

End Loops.

(** ** Tool activity comes in pairs *)

Lemma activity_app a b : activity (a ++ b) = activity a ++ activity b.
Proof. apply filter_app. Qed.

Lemma activity_plain l : Forall (plain g) l -> activity l = [].
Proof.
  induction 1 as [|m l [A _] _ IH]; [reflexivity|].
  unfold activity in *. cbn [filter]. rewrite A. exact IH.
Qed.

Lemma paired_app na nb a b :
  paired g na a -> paired g nb b -> paired g (na ++ nb) (a ++ b).
Proof.
  unfold paired. intros Ha Hb. rewrite activity_app, flat_map_app, Ha, Hb.
  reflexivity.
Qed.

Lemma leftRunning_app na nb a b :
  paired g na a -> leftRunning g nb b -> leftRunning g (na ++ nb) (a ++ b).
Proof.
  unfold paired. intros Ha (name & Hb). exists name.
  rewrite activity_app, flat_map_app, Ha, Hb, app_assoc. reflexivity.
Qed.

Lemma paired_plain l : Forall (plain g) l -> paired g [] l.
Proof. intro H. unfold paired. rewrite (activity_plain _ H). reflexivity. Qed.

Lemma pairing_plain {A} (m : W World A) :
  emits (Forall (plain g)) m -> pairing g m.
Proof.
  intros H st. destruct (H st) as (extra & O & P). exists extra, [].
  split; [exact O|]. destruct (fst (m st)); [|left]; apply paired_plain, P.
Qed.

Lemma pairing_bind {A B} (m : W World A) (k : A -> W World B) :
  pairing g m -> (forall a, pairing g (k a)) -> pairing g (bind m k).
Proof.
  intros Hm Hk st. unfold bind. destruct (Hm st) as (e1 & n1 & O1 & P1).
  destruct (m st) as [[a|e] st1]; cbn [fst snd] in *.
  - destruct (Hk a st1) as (e2 & n2 & O2 & P2). exists (e1 ++ e2), (n1 ++ n2).
    rewrite O2, O1, app_assoc. split; [reflexivity|].
    destruct (fst (k a st1)).
    + apply paired_app; assumption.
    + destruct P2 as [P2|P2];
        [left; apply paired_app | right; apply leftRunning_app]; assumption.
  - exists e1, n1. auto.
Qed.

Lemma pairing_forEach {A B} (f : A -> W World (list B)) xs :
  (forall x, pairing g (f x)) -> pairing g (forEach f xs).
Proof.
  intro Hf. induction xs as [|x xs IH]; cbn [forEach].
  - apply pairing_plain, emits_ret. constructor.
  - apply pairing_bind; [apply Hf|]. intro ys.
    apply pairing_bind; [exact IH|]. intro zs.
    apply pairing_plain, emits_ret. constructor.
Qed.

Lemma pairing_loopOf {M} (round : M -> nat -> W World (Round M)) limitText
      fuel msgs it :
  (forall msgs it, pairing g (round msgs it)) ->
  pairing g (loopOf round g limitText fuel msgs it).
Proof.
  intro Hr. revert msgs it.
  induction fuel as [|fuel IH]; intros msgs it; cbn [loopOf].
  - apply pairing_plain, emits_ret. constructor.
  - destruct (it <? maxIterations).
    + apply pairing_bind; [apply Hr|].
      intros [msgs'|]; [apply IH | apply pairing_plain, emits_ret; constructor].
    + apply pairing_plain.
      apply emits_bind; [exact plain_app|apply emits_post, plain_one; split; reflexivity|].
      intro. apply emits_ret. constructor.
Qed.

Lemma pairing_wrapped {B} name input label
      (rest : option jsstring -> jsstring -> W World B) (value : jsstring -> B) :
  (forall s st', rest (Some s) s st' = (Ok (value s), st')) ->
  pairing g
    (bind (post (ToolActivity g name running))
       (fun _ => bind (executeTool host name input g)
          (fun output => bind (defined host "length" (outputText output))
             (fun outputStr =>
                bind (log host g KToolResult label (preview 500 outputStr))
                  (fun _ => bind (post (ToolActivity g name done))
                     (fun _ => rest output outputStr)))))).
Proof.
  intros Hrest st.
  pose proof (wrapped_tool name input label rest value st Hrest) as H.
  cbv zeta in H. destruct H as (mid & P & [(out & F & O) | (e & F & O)]).
  - eexists. exists [name]. split; [exact O|]. rewrite F. unfold paired.
    rewrite !activity_app, (activity_plain _ P). reflexivity.
  - eexists. exists []. split; [exact O|]. rewrite F. right. exists name.
    rewrite activity_app, (activity_plain _ P). reflexivity.
Qed.

Lemma pairing_runToolUse block : pairing g (runToolUse host g block).
Proof.
  unfold runToolUse. destruct block as [text|id name input|id c|ty];
    try (apply pairing_plain, emits_ret; constructor).
  apply pairing_bind; [apply pairing_plain, emits_defined; constructor|].
  intro inputPreview.
  apply pairing_bind;
    [apply pairing_plain, emits_log; [exact plain_nil|exact plain_app|exact plain_one]|].
  intros _.
  apply (pairing_wrapped name input (lit "Result: " ++ name)
           (fun output outputStr =>
              bind (match output with
                    | Some s => ret (slice0 100000 s)
                    | None => bind (defined host "slice" (outputText output))
                                (fun s => ret (slice0 100000 s))
                    end)
                   (fun content => ret [BToolResult id content]))
           (fun s => [BToolResult id (slice0 100000 s)])).
  reflexivity.
Qed.

Lemma pairing_runToolCall tc : pairing g (runToolCall host g tc).
Proof.
  unfold runToolCall. cbv zeta.
  apply pairing_bind;
    [apply pairing_plain, emits_log; [exact plain_nil|exact plain_app|exact plain_one]|].
  intros _.
  match goal with |- context [executeTool host ?n ?i g] =>
    apply (pairing_wrapped n i (lit "Result: " ++ n)
             (fun _ outputStr =>
                ret [{| cm_role := lit "tool";
                        cm_content := slice0 100000 outputStr;
                        cm_tool_calls := None;
                        cm_tool_call_id := Some (tc_id tc);
                        cm_name := Some (fn_name tc) |}])
             (fun s => [{| cm_role := lit "tool";
                           cm_content := slice0 100000 s;
                           cm_tool_calls := None;
                           cm_tool_call_id := Some (tc_id tc);
                           cm_name := Some (fn_name tc) |}])) end.
  reflexivity.
Qed.

Ltac plainly :=
  apply pairing_plain;
  repeat first [ apply emits_log; [exact plain_nil|exact plain_app|exact plain_one]
               | apply emits_logTextBlock; [exact plain_nil|exact plain_app|exact plain_one]
               | apply emits_roundTripAnthropic; [exact plain_nil|exact plain_app]
               | apply emits_roundTripOllama; [exact plain_nil|exact plain_app]
               | apply emits_forEach; [exact plain_nil|exact plain_app|intro]
               | apply emits_post, plain_one; split; reflexivity
               | apply emits_ret; exact plain_nil
               | apply emits_bind; [exact plain_app| |intro]
               | match goal with
                 | |- emits _ (if ?b then _ else _) => destruct b
                 | |- emits _ (match ?x with _ => _ end) => destruct x
                 end ].

Lemma pairing_anthropicRound p msgs it :
  InvokePayload.groupId p = g -> pairing g (anthropicRound host p msgs it).
Proof.
  intro G. unfold anthropicRound. cbv zeta. rewrite G.
  apply pairing_bind; [plainly|]. intros _.
  apply pairing_bind; [plainly|]. intro res.
  apply pairing_bind; [plainly|]. intros _.
  apply pairing_bind; [plainly|]. intros _.
  destruct (JS.eqb (stop_reason res) (lit "tool_use")).
  - apply pairing_bind; [apply pairing_forEach, pairing_runToolUse|].
    intro results. plainly.
  - plainly.
Qed.

Lemma pairing_ollamaRound p msgs it :
  InvokePayload.groupId p = g -> pairing g (ollamaRound host p msgs it).
Proof.
  intro G. unfold ollamaRound. cbv zeta. rewrite G.
  apply pairing_bind; [plainly|]. intros _.
  apply pairing_bind; [plainly|]. intro res.
  apply pairing_bind; [plainly|]. intros _.
  apply pairing_bind; [plainly|]. intros _.
  destruct (JS.eqb (finish_reason res) (lit "tool_calls"));
    [destruct (cm_tool_calls (o_message res)) as [calls|]|].
  - apply pairing_bind; [apply pairing_forEach, pairing_runToolCall|].
    intro results. plainly.
  - plainly.
  - plainly.
Qed.

(** The tool activity of a whole invocation: in pairs, except that the
    tool whose run made the loop throw is left running; then no response
    is posted. *)
Lemma invocation_activity origin backend abort limitText
      (loop : W World bool) (lead : list WorkerOutbound) st :
  outbox st = lead -> Forall (plain g) lead -> calm lead ->
  loopSpec origin backend abort limitText g maxIterations st (loop st) ->
  pairing g loop ->
  let r := tryCatch loop
             (fun err => bind (await (errText err))
                           (fun message => bind (post (Error g message))
                                             (fun _ => ret true))) st in
  exists names,
    paired g names (outbox (snd r))
    \/ (leftRunning g names (outbox (snd r))
        /\ forall g' text, ~ In (Response g' text) (outbox (snd r))).
Proof.
  intros Ho Hp Hc (trips & extra & _ & _ & C & _ & R) Hpair. cbv zeta.
  destruct (Hpair st) as (extra' & names & O' & P).
  unfold tryCatch. destruct (loop st) as [[b|e] st1]; cbn [fst snd] in *.
  - exists names. left. rewrite O', Ho.
    apply (paired_app [] names); [apply paired_plain, Hp|exact P].
  - destruct R as (O & _). rewrite O in O'. apply app_inv_head in O'. subst extra'.
    assert (N : forall g' text, ~ In (Response g' text) (lead ++ extra)).
    { intros g' text Hin.
      assert (K : calm (lead ++ extra)) by (apply calm_app; assumption).
      unfold calm in K. rewrite Forall_forall in K. apply K in Hin. discriminate. }
    assert (T : forall tail, Forall (plain g) tail ->
                  paired g names ((lead ++ extra) ++ tail)
                  \/ leftRunning g names ((lead ++ extra) ++ tail)).
    { intros tail Pt. destruct P as [P|(name & P)]; [left|right; exists name];
        unfold paired; rewrite !activity_app, (activity_plain _ Hp),
          (activity_plain _ Pt), app_nil_r; exact P. }
    exists names. unfold bind, await.
    destruct (errText e) as [message|e']; cbn [ret throw post snd outbox];
      rewrite O, Ho.
    + destruct (T [Error g message]) as [K|K].
      { apply plain_one. split; reflexivity. }
      * left. exact K.
      * right. split; [exact K|]. intros g' text Hin.
        apply in_app_or in Hin. destruct Hin as [Hin|[Hin|[]]]; [|discriminate Hin].
        exact (N _ _ Hin).
    + destruct (T []) as [K|K]; [constructor| |]; rewrite app_nil_r in K.
      * left. exact K.
      * right. split; [exact K|apply N].
Qed.

End Posting.

(* ===================================================================== *)
(** * Requests to the worker and their answers *)
(* ===================================================================== *)

Section Answers.

Import Worker Observe WorkerSpec Envelopes Compaction.

Context {World : Type}.
Variable host : Host World.
Variable net : SummaryHost World.

Lemma bind_ok {A B} (m : W World A) (k : A -> W World B) st b st' :
  bind m k st = (Ok b, st') ->
  exists a st1, m st = (Ok a, st1) /\ k a st1 = (Ok b, st').
Proof.
  unfold bind. destruct (m st) as [[a|e] st1]; intro H; [|discriminate].
  exists a, st1. auto.
Qed.

Lemma len_cons c (s : jsstring) : len (c :: s) = N.succ (len s).
Proof. unfold len. cbn [List.length]. apply Nat2N.inj_succ. Qed.

Lemma slice0_len n s : (len (slice0 n s) <= n)%N.
Proof.
  revert n. induction s as [|c r IH]; intro n; cbn [slice0].
  - unfold len. cbn. lia.
  - destruct (n =? 0)%N eqn:Z; [unfold len; cbn; lia|].
    apply N.eqb_neq in Z. rewrite len_cons. specialize (IH (N.pred n)). lia.
Qed.

Lemma slice0_prefix n s : prefixOf (slice0 n s) s.
Proof.
  revert n. induction s as [|c r IH]; intro n; cbn [slice0].
  - exists []. reflexivity.
  - destruct (n =? 0)%N; [exists (c :: r); reflexivity|].
    destruct (IH (N.pred n)) as (rest & E). exists rest. cbn. f_equal. exact E.
Qed.

Lemma slice0_short n s : (len s <= n)%N -> slice0 n s = s.
Proof.
  revert n. induction s as [|c r IH]; intros n L; cbn [slice0]; [reflexivity|].
  rewrite len_cons in L. destruct (n =? 0)%N eqn:Z.
  - apply N.eqb_eq in Z. lia.
  - f_equal. apply IH. lia.
Qed.

(** ** Every request of a tool gets its result *)

Lemma runToolUse_result g id name input st ys st' :
  runToolUse host g (BToolUse id name input) st = (Ok ys, st') ->
  exists out, ys = [BToolResult id (slice0 100000 out)].
Proof.
  unfold runToolUse. intro H.
  apply bind_ok in H as (inputPreview & s0 & _ & H).
  apply bind_ok in H as (u1 & s1 & _ & H).
  pose proof (wrapped_tool host g name input (lit "Result: " ++ name)
                (fun output outputStr =>
                   bind (match output with
                         | Some s => ret (slice0 100000 s)
                         | None => bind (defined host "slice" (outputText output))
                                     (fun s => ret (slice0 100000 s))
                         end)
                        (fun content => ret [BToolResult id content]))
                (fun s => [BToolResult id (slice0 100000 s)]) s1
                (fun s st0 => eq_refl)) as K.
  cbv beta zeta in K. rewrite H in K. cbn [fst] in K.
  destruct K as (mid & _ & [(out & F & _) | (e & F & _)]); [|discriminate F].
  injection F as ->. exists out. reflexivity.
Qed.

Lemma runToolCall_result g tc st ys st' :
  runToolCall host g tc st = (Ok ys, st') ->
  exists m, ys = [m] /\ answersCall tc m.
Proof.
  unfold runToolCall. cbv zeta. intro H.
  apply bind_ok in H as (u1 & s1 & _ & H).
  match type of H with context [executeTool host ?n ?i g] =>
    pose proof (wrapped_tool host g n i (lit "Result: " ++ n)
                  (fun _ outputStr =>
                     ret [{| cm_role := lit "tool";
                             cm_content := slice0 100000 outputStr;
                             cm_tool_calls := None;
                             cm_tool_call_id := Some (tc_id tc);
                             cm_name := Some (fn_name tc) |}])
                  (fun s => [{| cm_role := lit "tool";
                                cm_content := slice0 100000 s;
                                cm_tool_calls := None;
                                cm_tool_call_id := Some (tc_id tc);
                                cm_name := Some (fn_name tc) |}]) s1
                  (fun s st0 => eq_refl)) as K end.
  cbv beta zeta in K. rewrite H in K. cbn [fst] in K.
  destruct K as (mid & _ & [(out & F & _) | (e & F & _)]); [|discriminate F].
  injection F as ->. eexists. split; [reflexivity|].
  unfold answersCall. cbn. repeat split. apply slice0_len.
Qed.

Lemma forEach_runToolUse g blocks st results st' :
  forEach (runToolUse host g) blocks st = (Ok results, st') ->
  Forall2 answersUse (toolUseIds blocks) results.
Proof.
  revert st results st'.
  induction blocks as [|b blocks IH]; intros st results st' H; cbn [forEach] in H.
  - injection H as <- _. constructor.
  - apply bind_ok in H as (ys & s1 & E1 & H).
    apply bind_ok in H as (zs & s2 & E2 & H). injection H as <- _.
    assert (S : toolUseIds (b :: blocks) = toolUseIds [b] ++ toolUseIds blocks).
    { unfold toolUseIds. cbn [flat_map]. rewrite app_nil_r. reflexivity. }
    rewrite S. apply Forall2_app; [|exact (IH _ _ _ E2)].
    destruct b as [text|id name input|id c|ty];
      try (injection E1 as <- _; constructor).
    destruct (runToolUse_result g id name input st ys s1 E1) as (out & ->).
    cbn. constructor; [|constructor].
    exists (slice0 100000 out). split; [reflexivity|apply slice0_len].
Qed.

Lemma forEach_runToolCall g calls st results st' :
  forEach (runToolCall host g) calls st = (Ok results, st') ->
  Forall2 answersCall calls results.
Proof.
  revert st results st'.
  induction calls as [|tc calls IH]; intros st results st' H; cbn [forEach] in H.
  - injection H as <- _. constructor.
  - apply bind_ok in H as (ys & s1 & E1 & H).
    apply bind_ok in H as (zs & s2 & E2 & H). injection H as <- _.
    destruct (runToolCall_result g tc st ys s1 E1) as (m & -> & A).
    constructor; [exact A|exact (IH _ _ _ E2)].
Qed.

Lemma anthropicRound_continues p msgs it st msgs' st' :
  anthropicRound host p msgs it st = (Ok (Continue msgs'), st') ->
  exists blocks results,
    msgs' = msgs ++ [ConversationMessage.mk assistant (CBlocks blocks);
                     ConversationMessage.mk user (CBlocks results)]
    /\ Forall2 answersUse (toolUseIds blocks) results.
Proof.
  unfold anthropicRound. cbv zeta. intro H.
  apply bind_ok in H as (u1 & s1 & _ & H).
  apply bind_ok in H as (res & s2 & _ & H).
  apply bind_ok in H as (u3 & s3 & _ & H).
  apply bind_ok in H as (u4 & s4 & _ & H).
  destruct (JS.eqb (stop_reason res) (lit "tool_use")).
  - apply bind_ok in H as (results & s5 & E5 & H).
    apply bind_ok in H as (u6 & s6 & _ & H).
    injection H as <- _.
    exists (content res), results. split; [reflexivity|].
    exact (forEach_runToolUse _ _ _ _ _ E5).
  - apply bind_ok in H as (u5 & s5 & _ & H). discriminate H.
Qed.

Lemma ollamaRound_continues p msgs it st msgs' st' :
  ollamaRound host p msgs it st = (Ok (Continue msgs'), st') ->
  exists message calls toolMessages,
    msgs' = msgs ++ [message] ++ toolMessages
    /\ cm_tool_calls message = Some calls
    /\ Forall2 answersCall calls toolMessages.
Proof.
  unfold ollamaRound. cbv zeta. intro H.
  apply bind_ok in H as (u1 & s1 & _ & H).
  apply bind_ok in H as (res & s2 & _ & H).
  apply bind_ok in H as (u3 & s3 & _ & H).
  apply bind_ok in H as (u4 & s4 & _ & H).
  destruct (JS.eqb (finish_reason res) (lit "tool_calls"));
    [destruct (cm_tool_calls (o_message res)) as [calls|] eqn:Calls|].
  - apply bind_ok in H as (results & s5 & E5 & H).
    apply bind_ok in H as (u6 & s6 & _ & H).
    injection H as <- _.
    exists (o_message res), calls, results. rewrite <- app_assoc.
    split; [reflexivity|]. split; [exact Calls|].
    exact (forEach_runToolCall _ _ _ _ _ E5).
  - apply bind_ok in H as (u5 & s5 & _ & H). discriminate H.
  - apply bind_ok in H as (u5 & s5 & _ & H). discriminate H.
Qed.

(** ** At most one completion for every request *)

(** How the handling of a request ends: it returns and [c] is its only
    completion, posted last; or the rendering of a caught value threw, the
    handler throws and no completion is posted. *)
Lemma invocation_completes origin backend abort limitText g
      (r : Result bool * WState World) :
  invocationSpec origin backend abort limitText g r ->
  (fst r = Ok true
   /\ exists c, endsWith (snd r) c /\ isCompletion c = true /\ groupOf c = g
                /\ match c with CompactDone _ _ => False | _ => True end)
  \/ (exists caught e, errText caught = Throw e /\ fst r = Throw e
                       /\ calm (outbox (snd r))).
Proof.
  intros (_ & _ & Cases).
  destruct Cases as [(Hr & _ & _ & E) | [(Hr & before & t & raw & _ & _ & _ & _ & E)
                                        | (before & t & e & _ & _ & _ & E)]].
  - left. split; [exact Hr|]. eexists. split; [exact E|]. repeat split.
  - left. split; [exact Hr|]. eexists. split; [exact E|]. repeat split.
  - destruct (errText e) as [message|e'] eqn:T.
    + destruct E as [Hr E]. left. split; [exact Hr|].
      eexists. split; [exact E|]. repeat split.
    + destruct E as [Hr C]. right. exists e, e'. auto.
Qed.

Lemma handleInvoke_completes p w :
  let r := handleInvoke host p (start w) in
  (fst r = Ok true
   /\ exists c, endsWith (snd r) c /\ isCompletion c = true
                /\ groupOf c = InvokePayload.groupId p
                /\ match c with CompactDone _ _ => False | _ => True end)
  \/ (exists caught e, errText caught = Throw e /\ fst r = Throw e
                       /\ calm (outbox (snd r))).
Proof.
  cbv zeta. unfold handleInvoke. destruct (InvokePayload.provider p).
  - exact (invocation_completes _ _ _ _ _ _ (runAnthropic_spec host p w)).
  - exact (invocation_completes _ _ _ _ _ _ (runOllama_spec host p w)).
Qed.

Ltac compaction_failed t1 :=
  match goal with
  | |- context [errText ?e] =>
      let T := fresh "T" in
      destruct (errText e) eqn:T;
      cbn [await ret throw post fst snd outbox app world backendLog];
      [ left; split; [reflexivity|]; exists t1; right; eexists; reflexivity
      | right; do 2 eexists; split; [exact T|]; split; [reflexivity|];
        exists t1; reflexivity ]
  | _ => left; split; [reflexivity|]; exists t1; right; eexists; reflexivity
  end.

Lemma handleCompact_outbox p w :
  let r := handleCompact host net p (start w) in
  (fst r = Ok tt
   /\ compactionDone (InvokePayload.groupId p)
        (List.length (InvokePayload.messages p)) (outbox (snd r)))
  \/ (exists caught e, errText caught = Throw e /\ fst r = Throw e
        /\ compactionLeft (InvokePayload.groupId p)
             (List.length (InvokePayload.messages p)) (outbox (snd r))).
Proof.
  cbv zeta. unfold handleCompact, compactionDone, compactionLeft.
  destruct (InvokePayload.provider p).
  - unfold compactAnthropic, log, tryCatch, bind, callTotal, call, post, start,
      summarizing. cbn [world outbox backendLog].
    destruct (now host w) as [t1 w1]. cbn [world outbox backendLog app].
    destruct (fetchAnthropicSummary net _ _ w1) as [[[status [text|e]|[res|e]]|e] w2];
      cbn [await ret throw world outbox backendLog app errText fst snd].
    + compaction_failed t1.
    + compaction_failed t1.
    + destruct (now host w2) as [t2 w3]. cbn [fst snd outbox app].
      left. split; [reflexivity|]. exists t1. left.
      exists t2, (joinText (content res)). reflexivity.
    + compaction_failed t1.
    + compaction_failed t1.
  - unfold compactOllama, log, tryCatch, bind, callTotal, call, post, start,
      summarizing, summaryOf. cbn [world outbox backendLog].
    destruct (now host w) as [t1 w1]. cbn [world outbox backendLog app].
    destruct (fetchOllamaSummary net _ _ w1) as [[[status [text|e]|[res|e]]|e] w2];
      cbn [await ret throw world outbox backendLog app errText fst snd].
    + compaction_failed t1.
    + compaction_failed t1.
    + destruct (os_choices res) as [[|choice rest]|];
        cbn [ret throw world typeError await errText outbox post fst snd app].
      * destruct (now host w2) as [t2 w3]. cbn [fst snd outbox app].
        left. split; [reflexivity|]. exists t1. left. exists t2, []. reflexivity.
      * destruct (now host w2) as [t2 w3]. cbn [fst snd outbox app].
        left. split; [reflexivity|]. exists t1. left. exists t2.
        exists (match sc_message choice with
                | Some message =>
                    match sm_content message with
                    | Some content => orElse content []
                    | None => []
                    end
                | None => []
                end). reflexivity.
      * compaction_failed t1.
    + compaction_failed t1.
    + compaction_failed t1.
Qed.

Lemma handleCompact_completes p w :
  let r := handleCompact host net p (start w) in
  (fst r = Ok tt
   /\ exists c, endsWith (snd r) c /\ isCompletion c = true
                /\ groupOf c = InvokePayload.groupId p
                /\ match c with Response _ _ => False | _ => True end)
  \/ (exists caught e, errText caught = Throw e /\ fst r = Throw e
                       /\ calm (outbox (snd r))).
Proof.
  cbv zeta.
  destruct (handleCompact_outbox p w)
    as [(R & t1 & [(t2 & summary & O) | (message & O)]) | (caught & e & T & R & t1 & O)].
  - left. split; [exact R|]. exists (CompactDone (InvokePayload.groupId p) summary).
    split; [|repeat split].
    eexists. rewrite O. split.
    + change [?a; ?b; ?c; ?d] with ([a; b; c] ++ [d]). reflexivity.
    + repeat constructor.
  - left. split; [exact R|].
    exists (Error (InvokePayload.groupId p) (compactionFailed message)).
    split; [|repeat split].
    eexists. rewrite O. split.
    + change [?a; ?b; ?c] with ([a; b] ++ [c]). reflexivity.
    + repeat constructor.
  - right. exists caught, e. split; [exact T|]. split; [exact R|].
    rewrite O. repeat constructor.
Qed.

(** The tool activity of an invocation. *)
Lemma handleInvoke_activity p w :
  let r := handleInvoke host p (start w) in
  let g := InvokePayload.groupId p in
  exists names,
    paired g names (outbox (snd r))
    \/ (leftRunning g names (outbox (snd r))
        /\ forall g' text, ~ In (Response g' text) (outbox (snd r))).
Proof.
  cbv zeta. set (g := InvokePayload.groupId p).
  enough (H : forall r, r = handleInvoke host p (start w) ->
                exists names,
                  paired g names (outbox (snd r))
                  \/ (leftRunning g names (outbox (snd r))
                      /\ forall g' text, ~ In (Response g' text) (outbox (snd r))))
    by (apply H; reflexivity).
  intros r Hr. unfold handleInvoke in Hr.
  destruct (InvokePayload.provider p);
    [unfold invokeAnthropic in Hr | unfold invokeOllama in Hr];
    cbv zeta in Hr; fold g in Hr; unfold bind at 1 in Hr;
    cbn [post start outbox world backendLog app] in Hr;
    match type of Hr with context [bind (log host g KInfo ?l ?d)] =>
      destruct (run_sure (log host g KInfo l d)
                  {| world := w; outbox := [Typing g]; backendLog := [] |}
                  (quiet_log host _ _ _ _) (total_log host _ _ _ _))
        as (u1 & st1 & e1 & E1 & O1 & C1 & L1);
      destruct (emits_log host g (Forall (plain g)) (plain_nil g) (plain_app g)
                  (plain_one g) KInfo l d
                  {| world := w; outbox := [Typing g]; backendLog := [] |})
        as (e1' & O1' & P1)
    end;
    unfold bind at 1 in Hr; rewrite E1 in *; cbn [snd outbox backendLog] in O1, L1, O1';
    rewrite O1 in O1'; apply app_inv_head in O1'; subst e1' r.
  - match goal with |- context [tryCatch ?body _ st1] =>
      pose proof (invocation_activity g (fromAnthropic host) "Anthropic"%string
                    (anthropicAbort host g) anthropicLimitText body
                    ([Typing g] ++ e1) st1) as K
    end.
    cbv zeta in K. apply K; clear K.
    + exact O1.
    + apply plain_app; [apply plain_one; split; reflexivity|exact P1].
    + apply calm_app; [constructor; [reflexivity|constructor]|exact C1].
    + rewrite anthropicLoop_shape.
      apply loopOf_spec; [apply anthropicRound_spec | unfold maxIterations; lia ..].
    + intro st. rewrite anthropicLoop_shape.
      apply pairing_loopOf. intros. apply pairing_anthropicRound. reflexivity.
  - match goal with |- context [tryCatch ?body _ st1] =>
      pose proof (invocation_activity g (fromOllama host) "Ollama"%string
                    (ollamaAbort host g) ollamaLimitText body
                    ([Typing g] ++ e1) st1) as K
    end.
    cbv zeta in K. apply K; clear K.
    + exact O1.
    + apply plain_app; [apply plain_one; split; reflexivity|exact P1].
    + apply calm_app; [constructor; [reflexivity|constructor]|exact C1].
    + rewrite ollamaLoop_shape.
      apply loopOf_spec; [apply ollamaRound_spec | unfold maxIterations; lia ..].
    + intro st. rewrite ollamaLoop_shape.
      apply pairing_loopOf. intros. apply pairing_ollamaRound. reflexivity.
Qed.

End Answers.

(** X2. Every envelope the worker posts while it handles an [invoke] or a
    [compact] message carries the group of the payload, the envelopes of the
    tools included; handling [cancel] posts nothing. *)
Theorem envelopes_carry_group {World : Type} (host : Worker.Host World)
        (net : Compaction.SummaryHost World) (m : WorkerInbound) (w : World) :
  Forall (fun x => match m with
                   | Invoke p | Compact p =>
                       Envelopes.groupOf x = InvokePayload.groupId p
                   | Cancel _ => False
                   end)
         (Worker.outbox (snd (Compaction.onmessage host net m (Worker.start w)))).
Proof.
  assert (K : forall p, m = Invoke p \/ m = Compact p ->
            Forall (fun x => Envelopes.groupOf x = InvokePayload.groupId p)
              (Worker.outbox (snd (Compaction.onmessage host net m (Worker.start w))))).
  { intros p Hm.
    destruct (emits_onmessage host net (InvokePayload.groupId p)
                (Forall (fun x => Envelopes.groupOf x = InvokePayload.groupId p)))
      with (m := m) (st := Worker.start w) as (extra & O & F).
    - constructor.
    - intros a b Ha Hb. apply Forall_app. split; assumption.
    - intros x [_ G]. constructor; [exact G|constructor].
    - intros name status. repeat constructor.
    - destruct Hm as [-> | ->]; reflexivity.
    - rewrite O. exact F. }
  destruct m as [p|g|p].
  - apply K. left. reflexivity.
  - constructor.
  - apply K. right. reflexivity.
Qed.

(** X3. The tool-activity envelopes of an invocation come in pairs,
    ['running'] then ['done'] for the same tool, one pair after the other,
    with one exception: when the run of a tool makes the loop throw
    ([executeTool] rejects or resolves to [undefined]) that tool is left
    shown as running, nothing follows it, and the invocation posts no
    response. A compaction posts no tool activity. *)
Theorem tool_activity_is_paired {World : Type} (host : Worker.Host World)
        (net : Compaction.SummaryHost World) (m : WorkerInbound) (w : World) :
  let r := Compaction.onmessage host net m (Worker.start w) in
  match m with
  | Invoke p =>
      exists names,
        Envelopes.paired (InvokePayload.groupId p) names (Worker.outbox (snd r))
        \/ (Envelopes.leftRunning (InvokePayload.groupId p) names
              (Worker.outbox (snd r))
            /\ forall g text, ~ In (Response g text) (Worker.outbox (snd r)))
  | _ => Envelopes.activity (Worker.outbox (snd r)) = []
  end.
Proof.
  cbv zeta. destruct m as [p|g|p].
  - destruct (handleInvoke_activity host p w) as (names & H).
    exists names. cbn [Compaction.onmessage]. unfold Worker.bind.
    destruct (Worker.handleInvoke host p (Worker.start w)) as [[b|e] st]; exact H.
  - reflexivity.
  - destruct (emits_handleCompact host net (InvokePayload.groupId p)
                (fun l => Envelopes.activity l = []))
      with (p := p) (st := Worker.start w) as (extra & O & F).
    + reflexivity.
    + intros a b Ha Hb. rewrite activity_app, Ha, Hb. reflexivity.
    + intros x Hx. apply (activity_plain (InvokePayload.groupId p)).
      constructor; [exact Hx|constructor].
    + reflexivity.
    + cbn [Compaction.onmessage]. rewrite O. exact F.
Qed.


(** X4. When a round of the loop goes on, the transcript grows by the
    assistant's message and by the results of its tools: with Anthropic each
    [tool_use] block of the assistant's message has its [tool_result] with
    the same identifier, in the same order, in one user message that
    follows; with the chat-completion protocol each tool call has its
    message of role [tool] with the identifier and the name of the call. No
    result is longer than 100000 code units. *)
Theorem tool_results_answer_requests {World : Type} (host : Worker.Host World)
        (p : InvokePayload.t) (it : nat) (st st' : Worker.WState World) :
  (forall msgs msgs',
      Worker.anthropicRound host p msgs it st = (Ok (Worker.Continue msgs'), st') ->
      exists blocks results,
        msgs' = msgs ++ [ConversationMessage.mk assistant (CBlocks blocks);
                         ConversationMessage.mk user (CBlocks results)]
        /\ Forall2 Envelopes.answersUse (Envelopes.toolUseIds blocks) results)
  /\ (forall msgs msgs',
         Worker.ollamaRound host p msgs it st = (Ok (Worker.Continue msgs'), st') ->
         exists message calls toolMessages,
           msgs' = msgs ++ [message] ++ toolMessages
           /\ Worker.cm_tool_calls message = Some calls
           /\ Forall2 Envelopes.answersCall calls toolMessages).
Proof.
  split; intros msgs msgs' H.
  - exact (anthropicRound_continues host p msgs it st msgs' st' H).
  - exact (ollamaRound_continues host p msgs it st msgs' st' H).
Qed.

Lemma tool_results_answer_requests_witness :
  exists results,
    fst (Worker.anthropicRound Observe.askingHost (Observe.samplePayload anthropic)
           [] 1 (Worker.start tt))
    = Ok (Worker.Continue
            [ConversationMessage.mk assistant (CBlocks (Worker.content Observe.askingReply));
             ConversationMessage.mk user (CBlocks results)])
    /\ Forall2 Envelopes.answersUse [lit "tu1"] results.
Proof.
  destruct (Worker.anthropicRound Observe.askingHost (Observe.samplePayload anthropic)
              [] 1 (Worker.start tt)) as [r st'] eqn:E.
  assert (R : exists msgs', r = Ok (Worker.Continue msgs')).
  { vm_compute in E. injection E as <- _. eexists. reflexivity. }
  destruct R as (msgs' & ->).
  destruct (proj1 (tool_results_answer_requests Observe.askingHost
                     (Observe.samplePayload anthropic) 1 (Worker.start tt) st')
              [] msgs' E) as (blocks & results & M & F).
  vm_compute in E. injection E as E _. rewrite <- E in M.
  injection M as B R. subst blocks. exists results. split.
  - cbn [fst]. rewrite <- E, <- R. reflexivity.
  - exact F.
Defined.

(** X23. The budget of the loop. Every invocation makes at most 25 backend
    round trips, in both protocol variants. Against a backend that asks for
    a tool on every round, and as long as running the tools of its replies
    does not throw, the invocation returns after exactly 25 round trips and
    its outbox ends with the response envelope carrying the fixed limit
    text of the variant, no error or other response envelope before it. *)
Theorem round_trips_bounded {World : Type} (host : Worker.Host World)
        (p : InvokePayload.t) (w : World) :
  (Observe.roundTrips (snd (Observe.runAnthropic host p w)) <= 25
   /\ Observe.roundTrips (snd (Observe.runOllama host p w)) <= 25)
  /\ (Observe.anthropicAlwaysAsks host ->
      Observe.anthropicToolsReturn host (InvokePayload.groupId p) ->
      fst (Observe.runAnthropic host p w) = Ok true
      /\ Observe.roundTrips (snd (Observe.runAnthropic host p w)) = 25
      /\ Observe.endsWith (snd (Observe.runAnthropic host p w))
           (Response (InvokePayload.groupId p) Worker.anthropicLimitText))
  /\ (Observe.ollamaAlwaysAsks host ->
      Observe.ollamaToolsReturn host (InvokePayload.groupId p) ->
      fst (Observe.runOllama host p w) = Ok true
      /\ Observe.roundTrips (snd (Observe.runOllama host p w)) = 25
      /\ Observe.endsWith (snd (Observe.runOllama host p w))
           (Response (InvokePayload.groupId p) Worker.ollamaLimitText)).
Proof.
  pose proof (runAnthropic_spec host p w) as SA.
  pose proof (runOllama_spec host p w) as SO.
  split; [split|split].
  - destruct SA as (_ & Len & _). exact Len.
  - destruct SO as (_ & Len & _). exact Len.
  - intros H T. apply (asked_to_the_end _ _ _ _ _ _ SA).
    + intros t Ht. apply (always_asking_anthropic host t H Ht).
    + intros t e (key & body & w0 & Ht) (res & st & Hres & Thrown).
      destruct (Worker.fetchAnthropic host key body w0) as [r w1] eqn:F.
      cbn [fst] in Ht. rewrite Hres in Ht.
      destruct r as [[status text|[res'|e']]|e']; try discriminate Ht.
      injection Ht as ->.
      destruct (T key body w0 res' w1 st F) as (results & R).
      rewrite R in Thrown. discriminate Thrown.
  - intros H T. apply (asked_to_the_end _ _ _ _ _ _ SO).
    + intros t Ht. apply (always_asking_ollama host t H Ht).
    + intros t e (url & body & w0 & Ht) (res & calls & st & Hres & Calls & Thrown).
      destruct (Worker.fetchOllama host url body w0) as [r w1] eqn:F.
      cbn [fst] in Ht. rewrite Hres in Ht.
      destruct r as [[status text|[res'|e']]|e']; try discriminate Ht.
      injection Ht as ->.
      destruct (T url body w0 res' w1 calls st F Calls) as (results & R).
      rewrite R in Thrown. discriminate Thrown.
Qed.

Lemma round_trips_bounded_witness :
  let a := Observe.runAnthropic Observe.askingHost (Observe.samplePayload anthropic) tt in
  let o := Observe.runOllama Observe.askingHost (Observe.samplePayload ollama) tt in
  (fst a = Ok true /\ Observe.roundTrips (snd a) = 25
   /\ Observe.endsWith (snd a) (Response (lit "br:main") Worker.anthropicLimitText))
  /\ (fst o = Ok true /\ Observe.roundTrips (snd o) = 25
      /\ Observe.endsWith (snd o) (Response (lit "br:main") Worker.ollamaLimitText)).
Proof.
  assert (HA : Observe.anthropicAlwaysAsks Observe.askingHost).
  { intros key body w. exists Observe.askingReply, w. split; reflexivity. }
  assert (HO : Observe.ollamaAlwaysAsks Observe.askingHost).
  { intros url body w. eexists Observe.askingChoice, _, w. repeat split; reflexivity. }
  assert (TA : Observe.anthropicToolsReturn Observe.askingHost (lit "br:main")).
  { intros key body w res w' st F. injection F as <- _.
    destruct st as [[] o l]. eexists. reflexivity. }
  assert (TO : Observe.ollamaToolsReturn Observe.askingHost (lit "br:main")).
  { intros url body w res w' calls st F Calls. injection F as <- _.
    injection Calls as <-. destruct st as [[] o l]. eexists. reflexivity. }
  split.
  - exact (proj1 (proj2 (round_trips_bounded Observe.askingHost
                           (Observe.samplePayload anthropic) tt)) HA TA).
  - exact (proj2 (proj2 (round_trips_bounded Observe.askingHost
                           (Observe.samplePayload ollama) tt)) HO TO).
Defined.

(** X25. A request the worker leaves unanswered. For the script
    [throw {toString(){throw this}}] the rendering of the caught value
    throws in the handler of the [javascript] tool, in that of
    [executeTool] and in that of the invocation: the handler of the worker
    throws, the outbox holds no completion, and the tool is left shown as
    running; so in both protocol variants. *)
Theorem unprintable_error_leaves_no_completion :
  let run pr :=
    Compaction.onmessage Observe.rethrowHost Compaction.summarizer
      (Invoke (Observe.samplePayload pr)) (Worker.start tt) in
  (fst (run anthropic) = Throw (Unprintable None)
   /\ WorkerSpec.calm (Worker.outbox (snd (run anthropic)))
   /\ Envelopes.activity (Worker.outbox (snd (run anthropic)))
      = [ToolActivity (lit "br:main") (lit "javascript") running])
  /\ (fst (run ollama) = Throw (Unprintable None)
      /\ WorkerSpec.calm (Worker.outbox (snd (run ollama)))
      /\ Envelopes.activity (Worker.outbox (snd (run ollama)))
         = [ToolActivity (lit "br:main") (lit "javascript") running]).
Proof.
  cbv zeta. split; (split; [reflexivity|]; split; [|reflexivity]);
    vm_compute; repeat constructor.
Qed.

(* ===================================================================== *)
(** * Compactions, tools and internal sections *)
(* ===================================================================== *)

Lemma endsWith_third {World : Type} (st : Worker.WState World) g entry c :
  Worker.outbox st = [Typing g; ThinkingLog entry; c] -> Observe.endsWith st c.
Proof.
  intro O. exists [Typing g; ThinkingLog entry]. split; [exact O|repeat constructor].
Qed.

Lemma endsWith_fourth {World : Type} (st : Worker.WState World) g entry entry' c :
  Worker.outbox st = [Typing g; ThinkingLog entry; ThinkingLog entry'; c] ->
  Observe.endsWith st c.
Proof.
  intro O. exists [Typing g; ThinkingLog entry; ThinkingLog entry'].
  split; [exact O|repeat constructor].
Qed.

(** X5. How a compaction ends, by what the backend gave. With Anthropic the
    summary is the concatenation of the text blocks of the reply; with the
    chat-completion protocol it is the content of the first choice, the
    empty string when there is none. A refusal of the backend comes back as
    ["Compaction failed: Anthropic API error <status>: <body>"], or as
    ["Compaction failed: Ollama API error: <body>"], without the status; any
    exception, as ["Compaction failed: <message>"], the message being that
    of the [Error] or the value as a string. For a thrown value whose
    conversion to a string throws, the compaction throws in its turn and
    posts no completion. *)
Theorem compaction_outcomes {World : Type} (host : Worker.Host World)
        (net : Compaction.SummaryHost World) (p : InvokePayload.t) (w : World) :
  let g := InvokePayload.groupId p in
  let w1 := snd (Worker.now host w) in
  let r := Compaction.handleCompact host net p (Worker.start w) in
  let failed e :=
    match errText e with
    | Ok message =>
        Observe.endsWith (snd r) (Error g (lit "Compaction failed: " ++ message))
    | Throw e' =>
        fst r = Throw e' /\ WorkerSpec.calm (Worker.outbox (snd r))
    end in
  match InvokePayload.provider p with
  | anthropic =>
      match fst (Compaction.fetchAnthropicSummary net (InvokePayload.apiKey p)
                   (Compaction.anthropicCompactBody p) w1) with
      | Ok (Worker.IsOk (Ok res)) =>
          Observe.endsWith (snd r) (CompactDone g (Worker.joinText (Worker.content res)))
      | Ok (Worker.NotOk status (Ok body)) =>
          Observe.endsWith (snd r)
            (Error g (lit "Compaction failed: Anthropic API error " ++ ofN status
                      ++ lit ": " ++ body))
      | Ok (Worker.NotOk _ (Throw e)) | Ok (Worker.IsOk (Throw e)) | Throw e => failed e
      end
  | ollama =>
      match fst (Compaction.fetchOllamaSummary net
                   (InvokePayload.ollamaUrl p ++ lit "/v1/chat/completions")
                   (Compaction.ollamaCompactBody host p) w1) with
      | Ok (Worker.IsOk (Ok res)) =>
          match Compaction.os_choices res with
          | Some (choice :: _) =>
              Observe.endsWith (snd r)
                (CompactDone g
                   (match Compaction.sc_message choice with
                    | Some message =>
                        match Compaction.sm_content message with
                        | Some content => content
                        | None => []
                        end
                    | None => []
                    end))
          | Some [] => Observe.endsWith (snd r) (CompactDone g [])
          | None =>
              Observe.endsWith (snd r)
                (Error g (lit "Compaction failed: " ++ Worker.nullDeref host (lit "0")))
          end
      | Ok (Worker.NotOk _ (Ok body)) =>
          Observe.endsWith (snd r)
            (Error g (lit "Compaction failed: Ollama API error: " ++ body))
      | Ok (Worker.NotOk _ (Throw e)) | Ok (Worker.IsOk (Throw e)) | Throw e => failed e
      end
  end.
Proof.
  cbv zeta. unfold Compaction.handleCompact.
  destruct (InvokePayload.provider p).
  - unfold Compaction.compactAnthropic, Worker.log, Worker.tryCatch, Worker.bind,
      Worker.callTotal, Worker.call, Worker.post, Worker.start.
    cbn [Worker.world Worker.outbox Worker.backendLog].
    destruct (Worker.now host w) as [t1 w1]. cbn [Worker.world Worker.outbox app snd].
    destruct (Compaction.fetchAnthropicSummary net _ _ w1)
      as [[[status [text|e]|[res|e]]|e] w2];
      cbn [fst Worker.await Worker.ret Worker.throw Worker.world Worker.outbox app
           errText];
      try (destruct (errText e) as [message|e'];
           cbn [fst snd Worker.await Worker.ret Worker.throw Worker.world
                Worker.outbox app];
           [eapply endsWith_third; reflexivity
           |split; [reflexivity|repeat constructor]]).
    + eapply endsWith_third. reflexivity.
    + destruct (Worker.now host w2) as [t2 w3].
      eapply endsWith_fourth. reflexivity.
  - unfold Compaction.compactOllama, Worker.log, Worker.tryCatch, Worker.bind,
      Worker.callTotal, Worker.call, Worker.post, Worker.start, Compaction.summaryOf.
    cbn [Worker.world Worker.outbox Worker.backendLog].
    destruct (Worker.now host w) as [t1 w1]. cbn [Worker.world Worker.outbox app snd].
    destruct (Compaction.fetchOllamaSummary net _ _ w1)
      as [[[status [text|e]|[res|e]]|e] w2];
      cbn [fst Worker.await Worker.ret Worker.throw Worker.world Worker.outbox app
           errText];
      try (destruct (errText e) as [message|e'];
           cbn [fst snd Worker.await Worker.ret Worker.throw Worker.world
                Worker.outbox app];
           [eapply endsWith_third; reflexivity
           |split; [reflexivity|repeat constructor]]).
    + eapply endsWith_third. reflexivity.
    + destruct (Compaction.os_choices res) as [[|choice rest]|];
        cbn [Worker.ret Worker.throw Worker.world Worker.typeError errText
             Worker.await].
      * destruct (Worker.now host w2) as [t2 w3].
        eapply endsWith_fourth. reflexivity.
      * destruct (Worker.now host w2) as [t2 w3].
        destruct (Compaction.sc_message choice) as [[[[|c content]|]]|];
          eapply endsWith_fourth; reflexivity.
      * eapply endsWith_third. reflexivity.
Qed.

(** ** Tools *)

Lemma not_named (name : jsstring) s :
  name <> lit s -> JS.eqb name (lit s) = false.
Proof. intro H. apply str_eqb_neq. exact H. Qed.

(** X14. A tool name [executeTool] has no case for is no error: the result is
    the string ["Unknown tool: <name>"], nothing is posted and the host is
    not called. *)
Theorem unknown_tool_is_reported {World : Type} (host : Worker.Host World)
        (name : jsstring) (input : JValue) (g : jsstring)
        (st : Worker.WState World) :
  ~ In name Envelopes.toolNames ->
  Worker.executeTool host name input g st
  = (Ok (Some (lit "Unknown tool: " ++ name)), st).
Proof.
  intro H. unfold Envelopes.toolNames in H. cbn [In] in H.
  unfold Worker.executeTool, Worker.tryCatch, Worker.toolSwitch.
  rewrite !not_named by (intro E; apply H; rewrite E; tauto).
  reflexivity.
Qed.

Lemma unknown_tool_is_reported_witness :
  Worker.executeTool Observe.askingHost (lit "shell") JNull (lit "br:main")
                     (Worker.start tt)
  = (Ok (Some (lit "Unknown tool: shell")), Worker.start tt).
Proof.
  apply (unknown_tool_is_reported Observe.askingHost (lit "shell") JNull
           (lit "br:main") (Worker.start tt)).
  unfold Envelopes.toolNames. cbn [In].
  intros [H|[H|[H|[H|[H|[H|[H|[H|[]]]]]]]]]; discriminate H.
Defined.

(** X24. An exception of a tool becomes its result. What the [switch] of
    [executeTool] throws comes back as the string
    ["Tool error (<name>): <message>"] whenever the thrown value renders, as
    the message of an [Error] or as the string of another value; so, for
    [read_file], does a failure of the file store. The [javascript] tool
    catches the exceptions of the evaluated code itself and gives
    ["JavaScript error: <message>"]. *)
Theorem tool_errors_become_results {World : Type} (host : Worker.Host World)
        (name : jsstring) (input : JValue) (g : jsstring)
        (st : Worker.WState World) :
  (forall e st' message,
      Worker.toolSwitch host name input g st = (Throw e, st') ->
      errText e = Ok message ->
      Worker.executeTool host name input g st
      = (Ok (Some (Worker.toolErrorText name message)), st'))
  /\ (forall fields e w' message,
         input = JObj fields ->
         Worker.readGroupFile host g (field "path" input) (Worker.world st)
         = (Throw e, w') ->
         errText e = Ok message ->
         Worker.executeTool host (lit "read_file") input g st
         = (Ok (Some (Worker.toolErrorText (lit "read_file") message)),
            WorkerSpec.inWorld st w'))
  /\ (forall fields e w' message,
         input = JObj fields ->
         Worker.evalScript host (field "code" input) (Worker.world st)
         = (Throw e, w') ->
         errText e = Ok message ->
         Worker.executeTool host (lit "javascript") input g st
         = (Ok (Some (lit "JavaScript error: " ++ message)),
            WorkerSpec.inWorld st w')).
Proof.
  split; [|split].
  - intros e st' message H T. unfold Worker.executeTool, Worker.tryCatch.
    rewrite H. unfold Worker.bind, Worker.await. rewrite T. reflexivity.
  - intros fields e w' message -> H T.
    unfold Worker.executeTool, Worker.tryCatch, Worker.toolSwitch.
    change (JS.eqb (lit "read_file") (lit "bash")) with false.
    change (JS.eqb (lit "read_file") (lit "read_file")) with true. cbv iota.
    unfold Worker.stringOut, Worker.toolReadFile, Worker.bind, Worker.prop,
      Worker.ret, Worker.call, Worker.await.
    rewrite H, T. reflexivity.
  - intros fields e w' message -> H T.
    unfold Worker.executeTool, Worker.toolSwitch.
    change (JS.eqb (lit "javascript") (lit "bash")) with false.
    change (JS.eqb (lit "javascript") (lit "read_file")) with false.
    change (JS.eqb (lit "javascript") (lit "write_file")) with false.
    change (JS.eqb (lit "javascript") (lit "list_files")) with false.
    change (JS.eqb (lit "javascript") (lit "fetch_url")) with false.
    change (JS.eqb (lit "javascript") (lit "update_memory")) with false.
    change (JS.eqb (lit "javascript") (lit "create_task")) with false.
    change (JS.eqb (lit "javascript") (lit "javascript")) with true. cbv iota.
    unfold Worker.toolJavascript, Worker.tryCatch, Worker.bind, Worker.prop,
      Worker.ret, Worker.call, Worker.await.
    rewrite H, T. reflexivity.
Qed.

Lemma tool_errors_become_results_witness :
  Worker.executeTool Observe.askingHost (lit "read_file") Observe.badPath
                     (lit "br:main") (Worker.start tt)
  = (Ok (Some (lit "Tool error (read_file): File not found: /no/such")),
     Worker.start tt)
  /\ Worker.executeTool Observe.askingHost (lit "javascript")
                        (JObj [(lit "code", JStr (lit "null.x"))])
                        (lit "br:main") (Worker.start tt)
     = (Ok (Some (lit "JavaScript error: boom")), Worker.start tt).
Proof.
  pose proof (tool_errors_become_results Observe.askingHost (lit "read_file")
                Observe.badPath (lit "br:main") (Worker.start tt)) as R.
  pose proof (tool_errors_become_results Observe.askingHost (lit "javascript")
                (JObj [(lit "code", JStr (lit "null.x"))]) (lit "br:main")
                (Worker.start tt)) as J.
  split.
  - exact (proj1 (proj2 R) _ Observe.notFound tt _ eq_refl eq_refl eq_refl).
  - exact (proj2 (proj2 J) _ Observe.boom tt _ eq_refl eq_refl eq_refl).
Defined.




(** ** Internal sections *)

Section Internal.

Import Worker.

Lemma startsWith_app p r : startsWith p (p ++ r) = true.
Proof.
  induction p as [|c p IH]; [reflexivity|]. cbn [startsWith app].
  rewrite N.eqb_refl. exact IH.
Qed.

Lemma includes_here needle c r :
  includes needle (c :: r) = false ->
  startsWith needle (c :: r) = false /\ includes needle r = false.
Proof. cbn [includes]. intro H. apply orb_false_iff in H. exact H. Qed.

Lemma includes_skipn needle k s :
  includes needle s = false -> includes needle (skipn k s) = false.
Proof.
  revert s. induction k as [|k IH]; intros s H; [exact H|].
  destruct s as [|c r]; [exact H|]. cbn [skipn]. apply IH.
  apply (includes_here _ _ _ H).
Qed.

Lemma closeOffset_none s : includes closeTag s = false -> closeOffset s = None.
Proof.
  induction s as [|c r IH]; intro H.
  - reflexivity.
  - destruct (includes_here _ _ _ H) as [S I]. cbn [closeOffset]. rewrite S.
    rewrite (IH I). reflexivity.
Qed.

Lemma stripFrom_unclosed s : includes closeTag s = false -> stripFrom 0 s = s.
Proof.
  induction s as [|c r IH]; intro H; [reflexivity|].
  destruct (includes_here _ _ _ H) as [_ I]. cbn [stripFrom].
  rewrite (closeOffset_none _ (includes_skipn _ _ _ H)).
  destruct (startsWith openTag (c :: r)); rewrite (IH I); reflexivity.
Qed.

Lemma startsWith_other tag c r :
  c <> 60%N -> startsWith (60%N :: tag) (c :: r) = false.
Proof.
  intro N. cbn [startsWith]. destruct (60 =? c)%N eqn:E; [|reflexivity].
  apply N.eqb_eq in E. congruence.
Qed.

Lemma closeOffset_found x rest :
  ~ In 60%N x -> closeOffset (x ++ closeTag ++ rest) = Some (List.length x).
Proof.
  induction x as [|c x IH]; intro H.
  - cbn [app List.length]. destruct (closeTag ++ rest) as [|d r] eqn:E; [discriminate E|].
    cbn [closeOffset]. rewrite <- E, startsWith_app. reflexivity.
  - cbn [app closeOffset List.length].
    change closeTag with (60%N :: lit "/internal>") at 1.
    rewrite startsWith_other by (intro E; apply H; left; auto).
    rewrite IH by (intro E; apply H; right; exact E). reflexivity.
Qed.

Lemma stripFrom_skip l b : stripFrom (List.length l) (l ++ b) = stripFrom 0 b.
Proof.
  induction l as [|c l IH]; [reflexivity|]. cbn [List.length app stripFrom]. exact IH.
Qed.

Lemma stripFrom_section a x b :
  ~ In 60%N a -> ~ In 60%N x ->
  stripFrom 0 (a ++ openTag ++ x ++ closeTag ++ b) = a ++ stripFrom 0 b.
Proof.
  intros Ha Hx. induction a as [|c a IH].
  - cbn [app].
    change openTag with (60%N :: lit "internal>").
    cbn [app stripFrom].
    change (60%N :: lit "internal>" ++ x ++ closeTag ++ b)
      with (openTag ++ x ++ closeTag ++ b).
    rewrite startsWith_app.
    change (skipn (List.length openTag) (openTag ++ x ++ closeTag ++ b))
      with (x ++ closeTag ++ b).
    rewrite (closeOffset_found x b Hx).
    replace (List.length openTag + List.length x + List.length closeTag - 1)
      with (List.length (lit "internal>" ++ x ++ closeTag)).
    + replace (lit "internal>" ++ x ++ closeTag ++ b)
        with ((lit "internal>" ++ x ++ closeTag) ++ b)
        by (rewrite <- !app_assoc; reflexivity).
      apply stripFrom_skip.
    + rewrite !length_app.
      change (List.length (lit "internal>")) with 9.
      change (List.length openTag) with 10.
      change (List.length closeTag) with 11. lia.
  - cbn [app stripFrom].
    change openTag with (60%N :: lit "internal>") at 1.
    rewrite startsWith_other by (intro E; apply Ha; left; auto).
    rewrite IH by (intro E; apply Ha; right; exact E). reflexivity.
Qed.

End Internal.

(** X17. What [stripInternal] removes. A section from [<internal>] to the next
    [</internal>] goes, and the text around it stays (here for a section
    and a text before it that hold no [<]). An [<internal>] that is never
    closed is no section: a text without [</internal>] comes out as it went
    in, the reasoning after the opening tag included. *)
Theorem internal_sections (a x b text : jsstring) :
  (~ In 60%N a -> ~ In 60%N x ->
   Worker.stripInternal (a ++ Worker.openTag ++ x ++ Worker.closeTag ++ b)
   = a ++ Worker.stripInternal b)
  /\ (Worker.includes Worker.closeTag text = false ->
      Worker.stripInternal text = text).
Proof.
  split.
  - apply stripFrom_section.
  - apply stripFrom_unclosed.
Qed.

Lemma internal_sections_witness :
  Worker.stripInternal (lit "Hi. <internal>plan: greet</internal>Hello!")
  = lit "Hi. Hello!"
  /\ Worker.stripInternal (lit "Hello <internal>never closed")
     = lit "Hello <internal>never closed".
Proof.
  split.
  - apply (proj1 (internal_sections (lit "Hi. ") (lit "plan: greet") (lit "Hello!") [])).
    + cbn. intuition discriminate.
    + cbn. intuition discriminate.
  - apply (proj2 (internal_sections [] [] [] (lit "Hello <internal>never closed"))).
    reflexivity.
Defined.

(** ** White space *)

Lemma trimStart_blank s : trimStart s = [] <-> forallb isWhiteSpace s = true.
Proof.
  induction s as [|c r IH]; cbn [trimStart forallb]; [tauto|].
  destruct (isWhiteSpace c); cbn [andb]; [exact IH|].
  split; discriminate.
Qed.

Lemma trimStart_fixed s :
  forallb isWhiteSpace (trimStart s) = true -> trimStart s = [].
Proof.
  induction s as [|c r IH]; cbn [trimStart]; [reflexivity|].
  destruct (isWhiteSpace c) eqn:W; [exact IH|].
  cbn [forallb]. rewrite W. discriminate.
Qed.

Lemma forallb_rev {A} (f : A -> bool) l : forallb f (rev l) = forallb f l.
Proof.
  induction l as [|x l IH]; [reflexivity|]. cbn [rev forallb].
  rewrite forallb_app, IH. cbn. rewrite andb_true_r. apply andb_comm.
Qed.

Lemma trim_blank s : trim s = [] <-> forallb isWhiteSpace s = true.
Proof.
  unfold trim, trimEnd. split.
  - intro H. apply (f_equal (@rev N)) in H. rewrite rev_involutive in H.
    cbn [rev] in H. apply trimStart_blank in H. rewrite forallb_rev in H.
    apply trimStart_blank, trimStart_fixed, H.
  - intro H. apply trimStart_blank in H. rewrite H. reflexivity.
Qed.

Lemma trimStart_snoc a c :
  isWhiteSpace c = false -> trimStart (a ++ [c]) = trimStart a ++ [c].
Proof.
  intro W. induction a as [|x a IH]; cbn [app trimStart].
  - rewrite W. reflexivity.
  - destruct (isWhiteSpace x); [exact IH|reflexivity].
Qed.

Lemma trimEnd_cons c r :
  isWhiteSpace c = false -> trimEnd (c :: r) = c :: trimEnd r.
Proof.
  intro W. unfold trimEnd. cbn [rev]. rewrite (trimStart_snoc _ _ W).
  rewrite rev_app_distr. reflexivity.
Qed.

Lemma trimStart_idem s : trimStart (trimStart s) = trimStart s.
Proof.
  induction s as [|c r IH]; [reflexivity|]. cbn [trimStart].
  destruct (isWhiteSpace c) eqn:W; [exact IH|]. cbn [trimStart]. rewrite W.
  reflexivity.
Qed.

Lemma trimEnd_idem s : trimEnd (trimEnd s) = trimEnd s.
Proof.
  unfold trimEnd. rewrite rev_involutive, trimStart_idem. reflexivity.
Qed.

Lemma trimStart_head s :
  trimStart s = [] \/ exists c r, trimStart s = c :: r /\ isWhiteSpace c = false.
Proof.
  induction s as [|c r IH]; [left; reflexivity|]. cbn [trimStart].
  destruct (isWhiteSpace c) eqn:W; [exact IH|]. right. exists c, r. auto.
Qed.

Lemma trim_idem s : trim (trim s) = trim s.
Proof.
  unfold trim. destruct (trimStart_head s) as [-> | (c & r & -> & W)].
  - reflexivity.
  - rewrite (trimEnd_cons _ _ W). cbn [trimStart]. rewrite W.
    rewrite <- (trimEnd_cons _ _ W). apply trimEnd_idem.
Qed.

Lemma trimStart_incl s c : In c (trimStart s) -> In c s.
Proof.
  induction s as [|x r IH]; cbn [trimStart]; [tauto|].
  destruct (isWhiteSpace x); [|tauto]. intro H. right. apply IH, H.
Qed.

Lemma trim_incl s c : In c (trim s) -> In c s.
Proof.
  unfold trim, trimEnd. intro H. apply in_rev in H. apply trimStart_incl in H.
  apply in_rev in H. apply trimStart_incl, H.
Qed.

(* ===================================================================== *)
(** * More on the coordinator *)
(* ===================================================================== *)

Section Draining.

Import Orchestrator Flight QueueSpec.

Variable up : N -> jsstring.
Variable ulid : N -> jsstring.

Lemma invoked_shifted s msg :
  map fst (filter snd (shifted (history s) ++ [(msg, true)])) = invoked s ++ [msg].
Proof. unfold invoked. rewrite filter_app, map_app. reflexivity. Qed.

(** One more step of [processQueue]'s call, the backend configured: either
    the flag stays up and no message is lost, or the call was the last and
    the queue is empty. *)
Lemma resume_owned k o s :
  queueOwned k = true -> processing (this s) = true ->
  isConfigured (this s) = true ->
  isConfigured (this (resume ulid k o s)) = true
  /\ ((processing (this (resume ulid k o s)) = true
       /\ invoked (resume ulid k o s) ++ messageQueue (this (resume ulid k o s))
          = invoked s ++ messageQueue (this s))
      \/ (processing (this (resume ulid k o s)) = false
          /\ messageQueue (this (resume ulid k o s)) = []
          /\ messageQueue (this s) = []
          /\ invoked (resume ulid k o s) = invoked s)).
Proof.
  intros Own P C.
  destruct k as [stored | [] g stored | [] g | [] g memory | r];
    try discriminate Own; cbn [resume].
  - destruct o; cbn [settle]; (split; [exact C|left; split; [exact P|reflexivity]]).
  - split; [exact C|left; split; [exact P|reflexivity]].
  - destruct o; cbn [settle]; (split; [exact C|left; split; [exact P|reflexivity]]).
  - unfold finallyProcessQueue. cbn [this updThis withProcessing messageQueue].
    destruct (messageQueue (this s)) as [|msg rest] eqn:Q.
    + split; [exact C|]. right. cbn. rewrite Q. auto.
    + unfold processQueue. cbn [this updThis withProcessing processing messageQueue].
      rewrite Q.
      assert (C' : isConfigured (withProcessing false (this s)) = true) by exact C.
      rewrite C'. cbn [negb]. unfold invokeAgent.
      destruct (startsWith scheduledMarker (InboundMessage.content msg)).
      * split; [exact C|]. left. split; [reflexivity|].
        unfold invoked at 1. cbn. rewrite invoked_shifted, <- app_assoc. reflexivity.
      * split; [exact C|]. left. split; [reflexivity|].
        unfold invoked at 1. cbn. rewrite invoked_shifted, <- app_assoc. reflexivity.
Qed.

Lemma drain_idle oracle fuel s :
  processing (this s) = false -> drain up ulid oracle fuel s = s.
Proof. intro P. destruct fuel; cbn [drain]; [reflexivity|]. rewrite P. reflexivity. Qed.

Lemma drain_empties oracle fuel s :
  Inv s -> isConfigured (this s) = true -> processing (this s) = true ->
  load s <= fuel ->
  processing (this (drain up ulid oracle fuel s)) = false
  /\ messageQueue (this (drain up ulid oracle fuel s)) = []
  /\ invoked (drain up ulid oracle fuel s) = invoked s ++ messageQueue (this s).
Proof.
  revert s. induction fuel as [|fuel IH]; intros s I C P Hl.
  - exfalso. destruct I as [Hc Hq]. pose proof Hc as Hc'. rewrite P in Hc'.
    destruct (ownedIndex_found (pending s)) as (i & k & _ & Hn & Own).
    { unfold queueCalls in Hc'. lia. }
    pose proof (load_resume ulid i (oracle 0) s k Hn Own (conj Hc Hq) P). lia.
  - cbn [drain]. rewrite P.
    destruct I as [Hc Hq]. pose proof Hc as Hc'. rewrite P in Hc'.
    destruct (ownedIndex_found (pending s)) as (i & k & E & Hn & Own).
    { unfold queueCalls in Hc'. lia. }
    rewrite E.
    pose proof (load_resume ulid i (oracle fuel) s k Hn Own (conj Hc Hq) P) as Less.
    pose proof (Inv_step up ulid s (Resume i (oracle fuel)) (conj Hc Hq)) as I1.
    cbn [step] in *. rewrite Hn in *.
    set (s0 := withPending (dropNth i (pending s)) s) in *.
    destruct (resume_owned k (oracle fuel) s0 Own P C) as (C1 & [(P1 & Keep) | (P1 & Q1 & Q0 & Keep)]).
    + destruct (IH _ I1 C1 P1) as (Pf & Qf & Vf); [lia|].
      split; [exact Pf|]. split; [exact Qf|]. rewrite Vf. exact Keep.
    + rewrite (drain_idle _ _ _ P1).
      split; [exact P1|]. split; [exact Q1|]. rewrite Keep.
      change (messageQueue (this s0)) with (messageQueue (this s)) in Q0.
      rewrite Q0, app_nil_r. reflexivity.
Qed.

End Draining.

(** X7. Once [processQueue] has taken a message, the backend being configured,
    the queue is drained to the end without any further arrival: whether
    the awaited calls return or throw, after at most four resumptions per
    waiting message and four more the flag is down, the queue is empty, and
    [invokeAgent] has been called for each of the waiting messages, in their
    order. *)
Theorem queue_drains (up ulid : N -> jsstring) (cfg : Orchestrator.Fields)
        (store : Db.Store) (inputs : list Orchestrator.Input)
        (oracle : nat -> Orchestrator.Outcome) :
  let s := Orchestrator.run up ulid (Orchestrator.initial cfg store) inputs in
  let s' := Flight.drain up ulid oracle
              (4 * List.length (Orchestrator.messageQueue (Orchestrator.this s)) + 4) s in
  Orchestrator.isConfigured (Orchestrator.this s) = true ->
  Orchestrator.processing (Orchestrator.this s) = true ->
  Orchestrator.processing (Orchestrator.this s') = false
  /\ Orchestrator.messageQueue (Orchestrator.this s') = []
  /\ Flight.invoked s'
     = Flight.invoked s ++ Orchestrator.messageQueue (Orchestrator.this s).
Proof.
  intros s s' C P.
  assert (I : QueueSpec.Inv s) by apply Inv_run, Inv_initial.
  apply drain_empties; try assumption.
  unfold QueueSpec.load. rewrite P.
  pose proof (phases_bound (Orchestrator.pending s)) as B.
  destruct I as [Hc _]. fold (Flight.queueCalls s) in B. rewrite Hc, P in B. lia.
Qed.

Lemma queue_drains_witness :
  let s := Orchestrator.run Mention.plainUpper Flight.sampleUlid Samples.configured
             [ Orchestrator.Inbound (Flight.browserMessage "a" "first");
               Orchestrator.Inbound (Flight.browserMessage "b" "second");
               Orchestrator.Inbound (Flight.browserMessage "c" "third");
               Orchestrator.Resume 0 Flight.resolved ] in
  let s' := Flight.drain Mention.plainUpper Flight.sampleUlid Samples.rejecting 12 s in
  List.length (Orchestrator.messageQueue (Orchestrator.this s)) = 2
  /\ Orchestrator.messageQueue (Orchestrator.this s') = []
  /\ Flight.invoked s'
     = [ Flight.browserMessage "a" "first"; Flight.browserMessage "b" "second";
         Flight.browserMessage "c" "third" ].
Proof.
  intros s s'. split; [reflexivity|].
  pose proof (queue_drains Mention.plainUpper Flight.sampleUlid
                (Flight.sampleFields (lit "sk-test")) []
                [ Orchestrator.Inbound (Flight.browserMessage "a" "first");
                  Orchestrator.Inbound (Flight.browserMessage "b" "second");
                  Orchestrator.Inbound (Flight.browserMessage "c" "third");
                  Orchestrator.Resume 0 Flight.resolved ]
                Samples.rejecting eq_refl eq_refl) as H.
  split; [exact (proj1 (proj2 H)) | exact (proj2 (proj2 H))].
Defined.

(** ** Which backend counts as configured *)

Lemma len_positive (x : jsstring) : (0 <? len x)%N = true <-> x <> [].
Proof.
  destruct x as [|c r]; unfold len; cbn [List.length]; split; intro H;
    try reflexivity; try discriminate; try congruence.
Qed.

Lemma not_all_blank s :
  forallb isWhiteSpace s <> true <-> exists c, In c s /\ isWhiteSpace c = false.
Proof.
  induction s as [|x s IH]; cbn [forallb].
  - split; [congruence | intros (c & [] & _)].
  - destruct (isWhiteSpace x) eqn:W; cbn [andb].
    + rewrite IH. split; intros (c & H & Wc); exists c.
      * split; [right; exact H | exact Wc].
      * destruct H as [-> | H]; [congruence | auto].
    + split; [intros _; exists x; split; [left; reflexivity | exact W] | discriminate].
Qed.

(** X12. [isConfigured] looks at the key or at the URL, by the provider chosen:
    with Anthropic any non-empty key counts, one made of blanks included;
    with Ollama the URL must hold a character that is no white space. *)
Theorem configured_iff (t : Orchestrator.Fields) :
  Orchestrator.isConfigured t = true
  <-> match Orchestrator.provider t with
      | anthropic => Orchestrator.apiKey t <> []
      | ollama =>
          exists c, In c (Orchestrator.ollamaUrl t) /\ isWhiteSpace c = false
      end.
Proof.
  unfold Orchestrator.isConfigured. destruct (Orchestrator.provider t).
  - apply len_positive.
  - rewrite len_positive, <- not_all_blank, <- trim_blank. reflexivity.
Qed.

(** ** Compaction requests *)

Section Requests.

Import Orchestrator Flight QueueSpec.

Variable ulid : N -> jsstring.

Lemma compactContext_refused f g s :
  isConfigured (this s) = false \/ state (this s) <> idle ->
  fst (compactContext f g s) = Ok tt
  /\ this (snd (compactContext f g s)) = this s
  /\ db (snd (compactContext f g s)) = db s
  /\ exists text, effects (snd (compactContext f g s))
                  = effects s ++ [Emit (EvError g text)].
Proof.
  intro H. unfold compactContext, obind, oget, lift.
  destruct (isConfigured (this s)) eqn:C; cbn [negb].
  - destruct H as [H|H]; [discriminate H|].
    destruct (state (this s)) eqn:St; [congruence| |]; cbn; eauto 6.
  - cbn. eauto 6.
Qed.

Lemma hasGroup_deleted g set : hasGroup g (deleteGroup g set) = false.
Proof.
  unfold hasGroup, deleteGroup. induction set as [|x set IH]; [reflexivity|].
  cbn [filter]. destruct (JS.eqb g x) eqn:E; cbn [negb]; [exact IH|].
  cbn [existsb]. rewrite E. exact IH.
Qed.

Lemma hasGroup_other g g' set :
  g' <> g -> hasGroup g' (deleteGroup g set) = hasGroup g' set.
Proof.
  intro N. unfold hasGroup, deleteGroup. induction set as [|x set IH]; [reflexivity|].
  cbn [filter existsb]. destruct (JS.eqb g x) eqn:E; cbn [negb].
  - apply str_eqb_eq in E. subst x.
    destruct (JS.eqb g' g) eqn:E'; [apply str_eqb_eq in E'; congruence|].
    exact IH.
  - cbn [existsb]. rewrite IH. reflexivity.
Qed.

Lemma hasGroup_added g set : hasGroup g (addGroup g set) = true.
Proof.
  unfold addGroup. destruct (hasGroup g set) eqn:H; [exact H|].
  unfold hasGroup. rewrite existsb_app. cbn. rewrite str_eqb_refl.
  apply orb_true_r.
Qed.

End Requests.

(** X11. [compactContext] starts a compaction only from [idle] and with a
    configured backend: it then goes to [thinking] and posts one [compact]
    envelope with the window of the group, the system prompt and the
    settings. Any other request, one made while that compaction is under
    way included, is refused: one [error] event, nothing posted, fields and
    store untouched. *)
Theorem compaction_needs_idle (f f' : Orchestrator.Faults) (g g' : jsstring)
        (s : Orchestrator.Sys) :
  let r := Orchestrator.compactContext f g s in
  (Orchestrator.isConfigured (Orchestrator.this s) = false
   \/ Orchestrator.state (Orchestrator.this s) <> idle ->
   fst r = Ok tt
   /\ Orchestrator.this (snd r) = Orchestrator.this s
   /\ Orchestrator.db (snd r) = Orchestrator.db s
   /\ exists text, Orchestrator.effects (snd r)
                   = Orchestrator.effects s
                     ++ [Orchestrator.Emit (Orchestrator.EvError g text)])
  /\ (Orchestrator.isConfigured (Orchestrator.this s) = true ->
      Orchestrator.state (Orchestrator.this s) = idle ->
      Orchestrator.buildFault f = None ->
      fst r = Ok tt
      /\ Orchestrator.state (Orchestrator.this (snd r)) = thinking
      /\ Orchestrator.effects (snd r)
         = Orchestrator.effects s
           ++ [ Orchestrator.Emit (Orchestrator.EvStateChange thinking);
                Orchestrator.Emit (Orchestrator.EvTyping g true);
                Orchestrator.PostMessage
                  (Compact
                     (InvokePayload.mk g
                        (Db.buildConversationMessages g Config.CONTEXT_WINDOW_SIZE
                           (Orchestrator.db s))
                        (Orchestrator.buildSystemPrompt
                           (Orchestrator.assistantName (Orchestrator.this s))
                           (match Orchestrator.memoryFile f with
                            | Ok text => text
                            | Throw _ => []
                            end))
                        (Orchestrator.provider (Orchestrator.this s))
                        (Orchestrator.apiKey (Orchestrator.this s))
                        (Orchestrator.ollamaUrl (Orchestrator.this s))
                        (Orchestrator.model (Orchestrator.this s))
                        (Orchestrator.maxTokens (Orchestrator.this s)))) ]
      /\ exists text,
          Orchestrator.effects (snd (Orchestrator.compactContext f' g' (snd r)))
          = Orchestrator.effects (snd r)
            ++ [Orchestrator.Emit (Orchestrator.EvError g' text)]).
Proof.
  cbv zeta. split.
  - apply compactContext_refused.
  - intros C I B.
    assert (E : Orchestrator.compactContext f g s
                = (Ok tt,
                   Orchestrator.effect
                     (Orchestrator.PostMessage
                        (Compact
                           (Orchestrator.payloadFor s g
                              (Db.buildConversationMessages g Config.CONTEXT_WINDOW_SIZE
                                 (Orchestrator.db s))
                              (Orchestrator.buildSystemPrompt
                                 (Orchestrator.assistantName (Orchestrator.this s))
                                 (match Orchestrator.memoryFile f with
                                  | Ok text => text
                                  | Throw _ => []
                                  end)))))
                     (Orchestrator.emit (Orchestrator.EvTyping g true)
                        (Orchestrator.setState thinking s)))).
    { unfold Orchestrator.compactContext, Orchestrator.obind, Orchestrator.oget,
        Orchestrator.lift, Orchestrator.failing.
      rewrite C, I, B. reflexivity. }
    rewrite E. cbn [fst snd]. split; [reflexivity|]. split; [reflexivity|].
    split.
    { cbn. rewrite <- !app_assoc. reflexivity. }
    match goal with |- context [Orchestrator.compactContext f' g' ?s1] =>
      destruct (compactContext_refused f' g' s1) as (_ & _ & _ & text & T) end.
    { right. cbn. discriminate. }
    exists text. exact T.
Qed.

Lemma compaction_needs_idle_witness :
  let r := Orchestrator.compactContext Orchestrator.noFaults (lit "br:main")
             Samples.configured in
  Orchestrator.state (Orchestrator.this (snd r)) = thinking
  /\ exists text,
       Orchestrator.effects
         (snd (Orchestrator.compactContext Orchestrator.noFaults (lit "br:main") (snd r)))
       = Orchestrator.effects (snd r)
         ++ [Orchestrator.Emit (Orchestrator.EvError (lit "br:main") text)].
Proof.
  intro r.
  pose proof (proj2 (compaction_needs_idle Orchestrator.noFaults Orchestrator.noFaults
                       (lit "br:main") (lit "br:main") Samples.configured)
                eq_refl eq_refl eq_refl) as H.
  split; [exact (proj1 (proj2 H)) | exact (proj2 (proj2 (proj2 H)))].
Defined.

(** ** The chime of scheduled tasks *)

(** X10. A scheduled invocation marks its group. Delivering a reply to a marked
    group plays the chime once, between sending the text and announcing the
    message, and takes the mark away; a reply to a group that is not marked
    plays none; the marks of the other groups stay. *)
Theorem scheduled_reply_chimes (up ulid : N -> jsstring) (f : Orchestrator.Faults)
        (g text prompt : jsstring) (s : Orchestrator.Sys) :
  let marked x := Orchestrator.hasGroup g
                    (Orchestrator.pendingScheduledTasks (Orchestrator.this x)) in
  let r := Orchestrator.deliverResponse ulid f g text s in
  marked (Orchestrator.step up ulid s (Orchestrator.Scheduled g prompt)) = true
  /\ (Orchestrator.saveMessageFault f = None ->
      Orchestrator.routerSendFault f = None ->
      Orchestrator.effects (snd r)
      = Orchestrator.effects s
        ++ [Orchestrator.RouterSend g text]
        ++ (if marked s then [Orchestrator.Chime] else [])
        ++ [ Orchestrator.Emit
               (Orchestrator.EvMessage (QueueSpec.assistantMessage ulid s g text));
             Orchestrator.Emit (Orchestrator.EvTyping g false);
             Orchestrator.Emit (Orchestrator.EvStateChange idle);
             Orchestrator.RouterSetTyping g false ]
      /\ marked (snd r) = false
      /\ forall g', g' <> g ->
           Orchestrator.hasGroup g'
             (Orchestrator.pendingScheduledTasks (Orchestrator.this (snd r)))
           = Orchestrator.hasGroup g'
               (Orchestrator.pendingScheduledTasks (Orchestrator.this s))).
Proof.
  cbv zeta. split.
  - cbn [Orchestrator.step]. unfold Orchestrator.invokeAgent.
    rewrite startsWith_app. cbn. apply hasGroup_added.
  - intros Hs Hr.
    unfold Orchestrator.deliverResponse, Orchestrator.saveMessage,
      Orchestrator.routerSend, Orchestrator.obind, Orchestrator.failing,
      Orchestrator.lift, Orchestrator.oget, Orchestrator.freshUlid.
    rewrite Hs, Hr. cbn.
    destruct (Orchestrator.hasGroup g
                (Orchestrator.pendingScheduledTasks (Orchestrator.this s))) eqn:M; cbn.
    + split; [rewrite <- !app_assoc; reflexivity|].
      split; [apply hasGroup_deleted|]. intros g' N. apply hasGroup_other, N.
    + split; [rewrite <- !app_assoc; reflexivity|]. split; [exact M|reflexivity].
Qed.

Lemma scheduled_reply_chimes_witness :
  let s := Orchestrator.step Mention.plainUpper Flight.sampleUlid Samples.configured
             (Orchestrator.Scheduled (lit "br:main") (lit " Good morning")) in
  let r := Orchestrator.deliverResponse Flight.sampleUlid Orchestrator.noFaults
             (lit "br:main") (lit "Good morning!") s in
  In Orchestrator.Chime (Orchestrator.effects (snd r))
  /\ Orchestrator.hasGroup (lit "br:main")
       (Orchestrator.pendingScheduledTasks (Orchestrator.this (snd r))) = false.
Proof.
  intros s r.
  destruct (proj2 (scheduled_reply_chimes Mention.plainUpper Flight.sampleUlid
                     Orchestrator.noFaults (lit "br:main") (lit "Good morning!")
                     [] s) eq_refl eq_refl) as (E & M & _).
  split; [|exact M].
  unfold r. rewrite E. apply in_or_app. right. right. left. reflexivity.
Defined.

(** ** From the request to the idle state *)

Section RoundTrip.

Import Orchestrator Flight QueueSpec.

Variable up : N -> jsstring.
Variable ulid : N -> jsstring.

(** What the handlers of the envelopes that are no completions leave as it
    was. *)
Lemma observer_keeps f m s :
  Observe.isCompletion m = false ->
  this (step up ulid s (FromWorker m f)) = this s
  /\ db (step up ulid s (FromWorker m f)) = db s
  /\ nextId (step up ulid s (FromWorker m f)) = nextId s
  /\ clock (step up ulid s (FromWorker m f)) = clock s.
Proof.
  intro C. cbn [step].
  destruct m; try discriminate C; cbn [handleWorkerMessage];
    try (cbn; auto; fail).
  unfold otry, saveTask, obind, failing, lift, oret.
  destruct (saveTaskFault f); cbn; auto.
Qed.

Lemma observers_keep f l s :
  WorkerSpec.calm l ->
  this (run up ulid s (map (fun x => FromWorker x f) l)) = this s
  /\ db (run up ulid s (map (fun x => FromWorker x f) l)) = db s
  /\ nextId (run up ulid s (map (fun x => FromWorker x f) l)) = nextId s
  /\ clock (run up ulid s (map (fun x => FromWorker x f) l)) = clock s.
Proof.
  intro C. revert s. induction C as [|m l Hm _ IH]; intro s; [cbn; auto|].
  cbn [map run fold_left].
  destruct (observer_keeps f m s Hm) as (T & D & I & K).
  destruct (IH (step up ulid s (FromWorker m f))) as (T' & D' & I' & K').
  unfold run in *. rewrite T', D', I', K'. auto.
Qed.

Lemma calm_firstn k l : WorkerSpec.calm l -> WorkerSpec.calm (firstn k l).
Proof.
  intro C. unfold WorkerSpec.calm in *. rewrite <- (firstn_skipn k l) in C.
  apply Forall_app in C. apply C.
Qed.

Lemma run_snoc s l i : run up ulid s (l ++ [i]) = step up ulid (run up ulid s l) i.
Proof. unfold run. rewrite fold_left_app. reflexivity. Qed.

Lemma assistantMessage_same s s' g text :
  this s' = this s -> nextId s' = nextId s -> clock s' = clock s ->
  assistantMessage ulid s' g text = assistantMessage ulid s g text.
Proof. unfold assistantMessage. intros -> -> ->. reflexivity. Qed.

(** The envelopes of a worker that end with their only completion, fed to
    the coordinator one after the other. *)
Lemma completion_fed f before c s :
  saveMessageFault f = None -> routerSendFault f = None -> clearFault f = None ->
  WorkerSpec.calm before -> Observe.isCompletion c = true ->
  let feed l := run up ulid s (map (fun x => FromWorker x f) l) in
  (forall k, k < List.length (before ++ [c]) ->
      state (this (feed (firstn k (before ++ [c])))) = state (this s)
      /\ db (feed (firstn k (before ++ [c]))) = db s)
  /\ state (this (feed (before ++ [c]))) = idle
  /\ db (feed (before ++ [c]))
     = match c with
       | Response g text => db s ++ [assistantMessage ulid s g text]
       | Error g error => db s ++ [assistantMessage ulid s g (errorReply error)]
       | CompactDone g summary =>
           Db.clearGroupMessages g (db s)
           ++ [assistantMessage ulid s g (compactedText summary)]
       | _ => db s
       end.
Proof.
  intros Hs Hr Hc Calm Comp feed. split.
  - intros k Hk. rewrite length_app in Hk. cbn [List.length] in Hk.
    rewrite firstn_app.
    replace (k - List.length before) with 0 by lia. cbn [firstn].
    rewrite app_nil_r.
    destruct (observers_keep f (firstn k before) s (calm_firstn k before Calm))
      as (T & D & _). unfold feed. rewrite T, D. auto.
  - unfold feed. rewrite map_app. cbn [map]. rewrite run_snoc.
    destruct (observers_keep f before s Calm) as (T & D & I & K).
    set (s1 := run up ulid s (map (fun x => FromWorker x f) before)) in *.
    cbn [step].
    destruct c; try discriminate Comp; cbn [handleWorkerMessage].
    + destruct (deliverResponse_done ulid f s1 groupId text Hs Hr) as (_ & Dd & _ & St).
      cbn [this db updHistory]. split; [exact St|]. rewrite Dd, D.
      rewrite (assistantMessage_same s s1 _ _ T I K). reflexivity.
    + destruct (deliverResponse_done ulid f s1 groupId (errorReply error) Hs Hr)
        as (_ & Dd & _ & St).
      cbn [this db updHistory]. split; [exact St|]. rewrite Dd, D.
      rewrite (assistantMessage_same s s1 _ _ T I K). reflexivity.
    + destruct (handleCompactDone_done ulid f s1 groupId summary Hc Hs) as (Dd & _ & St).
      cbn [this db updHistory]. split; [exact St|]. rewrite Dd, D.
      rewrite (assistantMessage_same s s1 _ _ T I K). reflexivity.
Qed.

End RoundTrip.

(** X6. The worker and the coordinator together. The envelopes the worker
    posts for an [invoke] or a [compact] message, handled by the coordinator
    in their order with the store and the router accepting the calls, leave
    the state and the store as they were up to the last one. When the
    worker's handler returned, the last one ends in [idle]: after an
    invocation the store has one message more, the reply of the assistant
    or the text of the error; after a compaction the messages of the group
    are replaced by the summary, or, the compaction having failed, the text
    of the error is added to them. When the worker's handler threw, it
    posted no completion: the coordinator's state and store are after the
    last envelope what they were before the first, and nothing brings the
    state back to [idle]. *)
Theorem worker_answer_reaches_idle {World : Type} (host : Worker.Host World)
        (net : Compaction.SummaryHost World) (up ulid : N -> jsstring)
        (f : Orchestrator.Faults) (s : Orchestrator.Sys) (p : InvokePayload.t)
        (w : World) :
  Orchestrator.saveMessageFault f = None ->
  Orchestrator.routerSendFault f = None ->
  Orchestrator.clearFault f = None ->
  let g := InvokePayload.groupId p in
  let handled m := Compaction.onmessage host net m (Worker.start w) in
  let answers m := Worker.outbox (snd (handled m)) in
  let feed l :=
    Orchestrator.run up ulid s (map (fun x => Orchestrator.FromWorker x f) l) in
  let unchanged l :=
    forall k, k < List.length l ->
      Orchestrator.state (Orchestrator.this (feed (firstn k l)))
      = Orchestrator.state (Orchestrator.this s)
      /\ Orchestrator.db (feed (firstn k l)) = Orchestrator.db s in
  let unanswered m :=
    forall e, fst (handled m) = Throw e ->
      Orchestrator.state (Orchestrator.this (feed (answers m)))
      = Orchestrator.state (Orchestrator.this s)
      /\ Orchestrator.db (feed (answers m)) = Orchestrator.db s in
  (unchanged (answers (Invoke p))
   /\ (fst (handled (Invoke p)) = Ok tt ->
       Orchestrator.state (Orchestrator.this (feed (answers (Invoke p)))) = idle
       /\ exists text,
            Orchestrator.db (feed (answers (Invoke p)))
            = Orchestrator.db s ++ [QueueSpec.assistantMessage ulid s g text])
   /\ unanswered (Invoke p))
  /\ (unchanged (answers (Compact p))
      /\ (fst (handled (Compact p)) = Ok tt ->
          Orchestrator.state (Orchestrator.this (feed (answers (Compact p)))) = idle
          /\ ((exists summary,
                  Orchestrator.db (feed (answers (Compact p)))
                  = Db.clearGroupMessages g (Orchestrator.db s)
                    ++ [QueueSpec.assistantMessage ulid s g
                          (Orchestrator.compactedText summary)])
              \/ (exists error,
                     Orchestrator.db (feed (answers (Compact p)))
                     = Orchestrator.db s
                       ++ [QueueSpec.assistantMessage ulid s g
                             (Orchestrator.errorReply error)])))
      /\ unanswered (Compact p)).
Proof.
  intros Hs Hr Hc g handled answers feed unchanged unanswered.
  assert (Quiet : forall m e,
            fst (handled m) = Throw e -> WorkerSpec.calm (answers m) ->
            unchanged (answers m)
            /\ Orchestrator.state (Orchestrator.this (feed (answers m)))
               = Orchestrator.state (Orchestrator.this s)
            /\ Orchestrator.db (feed (answers m)) = Orchestrator.db s).
  { intros m e _ Calm. split.
    - intros k _.
      destruct (observers_keep up ulid f (firstn k (answers m)) s
                  (calm_firstn k _ Calm)) as (T & D & _).
      unfold feed. rewrite T, D. auto.
    - destruct (observers_keep up ulid f (answers m) s Calm) as (T & D & _).
      unfold feed. rewrite T, D. auto. }
  assert (I : handled (Invoke p)
              = Worker.bind (Worker.handleInvoke host p) (fun _ => Worker.ret tt)
                  (Worker.start w)) by reflexivity.
  split.
  - pose proof (handleInvoke_completes host p w) as H. cbv zeta in H.
    unfold unanswered, answers. rewrite I. unfold Worker.bind.
    destruct (Worker.handleInvoke host p (Worker.start w)) as [[b|e] st] eqn:E;
      cbn [fst snd Worker.ret] in *;
      destruct H as [(R & c & (before & O & Calm) & C & G & NC)
                    | (caught & e' & T & R & Calm)];
      try discriminate.
    + destruct (completion_fed up ulid f before c s Hs Hr Hc Calm C) as (U & St & D).
      unfold unchanged, feed. rewrite O. split; [exact U|]. split.
      * intros _. split; [exact St|].
        rewrite D. destruct c; try discriminate C; try contradiction;
          cbn in G; fold g in G; rewrite G; eauto.
      * intros e0 Habs. discriminate Habs.
    + assert (A : answers (Invoke p) = Worker.outbox st).
      { unfold answers. rewrite I. unfold Worker.bind. rewrite E. reflexivity. }
      assert (F : fst (handled (Invoke p)) = Throw e).
      { rewrite I. unfold Worker.bind. rewrite E. reflexivity. }
      rewrite <- A in Calm. destruct (Quiet (Invoke p) e F Calm) as (U & St & D).
      rewrite <- A. split; [exact U|]. split; [intro Habs; discriminate Habs|].
      intros e0 _. auto.
  - pose proof (handleCompact_completes host net p w) as H. cbv zeta in H.
    change (Compaction.handleCompact host net p (Worker.start w))
      with (handled (Compact p)) in H.
    destruct H as [(R & c & (before & O & Calm) & C & G & NC)
                  | (caught & e' & T & R & Calm)].
    + assert (A : answers (Compact p) = before ++ [c]) by exact O.
      destruct (completion_fed up ulid f before c s Hs Hr Hc Calm C) as (U & St & D).
      unfold unanswered, unchanged, feed. rewrite A. split; [exact U|]. split.
      * intros _. split; [exact St|].
        rewrite D. destruct c; try discriminate C; try contradiction;
          cbn in G; fold g in G; rewrite G; eauto.
      * intros e0 Habs. rewrite R in Habs. discriminate Habs.
    + destruct (Quiet (Compact p) e' R Calm) as (U & St & D).
      split; [exact U|]. split; [intro Habs; rewrite R in Habs; discriminate Habs|].
      intros e0 _. auto.
Qed.

Lemma worker_answer_reaches_idle_witness :
  let answers :=
    Worker.outbox
      (snd (Compaction.onmessage Observe.silentHost Compaction.summarizer
              (Invoke (Observe.samplePayload anthropic)) (Worker.start tt))) in
  Orchestrator.state
    (Orchestrator.this
       (Orchestrator.run Mention.plainUpper Flight.sampleUlid Samples.withHistory
          (map (fun x => Orchestrator.FromWorker x Orchestrator.noFaults) answers)))
  = idle.
Proof.
  exact (proj1 (proj1 (proj2 (proj1 (worker_answer_reaches_idle Observe.silentHost
                                       Compaction.summarizer Mention.plainUpper
                                       Flight.sampleUlid Orchestrator.noFaults
                                       Samples.withHistory
                                       (Observe.samplePayload anthropic)
                                       tt eq_refl eq_refl eq_refl))) eq_refl)).
Defined.

(* ===================================================================== *)
(** * The event bus *)
(* ===================================================================== *)

Section BusProps.

Import EventBus.

Variable Callback : Type.
Variable same : Callback -> Callback -> bool.
Hypothesis same_spec : forall a b, same a b = true <-> a = b.

Local Notation Listeners := (Listeners Callback).

Lemma get_set_same event v (ls : Listeners) : get event (set event v ls) = Some v.
Proof.
  induction ls as [|[k old] rest IH]; cbn [set get].
  - rewrite str_eqb_refl. reflexivity.
  - destruct (JS.eqb k event) eqn:E; cbn [get]; rewrite E; [reflexivity|exact IH].
Qed.

Lemma get_set_other event event' v (ls : Listeners) :
  event' <> event -> get event' (set event v ls) = get event' ls.
Proof.
  intro N. induction ls as [|[k old] rest IH]; cbn [set get].
  - destruct (JS.eqb event event') eqn:E; [apply str_eqb_eq in E; congruence|].
    reflexivity.
  - destruct (JS.eqb k event) eqn:E; cbn [get].
    + apply str_eqb_eq in E. subst k.
      destruct (JS.eqb event event') eqn:E'; [apply str_eqb_eq in E'; congruence|].
      reflexivity.
    + destruct (JS.eqb k event'); [reflexivity|exact IH].
Qed.

Lemma emit_on event cb (ls : Listeners) :
  emit event (on same event cb ls) = add same cb (emit event ls).
Proof.
  unfold on, emit. destruct (get event ls) as [callbacks|] eqn:G.
  - rewrite G, get_set_same. reflexivity.
  - rewrite !get_set_same. reflexivity.
Qed.

Lemma emit_off event cb (ls : Listeners) :
  emit event (off same event cb ls) = delete same cb (emit event ls).
Proof.
  unfold off, emit. destruct (get event ls) as [callbacks|] eqn:G.
  - rewrite get_set_same. reflexivity.
  - rewrite G. reflexivity.
Qed.

Lemma emit_on_other event event' cb (ls : Listeners) :
  event' <> event -> emit event' (on same event cb ls) = emit event' ls.
Proof.
  intro N. unfold on, emit. destruct (get event ls) as [callbacks|] eqn:G.
  - rewrite G, (get_set_other _ _ _ _ N). reflexivity.
  - rewrite get_set_same, !(get_set_other _ _ _ _ N). reflexivity.
Qed.

Lemma emit_off_other event event' cb (ls : Listeners) :
  event' <> event -> emit event' (off same event cb ls) = emit event' ls.
Proof.
  intro N. unfold off, emit. destruct (get event ls) as [callbacks|] eqn:G.
  - rewrite (get_set_other _ _ _ _ N). reflexivity.
  - reflexivity.
Qed.

Lemma existsb_same cb l : existsb (same cb) l = true <-> In cb l.
Proof.
  rewrite existsb_exists. split.
  - intros (x & H & S). apply same_spec in S. subst x. exact H.
  - intro H. exists cb. split; [exact H|]. apply same_spec. reflexivity.
Qed.

Lemma add_in cb l : In cb (add same cb l).
Proof.
  unfold add. destruct (existsb (same cb) l) eqn:E.
  - apply existsb_same, E.
  - apply in_or_app. right. left. reflexivity.
Qed.

Lemma add_nodup cb l : NoDup l -> NoDup (add same cb l).
Proof.
  intro H. unfold add. destruct (existsb (same cb) l) eqn:E; [exact H|].
  apply NoDup_app; [exact H|constructor; [intros []|constructor]|].
  intros x Hx [<-|[]]. apply existsb_same in Hx. congruence.
Qed.

Lemma delete_out cb l : ~ In cb (delete same cb l).
Proof.
  unfold delete. intro H. apply filter_In in H. destruct H as [_ H].
  assert (S : same cb cb = true) by (apply same_spec; reflexivity).
  rewrite S in H. discriminate H.
Qed.

Lemma delete_absent cb l : ~ In cb l -> delete same cb l = l.
Proof.
  intro H. unfold delete. induction l as [|x l IH]; [reflexivity|]. cbn [filter].
  destruct (same cb x) eqn:S.
  - apply same_spec in S. subst x. exfalso. apply H. left. reflexivity.
  - cbn [negb]. rewrite IH; [reflexivity|]. intro K. apply H. right. exact K.
Qed.

End BusProps.

(** X19. Subscriptions of the event bus. After [on(event, cb)] an [emit] of the
    event calls [cb]: last, after the callbacks registered before, when it
    is new, and where it was when it is registered already, so that
    subscribing twice is subscribing once and no callback is called twice.
    After [off(event, cb)] it is no longer called, and the others are, in
    their order; [off] for a callback that is not registered changes
    nothing. The subscriptions of the other events are not affected. *)
Theorem event_bus_subscriptions (Callback : Type) (same : Callback -> Callback -> bool)
        (event event' : jsstring) (cb : Callback)
        (listeners : EventBus.Listeners Callback) :
  (forall a b, same a b = true <-> a = b) ->
  let called e ls := EventBus.emit e ls in
  In cb (called event (EventBus.on same event cb listeners))
  /\ (~ In cb (called event listeners) ->
      called event (EventBus.on same event cb listeners)
      = called event listeners ++ [cb])
  /\ (In cb (called event listeners) ->
      called event (EventBus.on same event cb listeners) = called event listeners)
  /\ (NoDup (called event listeners) ->
      NoDup (called event (EventBus.on same event cb listeners)))
  /\ ~ In cb (called event (EventBus.off same event cb listeners))
  /\ (forall other, other <> cb ->
        (In other (called event (EventBus.off same event cb listeners))
         <-> In other (called event listeners)))
  /\ (~ In cb (called event listeners) ->
      called event (EventBus.off same event cb listeners) = called event listeners)
  /\ (event' <> event ->
      called event' (EventBus.on same event cb listeners) = called event' listeners
      /\ called event' (EventBus.off same event cb listeners)
         = called event' listeners).
Proof.
  intros S called. unfold called. rewrite emit_on, emit_off.
  split; [apply add_in, S|].
  split.
  { intro H. unfold EventBus.add.
    destruct (existsb (same cb) (EventBus.emit event listeners)) eqn:E; [|reflexivity].
    apply (existsb_same _ _ S) in E. contradiction. }
  split.
  { intro H. unfold EventBus.add. apply (existsb_same _ _ S) in H. rewrite H.
    reflexivity. }
  split; [apply add_nodup, S|].
  split; [apply delete_out, S|].
  split.
  { intros other N. unfold EventBus.delete. rewrite filter_In. split; [tauto|].
    intro H. split; [exact H|]. destruct (same cb other) eqn:E; [|reflexivity].
    apply S in E. congruence. }
  split; [apply delete_absent, S|].
  intro N. split; [apply emit_on_other, N | apply emit_off_other, N].
Qed.

Lemma event_bus_subscriptions_witness :
  EventBus.emit (lit "message")
    (EventBus.on Nat.eqb (lit "message") 7
       (EventBus.on Nat.eqb (lit "error") 3
          (EventBus.on Nat.eqb (lit "message") 7 [])))
  = [7]
  /\ ~ In 7 (EventBus.emit (lit "message")
               (EventBus.off Nat.eqb (lit "message") 7
                  (EventBus.on Nat.eqb (lit "message") 7 []))).
Proof.
  pose proof (event_bus_subscriptions nat Nat.eqb (lit "message") (lit "error") 7
                (EventBus.on Nat.eqb (lit "error") 3
                   (EventBus.on Nat.eqb (lit "message") 7 []))
                Nat.eqb_eq) as H.
  pose proof (event_bus_subscriptions nat Nat.eqb (lit "message") (lit "error") 7
                (EventBus.on Nat.eqb (lit "message") 7 []) Nat.eqb_eq) as K.
  split.
  - rewrite (proj1 (proj2 (proj2 H))); [reflexivity|]. left. reflexivity.
  - exact (proj1 (proj2 (proj2 (proj2 (proj2 K))))).
Defined.

(* ===================================================================== *)
(** * Text of the user interface *)
(* ===================================================================== *)

Section Escaping.

Import ChatUI.

(** The three replacements in one pass. *)
Lemma replaceAll_app c by_ a b :
  replaceAll c by_ (a ++ b) = replaceAll c by_ a ++ replaceAll c by_ b.
Proof. apply flat_map_app. Qed.

Lemma escape_app a b : escapeHtmlText (a ++ b) = escapeHtmlText a ++ escapeHtmlText b.
Proof. unfold escapeHtmlText. rewrite !replaceAll_app. reflexivity. Qed.

Lemma escape_one c :
  escapeHtmlText [c]
  = if (c =? 38)%N then lit "&amp;"
    else if (c =? 60)%N then lit "&lt;"
    else if (c =? 62)%N then lit "&gt;"
    else [c].
Proof.
  unfold escapeHtmlText. cbn [replaceAll flat_map app].
  destruct (c =? 38)%N eqn:A; [reflexivity|].
  cbn [replaceAll flat_map app].
  destruct (c =? 60)%N eqn:L; [reflexivity|].
  cbn [replaceAll flat_map app].
  destruct (c =? 62)%N eqn:G; reflexivity.
Qed.

Lemma escape_cons c s : escapeHtmlText (c :: s) = escapeHtmlText [c] ++ escapeHtmlText s.
Proof. apply (escape_app [c] s). Qed.

Lemma escape_no_angle s : ~ In 60%N (escapeHtmlText s) /\ ~ In 62%N (escapeHtmlText s).
Proof.
  induction s as [|c s [IHl IHg]]; [split; intros []|].
  rewrite escape_cons, escape_one. split; intro H; apply in_app_or in H.
  - destruct H as [H|H]; [|exact (IHl H)].
    destruct (c =? 38)%N; [cbn in H; intuition discriminate|].
    destruct (c =? 60)%N eqn:L; [cbn in H; intuition discriminate|].
    destruct (c =? 62)%N; [cbn in H; intuition discriminate|].
    destruct H as [E|[]]. rewrite E in L. discriminate L.
  - destruct H as [H|H]; [|exact (IHg H)].
    destruct (c =? 38)%N; [cbn in H; intuition discriminate|].
    destruct (c =? 60)%N; [cbn in H; intuition discriminate|].
    destruct (c =? 62)%N eqn:G; [cbn in H; intuition discriminate|].
    destruct H as [E|[]]. rewrite E in G. discriminate G.
Qed.

Lemma escape_head c r d r' :
  escapeHtmlText [c] ++ r = escapeHtmlText [d] ++ r' -> c = d /\ r = r'.
Proof.
  rewrite !escape_one.
  destruct (c =? 38)%N eqn:A; [apply N.eqb_eq in A|apply N.eqb_neq in A];
    [|destruct (c =? 60)%N eqn:L; [apply N.eqb_eq in L|apply N.eqb_neq in L];
      [|destruct (c =? 62)%N eqn:G; [apply N.eqb_eq in G|apply N.eqb_neq in G]]];
    (destruct (d =? 38)%N eqn:A'; [apply N.eqb_eq in A'|apply N.eqb_neq in A'];
     [|destruct (d =? 60)%N eqn:L'; [apply N.eqb_eq in L'|apply N.eqb_neq in L'];
       [|destruct (d =? 62)%N eqn:G'; [apply N.eqb_eq in G'|apply N.eqb_neq in G']]]);
    cbn; intro H; try discriminate H; subst;
    try (injection H as H; subst; auto; fail);
    try (injection H as H0 H; congruence).
Qed.

Lemma escape_inj a b : escapeHtmlText a = escapeHtmlText b -> a = b.
Proof.
  revert b. induction a as [|c a IH]; intros [|d b] H.
  - reflexivity.
  - exfalso. rewrite escape_cons, escape_one in H. cbn [escapeHtmlText replaceAll flat_map] in H.
    destruct (d =? 38)%N; [discriminate H|]. destruct (d =? 60)%N; [discriminate H|].
    destruct (d =? 62)%N; discriminate H.
  - exfalso. rewrite escape_cons, escape_one in H. cbn [escapeHtmlText replaceAll flat_map] in H.
    destruct (c =? 38)%N; [discriminate H|]. destruct (c =? 60)%N; [discriminate H|].
    destruct (c =? 62)%N; discriminate H.
  - rewrite (escape_cons c a), (escape_cons d b) in H.
    apply escape_head in H. destruct H as [-> H]. f_equal. apply IH, H.
Qed.

Lemma escape_plain s :
  ~ In 38%N s -> ~ In 60%N s -> ~ In 62%N s -> escapeHtmlText s = s.
Proof.
  induction s as [|c s IH]; intros A L G; [reflexivity|].
  rewrite escape_cons, escape_one.
  destruct (c =? 38)%N eqn:Ea; [apply N.eqb_eq in Ea; exfalso; apply A; left; auto|].
  destruct (c =? 60)%N eqn:El; [apply N.eqb_eq in El; exfalso; apply L; left; auto|].
  destruct (c =? 62)%N eqn:Eg; [apply N.eqb_eq in Eg; exfalso; apply G; left; auto|].
  cbn [app]. f_equal. apply IH; intro H; [apply A|apply L|apply G]; right; exact H.
Qed.

End Escaping.

(** X21. [escapeHtmlText] makes a label safe to put into markup and loses
    nothing: its result holds neither [<] nor [>]; it works character by
    character, so the escape of a concatenation is the concatenation of the
    escapes; two different texts have different escapes; and a text without
    [&], [<] and [>] is left as it is. *)
Theorem escaped_text_is_inert (a b : jsstring) :
  (~ In 60%N (ChatUI.escapeHtmlText a) /\ ~ In 62%N (ChatUI.escapeHtmlText a))
  /\ ChatUI.escapeHtmlText (a ++ b)
     = ChatUI.escapeHtmlText a ++ ChatUI.escapeHtmlText b
  /\ (ChatUI.escapeHtmlText a = ChatUI.escapeHtmlText b -> a = b)
  /\ (~ In 38%N a -> ~ In 60%N a -> ~ In 62%N a -> ChatUI.escapeHtmlText a = a).
Proof.
  split; [apply escape_no_angle|]. split; [apply escape_app|].
  split; [apply escape_inj | apply escape_plain].
Qed.

Lemma escaped_text_is_inert_witness :
  ChatUI.escapeHtmlText (lit "Tool: bash") = lit "Tool: bash"
  /\ lit "a<b" = lit "a" ++ lit "<b".
Proof.
  split.
  - apply (proj2 (proj2 (proj2 (escaped_text_is_inert (lit "Tool: bash") []))));
      cbn; intuition discriminate.
  - apply (proj1 (proj2 (proj2 (escaped_text_is_inert (lit "a<b") (lit "a" ++ lit "<b"))))).
    reflexivity.
Defined.

Section ChatIds.

Import Settings.

Lemma split_nonempty sep s : split sep s <> [].
Proof.
  destruct s as [|c r]; cbn [split]; [discriminate|].
  destruct (c =? sep)%N; [discriminate|]. destruct (split sep r); discriminate.
Qed.

Lemma split_free sep s : ~ In sep s -> split sep s = [s].
Proof.
  induction s as [|c r IH]; intro H; [reflexivity|]. cbn [split].
  destruct (c =? sep)%N eqn:E.
  - apply N.eqb_eq in E. exfalso. apply H. left. exact E.
  - rewrite IH; [reflexivity|]. intro K. apply H. right. exact K.
Qed.

Lemma split_at sep a b :
  ~ In sep a -> split sep (a ++ sep :: b) = a :: split sep b.
Proof.
  induction a as [|c r IH]; intro H; cbn [app split].
  - rewrite N.eqb_refl. reflexivity.
  - destruct (c =? sep)%N eqn:E.
    + apply N.eqb_eq in E. exfalso. apply H. left. exact E.
    + rewrite IH; [reflexivity|]. intro K. apply H. right. exact K.
Qed.

Lemma split_pieces sep s : Forall (fun piece => ~ In sep piece) (split sep s).
Proof.
  induction s as [|c r IH]; cbn [split].
  - constructor; [intros []|constructor].
  - destruct (c =? sep)%N eqn:E.
    + constructor; [intros []|exact IH].
    + destruct (split sep r) as [|piece pieces].
      * constructor; [|constructor]. intros [K|[]]. subst c.
        rewrite N.eqb_refl in E. discriminate E.
      * inversion IH as [|? ? Hp Hps]; subst. constructor; [|exact Hps].
        intros [K|K]; [|exact (Hp K)]. subst c. rewrite N.eqb_refl in E.
        discriminate E.
Qed.

Lemma parse_wellFormed text : Forall wellFormed (parseChatIds text).
Proof.
  unfold parseChatIds. apply Forall_forall. intros id H.
  apply filter_In in H. destruct H as [H NE]. apply in_map_iff in H.
  destruct H as (piece & <- & Hp). split; [|split].
  - destruct (trim piece); [discriminate NE|discriminate].
  - apply trim_idem.
  - intro K. apply trim_incl in K.
    pose proof (split_pieces 44 text) as F. rewrite Forall_forall in F.
    exact (F piece Hp K).
Qed.

Lemma trim_after_blank id : trim (32%N :: id) = trim id.
Proof. reflexivity. Qed.

Lemma parse_shown pre ids :
  pre = [] \/ pre = [32%N] ->
  ids <> [] -> Forall wellFormed ids ->
  filter Worker.nonEmpty (map trim (split 44 (pre ++ showChatIds ids))) = ids.
Proof.
  intros Hpre NE F. revert pre Hpre. induction F as [|id ids (N0 & T & C) F IH];
    [congruence|]. intros pre Hpre.
  assert (Cp : ~ In 44%N (pre ++ id)).
  { intro K. apply in_app_or in K. destruct K as [K|K]; [|exact (C K)].
    destruct Hpre as [-> | ->]; [destruct K|]. destruct K as [K|[]]. discriminate K. }
  assert (Tp : trim (pre ++ id) = id).
  { destruct Hpre as [-> | ->]; [exact T|]. cbn [app]. rewrite trim_after_blank. exact T. }
  assert (Np : Worker.nonEmpty id = true) by (destruct id; [congruence|reflexivity]).
  destruct ids as [|id2 rest].
  - unfold showChatIds. cbn [join]. rewrite (split_free _ _ Cp). cbn [map filter].
    rewrite Tp, Np. reflexivity.
  - assert (E : pre ++ showChatIds (id :: id2 :: rest)
                 = (pre ++ id) ++ 44%N :: ([32%N] ++ showChatIds (id2 :: rest))).
    { unfold showChatIds. cbn [join]. rewrite <- app_assoc. reflexivity. }
    rewrite E, (split_at _ _ _ Cp). cbn [map filter]. rewrite Tp, Np. f_equal.
    apply (IH ltac:(discriminate) [32%N]). right. reflexivity.
Qed.

End ChatIds.

(** X20. The chat identifiers of the settings page. What [handleTelegramSave]
    passes on are the pieces between the commas of the field, trimmed, the
    empty ones left out: each is non-empty, has no white space at either end
    and holds no comma. Identifiers of that form, shown in the field joined
    by [", "] as the page does on loading, are read back as they were, in
    their order. *)
Theorem chat_ids_round_trip (text : jsstring) (ids : list jsstring) :
  Forall Settings.wellFormed (Settings.parseChatIds text)
  /\ (Forall Settings.wellFormed ids ->
      Settings.parseChatIds (Settings.showChatIds ids) = ids)
  /\ Settings.parseChatIds (Settings.showChatIds (Settings.parseChatIds text))
     = Settings.parseChatIds text.
Proof.
  assert (R : forall l, Forall Settings.wellFormed l ->
                Settings.parseChatIds (Settings.showChatIds l) = l).
  { intros l F. destruct l as [|id rest]; [reflexivity|].
    apply (parse_shown [] (id :: rest)); [left; reflexivity|discriminate|exact F]. }
  split; [apply parse_wellFormed|]. split; [apply R|]. apply R, parse_wellFormed.
Qed.

Lemma chat_ids_round_trip_witness :
  Settings.parseChatIds (lit "12345, -100987") = [lit "12345"; lit "-100987"].
Proof.
  apply (proj1 (proj2 (chat_ids_round_trip [] [lit "12345"; lit "-100987"]))).
  repeat constructor; try discriminate; cbn; intuition discriminate.
Defined.

(* ===================================================================== *)
(** * The shell and the fetch tools *)
(* ===================================================================== *)

Lemma orElse_nonempty a b : b <> [] -> orElse a b <> [].
Proof. intro H. destruct a; [exact H|discriminate]. Qed.

(** X15. The [bash] tool. The time limit given to the shell is the [timeout] of
    the input, 30 when it is absent, zero or otherwise falsy, and never more
    than 120. The text that comes back is never empty: a command without
    output gives ["(no output)"]. *)
Theorem bash_tool_edges {World : Type} (host : Worker.Host World)
        (input v : JValue) (g : jsstring) (st st' : Worker.WState World)
        (q : Q) (out : jsstring) :
  (Worker.shellTimeout host v = Some q -> Qle q (Qmake 120 1))
  /\ (truthy v = false -> Worker.shellTimeout host v = Some (Qmake 30 1))
  /\ (Worker.toolBash host input g st = (Ok out, st') -> out <> []).
Proof.
  split; [|split].
  - unfold Worker.shellTimeout.
    destruct (Worker.numberOf host (jsOr v (JNum (Qmake 30 1)))) as [x|]; [|discriminate].
    intro H. injection H as <-.
    destruct (Qle_bool x (Qmake 120 1)) eqn:E.
    + apply Qle_bool_iff, E.
    + apply Qle_refl.
  - intro F. unfold Worker.shellTimeout, jsOr. rewrite F. reflexivity.
  - unfold Worker.toolBash. intro H.
    apply bind_ok in H as (command & s1 & _ & H).
    apply bind_ok in H as (timeout & s2 & _ & H).
    apply bind_ok in H as (result & s3 & _ & H).
    injection H as <- _. apply orElse_nonempty. discriminate.
Qed.

Lemma bash_tool_edges_witness :
  Qle (Qmake 30 1) (Qmake 120 1)
  /\ Worker.shellTimeout Compaction.quietShell (JNum (Qmake 0 1)) = Some (Qmake 30 1)
  /\ lit "(no output)" <> [].
Proof.
  pose proof (bash_tool_edges Compaction.quietShell
                (JObj [(lit "command", JStr (lit "true"))]) (JNum (Qmake 0 1))
                (lit "br:main") (Worker.start tt) (Worker.start tt) (Qmake 30 1)
                (lit "(no output)")) as H.
  split; [exact (proj1 H eq_refl)|]. split.
  - exact (proj1 (proj2 H) eq_refl).
  - exact (proj2 (proj2 H) eq_refl).
Defined.



(* ===================================================================== *)
(** * The system prompt and scheduled invocations *)
(* ===================================================================== *)

Lemma join_app sep a b :
  a <> [] -> b <> [] -> join sep (a ++ b) = join sep a ++ sep ++ join sep b.
Proof.
  intros Ha Hb. induction a as [|x a IH]; [congruence|].
  destruct a as [|y a].
  - cbn [app join]. destruct b; [congruence|reflexivity].
  - change ((x :: y :: a) ++ b) with (x :: (y :: a) ++ b).
    cbn [join]. cbn [join] in IH. cbn [app] in *.
    rewrite IH by discriminate. rewrite <- !app_assoc. reflexivity.
Qed.

(** X18. The system prompt opens with the name of the assistant. The memory of
    the group closes it, as it is, under the heading ["## Persistent
    Memory"]; with an empty memory the prompt has no such heading and ends
    with the guidelines. *)
Theorem prompt_carries_memory (name memory : jsstring) :
  Envelopes.prefixOf
    (lit "You are " ++ name
     ++ lit ", a personal AI assistant running in the user's browser.")
    (Orchestrator.buildSystemPrompt name memory)
  /\ (memory <> [] ->
      Orchestrator.buildSystemPrompt name memory
      = Orchestrator.buildSystemPrompt name []
        ++ Worker.nl ++ Worker.nl ++ lit "## Persistent Memory"
        ++ Worker.nl ++ Worker.nl ++ memory).
Proof.
  split.
  - unfold Orchestrator.buildSystemPrompt. cbv zeta.
    destruct (Worker.nonEmpty memory); cbn [app join];
      eexists; rewrite <- ?app_assoc; reflexivity.
  - intro H. unfold Orchestrator.buildSystemPrompt. cbv zeta.
    destruct memory as [|c m]; [congruence|]. cbn [Worker.nonEmpty].
    rewrite join_app by discriminate. rewrite <- ?app_assoc. reflexivity.
Qed.

Lemma prompt_carries_memory_witness :
  Orchestrator.buildSystemPrompt (lit "Andy") (lit "User likes tea.")
  = Orchestrator.buildSystemPrompt (lit "Andy") []
    ++ Worker.nl ++ Worker.nl ++ lit "## Persistent Memory"
    ++ Worker.nl ++ Worker.nl ++ lit "User likes tea.".
Proof.
  apply (proj2 (prompt_carries_memory (lit "Andy") (lit "User likes tea."))).
  discriminate.
Defined.

Section Scheduled.

Import Orchestrator Flight QueueSpec.

Variable up : N -> jsstring.
Variable ulid : N -> jsstring.

Lemma dropNth_last {A} (l : list A) k : dropNth (List.length l) (l ++ [k]) = l.
Proof. induction l as [|x l IH]; [reflexivity|]. cbn. rewrite IH. reflexivity. Qed.

Lemma nth_error_last {A} (l : list A) k : nth_error (l ++ [k]) (List.length l) = Some k.
Proof. induction l as [|x l IH]; [reflexivity|exact IH]. Qed.

(** The call suspended last goes on. *)
Lemma resume_last k o s :
  step up ulid (suspend k s) (Resume (List.length (pending s)) o) = resume ulid k o s.
Proof.
  cbn [step]. unfold suspend. cbn [pending withPending].
  rewrite nth_error_last, dropNth_last. destruct s; reflexivity.
Qed.

End Scheduled.

(** X9. A scheduled invocation from its start to the envelope for the worker,
    no other input in between and the store accepting the write. The prompt
    is stored first, as a message of the sender ["Scheduler"] that begins
    with the marker of scheduled tasks, and announced; the [invoke] envelope
    carries the window of the group built after that write, the system
    prompt with the memory file (empty when it cannot be read) and the
    settings. The queue and the [processing] flag are not looked at and not
    changed: the invocation is started whether or not another one is under
    way. The state is [thinking] and the group is marked for the chime. *)
Theorem scheduled_invocation_flow (up ulid : N -> jsstring) (s : Orchestrator.Sys)
        (g prompt : jsstring) (memory : Orchestrator.Outcome) :
  let stored :=
    StoredMessage.mk
      (InboundMessage.mk (ulid (Orchestrator.nextId s)) g (lit "Scheduler")
         (Orchestrator.scheduledMarker ++ prompt) (Orchestrator.clock s)
         (Orchestrator.channelOf g))
      false true in
  let i := List.length (Orchestrator.pending s) in
  let s' := Orchestrator.run up ulid s
              [ Orchestrator.Scheduled g prompt;
                Orchestrator.Resume i (Orchestrator.Resolved []);
                Orchestrator.Resume i memory;
                Orchestrator.Resume i (Orchestrator.Resolved []) ] in
  Orchestrator.db s' = Orchestrator.db s ++ [stored]
  /\ Orchestrator.effects s'
     = Orchestrator.effects s
       ++ [ Orchestrator.Emit (Orchestrator.EvStateChange thinking);
            Orchestrator.RouterSetTyping g true;
            Orchestrator.Emit (Orchestrator.EvTyping g true);
            Orchestrator.Emit (Orchestrator.EvMessage stored);
            Orchestrator.PostMessage
              (Invoke
                 (InvokePayload.mk g
                    (Db.buildConversationMessages g Config.CONTEXT_WINDOW_SIZE
                       (Orchestrator.db s ++ [stored]))
                    (Orchestrator.buildSystemPrompt
                       (Orchestrator.assistantName (Orchestrator.this s))
                       (match memory with
                        | Orchestrator.Resolved text => text
                        | Orchestrator.Rejected _ => []
                        end))
                    (Orchestrator.provider (Orchestrator.this s))
                    (Orchestrator.apiKey (Orchestrator.this s))
                    (Orchestrator.ollamaUrl (Orchestrator.this s))
                    (Orchestrator.model (Orchestrator.this s))
                    (Orchestrator.maxTokens (Orchestrator.this s)))) ]
  /\ Orchestrator.pending s' = Orchestrator.pending s
  /\ Orchestrator.messageQueue (Orchestrator.this s')
     = Orchestrator.messageQueue (Orchestrator.this s)
  /\ Orchestrator.processing (Orchestrator.this s')
     = Orchestrator.processing (Orchestrator.this s)
  /\ Orchestrator.state (Orchestrator.this s') = thinking
  /\ Orchestrator.hasGroup g
       (Orchestrator.pendingScheduledTasks (Orchestrator.this s')) = true.
Proof.
  intros stored i s'.
  eassert (E : s' = _).
  { unfold s', i, Orchestrator.run. cbn [fold_left].
    change (Orchestrator.step up ulid s (Orchestrator.Scheduled g prompt))
      with (Orchestrator.invokeAgent ulid Orchestrator.FromScheduler g
              (Orchestrator.scheduledMarker ++ prompt) s).
    unfold Orchestrator.invokeAgent. rewrite startsWith_app.
    match goal with |- context [Orchestrator.suspend ?k ?s1] =>
      change (List.length (Orchestrator.pending s))
        with (List.length (Orchestrator.pending s1)) at 1;
      rewrite (resume_last up ulid k (Orchestrator.Resolved []) s1) end.
    cbn [Orchestrator.resume].
    match goal with |- context [Orchestrator.suspend ?k ?s1] =>
      change (List.length (Orchestrator.pending s))
        with (List.length (Orchestrator.pending s1)) at 1;
      rewrite (resume_last up ulid k memory s1) end.
    cbn [Orchestrator.resume].
    match goal with |- context [Orchestrator.suspend ?k ?s1] =>
      change (List.length (Orchestrator.pending s))
        with (List.length (Orchestrator.pending s1)) at 1;
      rewrite (resume_last up ulid k (Orchestrator.Resolved []) s1) end.
    cbn [Orchestrator.resume Orchestrator.settle]. reflexivity. }
  rewrite E. clear E s'.
  split; [reflexivity|]. split; [cbn; rewrite <- ?app_assoc; reflexivity|].
  split; [reflexivity|]. split; [reflexivity|]. split; [reflexivity|].
  split; [reflexivity|]. cbn. apply hasGroup_added.
Qed.

(** X8. An inbound message that does not pass the trigger check is stored and
    announced, marked as no trigger, and never enters the queue. One that
    passes is put on the queue before it is saved: when the store rejects
    the write, the message is neither stored nor announced and
    [processQueue] is not called, so it stays on the queue, behind the
    messages already there, until a later call of [processQueue]. *)
Theorem inbound_message_outcomes (up ulid : N -> jsstring) (s : Orchestrator.Sys)
        (msg : InboundMessage.t) (e : Thrown) :
  let i := List.length (Orchestrator.pending s) in
  let triggered :=
    Orchestrator.isTriggered up (Orchestrator.triggerPattern (Orchestrator.this s)) msg in
  (triggered = false ->
   let s' := Orchestrator.run up ulid s
               [Orchestrator.Inbound msg;
                Orchestrator.Resume i (Orchestrator.Resolved [])] in
   let stored := StoredMessage.mk msg false false in
   exists rest,
     Orchestrator.db s' = Orchestrator.db s ++ [stored]
     /\ Orchestrator.effects s'
        = Orchestrator.effects s
          ++ Orchestrator.Emit (Orchestrator.EvMessage stored) :: rest
     /\ Orchestrator.pushed (Orchestrator.history s')
        = Orchestrator.pushed (Orchestrator.history s))
  /\ (triggered = true ->
      let s' := Orchestrator.run up ulid s
                  [Orchestrator.Inbound msg;
                   Orchestrator.Resume i (Orchestrator.Rejected e)] in
      Orchestrator.messageQueue (Orchestrator.this s')
      = Orchestrator.messageQueue (Orchestrator.this s) ++ [msg]
      /\ Orchestrator.db s' = Orchestrator.db s
      /\ Orchestrator.effects s' = Orchestrator.effects s
      /\ Orchestrator.pending s' = Orchestrator.pending s
      /\ Orchestrator.processing (Orchestrator.this s')
         = Orchestrator.processing (Orchestrator.this s)
      /\ Orchestrator.state (Orchestrator.this s')
         = Orchestrator.state (Orchestrator.this s)).
Proof.
  intros i triggered. split; intros T s'.
  - intro stored.
    assert (E : s' = Orchestrator.processQueue ulid
                       (Orchestrator.emit (Orchestrator.EvMessage stored)
                          (Orchestrator.withDb
                             (Db.saveMessage stored (Orchestrator.db s)) s))).
    { unfold s', i, Orchestrator.run. cbn [fold_left].
      change (Orchestrator.step up ulid s (Orchestrator.Inbound msg))
        with (Orchestrator.enqueue up msg s).
      unfold Orchestrator.enqueue. fold triggered. rewrite T.
      rewrite (resume_last up ulid). reflexivity. }
    rewrite E. clear E s'.
    set (s1 := Orchestrator.emit (Orchestrator.EvMessage stored)
                 (Orchestrator.withDb (Db.saveMessage stored (Orchestrator.db s)) s)).
    assert (D : Orchestrator.db (Orchestrator.processQueue ulid s1) = Orchestrator.db s1
                /\ exists rest, Orchestrator.effects (Orchestrator.processQueue ulid s1)
                                = Orchestrator.effects s1 ++ rest).
    { unfold Orchestrator.processQueue, Orchestrator.invokeAgent.
      destruct (Orchestrator.processing (Orchestrator.this s1));
        [split; [reflexivity|exists []; symmetry; apply app_nil_r]|].
      destruct (Orchestrator.messageQueue (Orchestrator.this s1));
        [split; [reflexivity|exists []; symmetry; apply app_nil_r]|].
      destruct (negb (Orchestrator.isConfigured (Orchestrator.this s1)));
        [split; [reflexivity|eexists; reflexivity]|].
      destruct (startsWith Orchestrator.scheduledMarker (InboundMessage.content t));
        (split; [reflexivity|]); cbn; eexists; rewrite <- ?app_assoc; reflexivity. }
    destruct D as (D & rest & F). exists rest. rewrite D, F. split; [reflexivity|].
    split; [unfold s1; cbn; rewrite <- app_assoc; reflexivity|].
    rewrite pushed_processQueue. reflexivity.
  - assert (E : s' = Orchestrator.updHistory (Orchestrator.notePushed msg)
                       (Orchestrator.updThis
                          (fun t => Orchestrator.withQueue
                                      (Orchestrator.messageQueue t ++ [msg]) t) s)).
    { unfold s', i, Orchestrator.run. cbn [fold_left].
      change (Orchestrator.step up ulid s (Orchestrator.Inbound msg))
        with (Orchestrator.enqueue up msg s).
      unfold Orchestrator.enqueue. fold triggered. rewrite T.
      match goal with |- context [Orchestrator.suspend ?k ?s1] =>
        change (List.length (Orchestrator.pending s))
          with (List.length (Orchestrator.pending s1));
        rewrite (resume_last up ulid k (Orchestrator.Rejected e) s1) end.
      reflexivity. }
    rewrite E. repeat split; reflexivity.
Qed.

Lemma inbound_message_outcomes_witness :
  let s' := Orchestrator.run Mention.plainUpper Flight.sampleUlid Samples.configured
              [Orchestrator.Inbound (Flight.browserMessage "a" "first");
               Orchestrator.Resume 0 (Orchestrator.Rejected Observe.boom)] in
  Orchestrator.messageQueue (Orchestrator.this s') = [Flight.browserMessage "a" "first"]
  /\ Orchestrator.db s' = []
  /\ Orchestrator.db
       (Orchestrator.run Mention.plainUpper Flight.sampleUlid Samples.configured
          [Orchestrator.Inbound (Mention.remoteMessage "hello");
           Orchestrator.Resume 0 (Orchestrator.Resolved [])])
     = [StoredMessage.mk (Mention.remoteMessage "hello") false false].
Proof.
  intro s'.
  pose proof (proj2 (inbound_message_outcomes Mention.plainUpper Flight.sampleUlid
                       Samples.configured (Flight.browserMessage "a" "first")
                       Observe.boom) eq_refl) as H.
  destruct (proj1 (inbound_message_outcomes Mention.plainUpper Flight.sampleUlid
                     Samples.configured (Mention.remoteMessage "hello")
                     Observe.boom) eq_refl) as (rest & D & _).
  split; [exact (proj1 H)|]. split; [exact (proj1 (proj2 H))|]. exact D.
Defined.

Section Tasks.

Import Orchestrator.

Variable up : N -> jsstring.
Variable ulid : N -> jsstring.

Lemma tasks_step f m s :
  tasks (step up ulid s (FromWorker m f))
  = tasks s ++ match saveTaskFault f with
               | None => Envelopes.createdTasks [m]
               | Some _ => []
               end.
Proof.
  assert (Z : forall l : list Task.t,
             l = l ++ match saveTaskFault f with None => [] | Some _ => [] end).
  { intro l. destruct (saveTaskFault f); symmetry; apply app_nil_r. }
  cbn [step]. destruct m; cbn [handleWorkerMessage Envelopes.createdTasks flat_map app];
    try (cbn; apply Z).
  - unfold deliverResponse, saveMessage, routerSend, obind, failing, lift, oget,
      freshUlid, oret.
    destruct (saveMessageFault f); [cbn; apply Z|].
    destruct (routerSendFault f); [cbn; apply Z|]. cbn.
    destruct (hasGroup groupId (pendingScheduledTasks (this s))); cbn; apply Z.
  - unfold deliverResponse, saveMessage, routerSend, obind, failing, lift, oget,
      freshUlid, oret.
    destruct (saveMessageFault f); [cbn; apply Z|].
    destruct (routerSendFault f); [cbn; apply Z|]. cbn.
    destruct (hasGroup groupId (pendingScheduledTasks (this s))); cbn; apply Z.
  - unfold handleCompactDone, clearGroupMessages, saveMessage, obind, failing, lift,
      oget, freshUlid.
    destruct (clearFault f); [cbn; apply Z|].
    destruct (saveMessageFault f); cbn; apply Z.
  - unfold otry, saveTask, obind, failing, lift, oret.
    destruct (saveTaskFault f); cbn; [symmetry; apply app_nil_r|reflexivity].
Qed.

End Tasks.

(** X22. The tasks of the coordinator change only through [task-created]
    envelopes. Whatever envelopes the worker sends and whichever of the
    other calls fail, the store accepting the tasks, the tasks afterwards
    are those before followed by the tasks of the [task-created] envelopes,
    in the order received; when the store rejects them the rejection is
    swallowed and the tasks stay as they were. *)
Theorem created_tasks_are_saved (up ulid : N -> jsstring) (f : Orchestrator.Faults)
        (s : Orchestrator.Sys) (answers : list WorkerOutbound) :
  Orchestrator.tasks
    (Orchestrator.run up ulid s (map (fun x => Orchestrator.FromWorker x f) answers))
  = Orchestrator.tasks s
    ++ match Orchestrator.saveTaskFault f with
       | None => Envelopes.createdTasks answers
       | Some _ => []
       end.
Proof.
  revert s. induction answers as [|m answers IH]; intro s.
  - cbn. destruct (Orchestrator.saveTaskFault f); symmetry; apply app_nil_r.
  - cbn [map Orchestrator.run fold_left]. unfold Orchestrator.run in IH.
    rewrite IH, tasks_step, <- app_assoc. f_equal.
    destruct (Orchestrator.saveTaskFault f); [reflexivity|].
    unfold Envelopes.createdTasks. cbn [flat_map]. rewrite app_nil_r. reflexivity.
Qed.
